(** * grok-cli: the agent tool-calling loop and its transport layer

    A shallow embedding of [src/grok/client.ts] (error classifier, model
    transport with retry and backoff), [src/agent/grok-agent.ts] (tool
    dispatcher, buffered and streaming agent loop) and [src/utils/logger.ts],
    and of the shell and search tools [src/tools/bash.ts] and
    [src/tools/grep-tool.ts].

    Conventions.
    - A JavaScript value that may be [undefined] or [null] is an [option].
    - A thrown value is a [Thrown]; a function that may throw returns
      [Thrown + A] ([inl] is the exception).
    - Everything outside the repository (the AI SDK, the tool collaborators,
      the MCP manager, [Math.random], the clock, the abort signal) is an
      oracle of the environment record [Env], indexed by the number of
      earlier queries of the same kind, so that every behaviour of a stateful
      or nondeterministic collaborator is some instance of the oracle.
    - Every observable action is appended to a trace of [Effect]s. *)

From Stdlib Require Import ZArith QArith Qround List String Ascii Lia Lqa Bool DecimalString.
From Stdlib Require Import DecimalFacts DecimalPos.
From stdpp Require Import base gmap list strings.
Import ListNotations.

Open Scope string_scope.
Open Scope list_scope.
Open Scope Z_scope.

(** ** JavaScript strings *)

Module Js.

(** [hay.includes(needle)] *)
Fixpoint includes (needle hay : string) : bool :=
  String.prefix needle hay
  || match hay with
     | EmptyString => false
     | String _ rest => includes needle rest
     end.

(** [s.startsWith(p)] *)
Definition startsWith (p s : string) : bool := String.prefix p s.

(** Decimal text of an integer, as template literals print it. *)
Definition string_of_Z (z : Z) : string := NilZero.string_of_int (Z.to_int z).

(** [a || b] on strings: the empty string and [undefined] are falsy. *)
Definition or_string (a : option string) (b : string) : string :=
  match a with
  | Some (String c r) => String c r
  | _ => b
  end.

(** A template literal prints an undefined value as the word undefined. *)
Definition template (o : option string) : string :=
  match o with
  | Some s => s
  | None => "undefined"
  end.

Definition lower_ascii (c : ascii) : ascii :=
  let n := N_of_ascii c in
  if ((65 <=? n) && (n <=? 90))%N then ascii_of_N (n + 32) else c.

(** [s.toLowerCase()], on the ASCII letters. *)
Fixpoint toLowerCase (s : string) : string :=
  match s with
  | EmptyString => EmptyString
  | String c r => String (lower_ascii c) (toLowerCase r)
  end.

Definition is_digit (c : ascii) : bool :=
  let n := N_of_ascii c in ((48 <=? n) && (n <=? 57))%N.

End Js.

(** ** JSON values, [JSON.parse] and [JSON.stringify]

    The platform's JSON functions, modelled on byte strings. A number is kept
    as the decimal [mantissa * 10 ^ exponent] that its text denotes; the
    rounding to IEEE doubles is not modelled. *)

Module Json.

#[warnings="-register-all"] Inductive JSONValue : Type :=
| JNull
| JBool (b : bool)
| JNumber (mantissa exponent : Z)
| JString (s : string)
| JArray (items : list JSONValue)
| JObject (members : list (string * JSONValue)).

Definition dquote : ascii := ascii_of_N 34.
Definition backslash : ascii := ascii_of_N 92.

Definition is_ws (c : ascii) : bool :=
  let n := N_of_ascii c in
  ((n =? 32) || (n =? 9) || (n =? 10) || (n =? 13))%N.

Fixpoint skip_ws (s : list ascii) : list ascii :=
  match s with
  | c :: r => if is_ws c then skip_ws r else s
  | [] => []
  end.

Definition digit_val (c : ascii) : Z := Z.of_N (N_of_ascii c) - 48.

Definition hex_val (c : ascii) : option Z :=
  let n := Z.of_N (N_of_ascii c) in
  if (48 <=? n) && (n <=? 57) then Some (n - 48)
  else if (65 <=? n) && (n <=? 70) then Some (n - 55)
  else if (97 <=? n) && (n <=? 102) then Some (n - 87)
  else None.

Definition byte (z : Z) : ascii := ascii_of_N (Z.to_N z).

(** UTF-8 bytes of a code point below 0x10000. *)
Definition utf8 (cp : Z) (rest : string) : string :=
  if cp <? 128 then String (byte cp) rest
  else if cp <? 2048 then
    String (byte (192 + cp / 64)) (String (byte (128 + cp mod 64)) rest)
  else
    String (byte (224 + cp / 4096))
      (String (byte (128 + (cp / 64) mod 64))
         (String (byte (128 + cp mod 64)) rest)).

(** The characters of a string literal, after its opening quote. *)
Fixpoint parse_chars (s : list ascii) : option (string * list ascii) :=
  match s with
  | [] => None
  | c :: r =>
    if Ascii.eqb c dquote then Some (EmptyString, r)
    else if Ascii.eqb c backslash then
      match r with
      | [] => None
      | e :: r1 =>
        let simple (x : ascii) :=
          match parse_chars r1 with
          | Some (str, rest) => Some (String x str, rest)
          | None => None
          end in
        if Ascii.eqb e dquote then simple dquote
        else if Ascii.eqb e backslash then simple backslash
        else if Ascii.eqb e "/" then simple "/"%char
        else if Ascii.eqb e "b" then simple (ascii_of_N 8)
        else if Ascii.eqb e "f" then simple (ascii_of_N 12)
        else if Ascii.eqb e "n" then simple (ascii_of_N 10)
        else if Ascii.eqb e "r" then simple (ascii_of_N 13)
        else if Ascii.eqb e "t" then simple (ascii_of_N 9)
        else if Ascii.eqb e "u" then
          match r1 with
          | h1 :: h2 :: h3 :: h4 :: r2 =>
            match hex_val h1, hex_val h2, hex_val h3, hex_val h4 with
            | Some a, Some b, Some c', Some d =>
              match parse_chars r2 with
              | Some (str, rest) =>
                Some (utf8 (((a * 16 + b) * 16 + c') * 16 + d) str, rest)
              | None => None
              end
            | _, _, _, _ => None
            end
          | _ => None
          end
        else None
      end
    else if (N_of_ascii c <? 32)%N then None
    else
      match parse_chars r with
      | Some (str, rest) => Some (String c str, rest)
      | None => None
      end
  end.

(** A run of digits: their value, how many there are, and the rest. *)
Fixpoint parse_digits (s : list ascii) (acc : Z) (n : Z) : Z * Z * list ascii :=
  match s with
  | c :: r => if Js.is_digit c then parse_digits r (acc * 10 + digit_val c) (n + 1)
              else (acc, n, s)
  | [] => (acc, n, [])
  end.

Definition parse_exponent (s : list ascii) : option (Z * list ascii) :=
  match s with
  | e :: r =>
    if Ascii.eqb e "e" || Ascii.eqb e "E" then
      let '(neg, r1) :=
        match r with
        | sgn :: r' =>
          if Ascii.eqb sgn "-" then (true, r')
          else if Ascii.eqb sgn "+" then (false, r') else (false, r)
        | [] => (false, r)
        end in
      let '(v, n, rest) := parse_digits r1 0 0 in
      if n =? 0 then None else Some (if neg then - v else v, rest)
    else Some (0, s)
  | [] => Some (0, [])
  end.

Definition parse_fraction (s : list ascii) (int_part : Z) : option (Z * Z * list ascii) :=
  match s with
  | dot :: r =>
    if Ascii.eqb dot "." then
      let '(v, n, rest) := parse_digits r int_part 0 in
      if n =? 0 then None else Some (v, n, rest)
    else Some (int_part, 0, s)
  | [] => Some (int_part, 0, [])
  end.

(** An optional minus sign, an integer part without leading zeros, an
    optional fraction and an optional exponent. *)
Definition parse_number (s : list ascii) : option (JSONValue * list ascii) :=
  let '(neg, s1) :=
    match s with
    | c :: r => if Ascii.eqb c "-" then (true, r) else (false, s)
    | [] => (false, s)
    end in
  match s1 with
  | d :: r =>
    if Js.is_digit d then
      let '(ip, n, r1) := parse_digits s1 0 0 in
      if Ascii.eqb d "0" && negb (n =? 1) then None
      else
        match parse_fraction r1 ip with
        | Some (m, fl, r2) =>
          match parse_exponent r2 with
          | Some (e, r3) => Some (JNumber (if neg then - m else m) (e - fl), r3)
          | None => None
          end
        | None => None
        end
    else None
  | [] => None
  end.

Fixpoint expect (word s : list ascii) : option (list ascii) :=
  match word, s with
  | [], _ => Some s
  | w :: word', c :: s' => if Ascii.eqb w c then expect word' s' else None
  | _ :: _, [] => None
  end.

Fixpoint parse_value (fuel : nat) (s : list ascii) {struct fuel}
  : option (JSONValue * list ascii) :=
  match fuel with
  | O => None
  | S f =>
    match skip_ws s with
    | [] => None
    | c :: r =>
      if Ascii.eqb c "n" then
        option_map (fun rest => (JNull, rest)) (expect (list_ascii_of_string "ull") r)
      else if Ascii.eqb c "t" then
        option_map (fun rest => (JBool true, rest)) (expect (list_ascii_of_string "rue") r)
      else if Ascii.eqb c "f" then
        option_map (fun rest => (JBool false, rest)) (expect (list_ascii_of_string "alse") r)
      else if Ascii.eqb c dquote then
        option_map (fun '(str, rest) => (JString str, rest)) (parse_chars r)
      else if Ascii.eqb c "[" then
        match skip_ws r with
        | c1 :: r1 =>
          if Ascii.eqb c1 "]" then Some (JArray [], r1)
          else option_map (fun '(vs, rest) => (JArray vs, rest)) (parse_elements f r)
        | [] => None
        end
      else if Ascii.eqb c "{" then
        match skip_ws r with
        | c1 :: r1 =>
          if Ascii.eqb c1 "}" then Some (JObject [], r1)
          else option_map (fun '(ms, rest) => (JObject ms, rest)) (parse_members f r)
        | [] => None
        end
      else parse_number (c :: r)
    end
  end
with parse_elements (fuel : nat) (s : list ascii) {struct fuel}
  : option (list JSONValue * list ascii) :=
  match fuel with
  | O => None
  | S f =>
    match parse_value f s with
    | Some (v, r) =>
      match skip_ws r with
      | c :: r1 =>
        if Ascii.eqb c "," then
          option_map (fun '(vs, rest) => (v :: vs, rest)) (parse_elements f r1)
        else if Ascii.eqb c "]" then Some ([v], r1)
        else None
      | [] => None
      end
    | None => None
    end
  end
with parse_members (fuel : nat) (s : list ascii) {struct fuel}
  : option (list (string * JSONValue) * list ascii) :=
  match fuel with
  | O => None
  | S f =>
    match skip_ws s with
    | q :: r =>
      if Ascii.eqb q dquote then
        match parse_chars r with
        | Some (key, r1) =>
          match skip_ws r1 with
          | colon :: r2 =>
            if Ascii.eqb colon ":" then
              match parse_value f r2 with
              | Some (v, r3) =>
                match skip_ws r3 with
                | c :: r4 =>
                  if Ascii.eqb c "," then
                    option_map (fun '(ms, rest) => ((key, v) :: ms, rest))
                               (parse_members f r4)
                  else if Ascii.eqb c "}" then Some ([(key, v)], r4)
                  else None
                | [] => None
                end
              | None => None
              end
            else None
          | [] => None
          end
        | None => None
        end
      else None
    | [] => None
    end
  end.

(** [JSON.parse(text)]: the value, or [None] where the platform throws a
    [SyntaxError]. *)
Definition parse (text : string) : option JSONValue :=
  let s := list_ascii_of_string text in
  match parse_value (2 * List.length s + 2) s with
  | Some (v, rest) =>
    match skip_ws rest with
    | [] => Some v
    | _ :: _ => None
    end
  | None => None
  end.

Definition hex_digit (z : Z) : ascii :=
  if z <? 10 then byte (48 + z) else byte (87 + z).

Fixpoint quote_chars (s : string) : string :=
  match s with
  | EmptyString => String dquote EmptyString
  | String c r =>
    let n := Z.of_N (N_of_ascii c) in
    if Ascii.eqb c dquote then String backslash (String dquote (quote_chars r))
    else if Ascii.eqb c backslash then String backslash (String backslash (quote_chars r))
    else if n <? 32 then
      String backslash ("u00" +:+ String (hex_digit (n / 16)) (String (hex_digit (n mod 16)) (quote_chars r)))
    else String c (quote_chars r)
  end.

Definition quote (s : string) : string := String dquote (quote_chars s).

(** [JSON.stringify(v)]. A number is printed as mantissa and decimal
    exponent, a text that denotes the same number as the platform's. *)
Fixpoint stringify (v : JSONValue) : string :=
  match v with
  | JNull => "null"
  | JBool true => "true"
  | JBool false => "false"
  | JNumber m e =>
    if e =? 0 then Js.string_of_Z m else Js.string_of_Z m +:+ "e" +:+ Js.string_of_Z e
  | JString s => quote s
  | JArray items =>
    "[" +:+ (fix go (l : list JSONValue) : string :=
               match l with
               | [] => "]"
               | [x] => stringify x +:+ "]"
               | x :: rest => stringify x +:+ "," +:+ go rest
               end) items
  | JObject members =>
    "{" +:+ (fix go (l : list (string * JSONValue)) : string :=
               match l with
               | [] => "}"
               | [(k, x)] => quote k +:+ ":" +:+ stringify x +:+ "}"
               | (k, x) :: rest => quote k +:+ ":" +:+ stringify x +:+ "," +:+ go rest
               end) members
  end.

(** [o.key] on an object: the last member of that name, as [JSON.parse]
    keeps the last duplicate. *)
Fixpoint member (key : string) (ms : list (string * JSONValue)) : option JSONValue :=
  match ms with
  | [] => None
  | (k, v) :: rest =>
    match member key rest with
    | Some v' => Some v'
    | None => if String.eqb k key then Some v else None
    end
  end.

(** JavaScript truthiness of a value that may be undefined. *)
Definition truthy (v : option JSONValue) : bool :=
  match v with
  | None => false
  | Some JNull => false
  | Some (JBool b) => b
  | Some (JNumber m _) => negb (m =? 0)
  | Some (JString s) => negb (String.eqb s EmptyString)
  | Some (JArray _) => true
  | Some (JObject _) => true
  end.

End Json.

(** ** Error classifier ([src/grok/client.ts], classifyError) *)

Module Classifier.

(** What [classifyError] reads of a raw error ([error: any]): its [name],
    [code] and [message] when they are strings, the text [String(error)], and
    the three places an HTTP status may be found (integers). *)
Record RawError : Type := {
  err_name : option string;
  err_code : option string;
  err_message : option string;
  err_string : string;
  err_status : option Z;
  err_statusCode : option Z;
  err_response_status : option Z
}.

Record ApiErrorInfo : Type := {
  info_status : option Z;
  info_code : string;
  info_message : string;
  info_retryable : bool
}.

(** [a ?? b] *)
Definition nullish {A : Type} (a b : option A) : option A :=
  match a with
  | Some x => Some x
  | None => b
  end.

(** [o === s] for an optional string. *)
Definition is_string (o : option string) (s : string) : bool :=
  match o with
  | Some x => String.eqb x s
  | None => false
  end.

(** [error?.message ?? String(error)] *)
Definition error_msg (error : RawError) : string :=
  match err_message error with
  | Some m => m
  | None => err_string error
  end.

(** [error?.status ?? error?.statusCode ?? error?.response?.status ?? null] *)
Definition error_status (error : RawError) : option Z :=
  nullish (err_status error) (nullish (err_statusCode error) (err_response_status error)).

(** The condition of the first [if]: timeout or abort. *)
Definition timeout_signature (error : RawError) : bool :=
  let msg := error_msg error in
  is_string (err_name error) "AbortError"
  || is_string (err_code error) "ECONNABORTED"
  || Js.includes "timeout" msg
  || Js.includes "Timeout" msg.

(** The condition of the second [if]: no response was received. *)
Definition network_signature (error : RawError) : bool :=
  let msg := error_msg error in
  is_string (err_code error) "ECONNREFUSED"
  || is_string (err_code error) "ENOTFOUND"
  || is_string (err_code error) "ECONNRESET"
  || Js.includes "fetch failed" msg
  || Js.includes "network" msg
  || Js.includes "bad port" msg
  || Js.includes "Cannot connect" msg.

Definition malformed_signature (error : RawError) : bool :=
  let msg := error_msg error in
  Js.includes "JSON" msg || Js.includes "Unexpected token" msg || Js.includes "parse" msg.

Definition status_is (status : option Z) (n : Z) : bool :=
  match status with
  | Some s => s =? n
  | None => false
  end.

Definition classifyError (error : RawError) : ApiErrorInfo :=
  let msg := error_msg error in
  let status := error_status error in
  if timeout_signature error then
    {| info_status := None; info_code := "timeout";
       info_message := "Request timed out. Please try again.";
       info_retryable := true |}
  else if network_signature error then
    {| info_status := None; info_code := "network";
       info_message := "Network error — could not reach the Grok API. Check your internet connection and base URL.";
       info_retryable := true |}
  else if status_is status 400 then
    {| info_status := status; info_code := "bad_request";
       info_message := "Bad request (400). Check your request parameters. This can also indicate an incorrect API key — verify your key at https://console.x.ai.";
       info_retryable := false |}
  else if status_is status 401 then
    {| info_status := status; info_code := "auth";
       info_message := "Authentication failed (401). Your API key is invalid or expired. Update it in ~/.grok/user-settings.json or set the GROK_API_KEY environment variable. Get a new key at https://console.x.ai.";
       info_retryable := false |}
  else if status_is status 403 then
    {| info_status := status; info_code := "auth";
       info_message := "Access denied (403). Your API key does not have permission, or your account may be blocked. Contact your team admin or check https://console.x.ai.";
       info_retryable := false |}
  else if status_is status 404 then
    {| info_status := status; info_code := "not_found";
       info_message := "Not found (404). The specified model may not exist or the API endpoint URL is incorrect. Check the model name and API base URL.";
       info_retryable := false |}
  else if status_is status 429 then
    {| info_status := status; info_code := "rate_limit";
       info_message := "Rate limited (429). Retrying automatically with backoff... To request higher limits, email support@x.ai.";
       info_retryable := true |}
  else if match status with Some s => 500 <=? s | None => false end then
    {| info_status := status; info_code := "server";
       info_message := "Grok API server error (" +:+ Js.string_of_Z (default 0 status)
                       +:+ "). The service may be temporarily unavailable. Check https://status.x.ai for updates.";
       info_retryable := true |}
  else if malformed_signature error then
    {| info_status := status; info_code := "malformed";
       info_message := "Received a malformed response from the Grok API.";
       info_retryable := true |}
  else
    {| info_status := status; info_code := "unknown"; info_message := msg;
       info_retryable := false |}.

(** An error object with a message and a status, and nothing else set. *)
Definition http_error (status : Z) (message : string) : RawError :=
  {| err_name := Some "Error"; err_code := None; err_message := Some message;
     err_string := "Error: " +:+ message;
     err_status := Some status; err_statusCode := None; err_response_status := None |}.

(** The value [undefined], as [classifyError] reads it. *)
Definition undefined_error : RawError :=
  {| err_name := None; err_code := None; err_message := None;
     err_string := "undefined";
     err_status := None; err_statusCode := None; err_response_status := None |}.

End Classifier.

(** ** Data model ([src/grok/client.ts], [src/agent/grok-agent.ts]) *)

Module Data.
Import Json Classifier.

Record GrokToolCall : Type := {
  tc_id : string;
  tc_type : string;
  tc_name : string;         (* function.name *)
  tc_arguments : string     (* function.arguments *)
}.

Inductive ToolOutput : Type :=
| OutText (value : string)
| OutErrorText (value : string).

(** The structured content parts of the AI SDK. *)
Inductive ContentPart : Type :=
| TextPart (text : string)
| ToolCallPart (toolCallId toolName : string) (input : JSONValue)
| ToolResultPart (toolCallId toolName : string) (output : ToolOutput).

Inductive Content : Type :=
| Text (s : string)
| Parts (parts : list ContentPart).

Record GrokMessage : Type := { role : string; content : Content }.

Record GrokTool : Type := {
  tool_name : string;
  tool_description : string;
  tool_parameters : JSONValue
}.

Record SearchParameters : Type := { mode : option string }.
Record SearchOptions : Type := { search_parameters : option SearchParameters }.

Record ResponseMessage : Type := {
  rm_role : string;
  rm_content : option string;
  rm_tool_calls : option (list GrokToolCall)
}.

Record Choice : Type := { choice_message : ResponseMessage; finish_reason : string }.
Record GrokResponse : Type := { choices : list Choice }.

(** A thrown value: a raw error object, or a [GrokApiError] with its info.
    What is thrown is an object; the tool collaborators under [src/tools]
    catch their own failures and none of the code throws [null] or
    [undefined], which are not modelled. *)
Inductive Thrown : Type :=
| Raw (error : RawError)
| GrokApiError (info : ApiErrorInfo).

(** [error.message] of a thrown value. *)
Definition thrown_message (t : Thrown) : option string :=
  match t with
  | Raw e => err_message e
  | GrokApiError info => Some (info_message info)
  end.

Definition js_error (name message : string) : RawError :=
  {| err_name := Some name; err_code := None; err_message := Some message;
     err_string := name +:+ ": " +:+ message;
     err_status := None; err_statusCode := None; err_response_status := None |}.

(** The [SyntaxError] of [JSON.parse]; the engine's wording of the message
    is not modelled. *)
Definition SyntaxError : Thrown := Raw (js_error "SyntaxError" "Unexpected token in JSON").

(** The [TypeError] of a property read on [null] or [undefined]. *)
Definition TypeError : Thrown :=
  Raw (js_error "TypeError" "Cannot read properties of null").

(** [JSON.parse(text)] as a computation that may throw. *)
Definition JSON_parse (text : string) : Thrown + JSONValue :=
  match Json.parse text with
  | Some v => inr v
  | None => inl SyntaxError
  end.

(** *** What the AI SDK returns *)

(** [tc.input]: a string, any other value, or absent. *)
Inductive SdkInput : Type :=
| InputString (s : string)
| InputValue (v : JSONValue)
| InputMissing.

Record SdkToolCall : Type := {
  sdk_toolCallId : option string;
  sdk_id : option string;
  sdk_toolName : option string;
  sdk_name : string;
  sdk_input : SdkInput
}.

(** The result of [generateText]. *)
Record SdkResult : Type := {
  sdk_text : option string;
  sdk_finishReason : option string;
  sdk_toolCalls : option (list SdkToolCall)
}.

(** A part of [stream.fullStream]. *)
Inductive SdkChunk : Type :=
| TextDelta (text : option string)
| ToolCallChunk (toolCallId toolName : string) (input : option JSONValue)
| OtherChunk (type : string).

Record ConvertedTool : Type := { ct_description : string; ct_inputSchema : JSONValue }.

(** The arguments of [generateText] and [streamText] (the temperature is the
    constant 0.7). *)
Record SdkRequest : Type := {
  rq_baseURL : option string;
  rq_model : string;
  rq_messages : list GrokMessage;
  rq_tools : option (gmap string ConvertedTool);
  rq_toolChoice : option string;
  rq_maxOutputTokens : Z;
  rq_searchParameters : option SearchParameters
}.

(** *** What [chatStream] yields *)

Record DeltaToolCall : Type := {
  d_id : string;
  d_type : option string;
  d_name : string;
  d_arguments : option string
}.

Record Delta : Type := {
  delta_content : option string;
  delta_tool_calls : option (list DeltaToolCall)
}.

Record StreamChunk : Type := { chunk_choices : list Delta }.

(** *** Tools *)

Record ToolResult : Type := {
  success : bool;
  output : option string;
  error : option string
}.

(** [Math.min(args.timeout, 600000)], kept as the expression it is. *)
Inductive TimeoutExpr : Type :=
| Math_min (v : JSONValue) (cap : Z).

(** One call of a tool collaborator, with the arguments it is given. *)
Inductive CollabRequest : Type :=
| TextEditor_view (path : option JSONValue) (range : option (JSONValue * JSONValue))
                  (offset limit : option JSONValue)
| TextEditor_write (path content : option JSONValue)
| TextEditor_strReplace (path old_str new_str replace_all : option JSONValue)
| MorphEditor_editFile (target_file instructions code_edit : option JSONValue)
| Bash_execute (command : option JSONValue) (timeout : option TimeoutExpr)
| Glob_execute (pattern path : option JSONValue)
| Grep_execute (pattern path outputMode glob type caseSensitive contextLines : option JSONValue)
| Todo_createTodoList (todos : option JSONValue)
| Todo_updateTodoList (updates : option JSONValue)
| Search_search (query searchType includePattern excludePattern caseSensitive
                 wholeWord regex maxResults fileTypes includeHidden : option JSONValue).

Inductive McpItem : Type :=
| McpText (text : option string)
| McpResource (uri : option string)
| McpOther (as_string : string).

Record McpResult : Type := { isError : bool; mcp_content : list McpItem }.

(** *** Agent *)

Inductive EntryType : Type := user | assistant | tool_result | tool_call.

(** The wall-clock [timestamp] of an entry is not modelled. *)
Record ChatEntry : Type := {
  entry_type : EntryType;
  entry_content : string;
  entry_toolCalls : option (list GrokToolCall);
  entry_toolCall : option GrokToolCall;
  entry_toolResult : option ToolResult;
  entry_isStreaming : option bool
}.

Inductive StreamingChunk : Type :=
| content_chunk (content : string)
| tool_calls_chunk (toolCalls : list GrokToolCall)
| tool_result_chunk (toolCall : GrokToolCall) (toolResult : ToolResult)
| done
| token_count (tokenCount : Z).

(** *** Log lines ([src/utils/logger.ts]), without their timestamps *)

Inductive ResponseBody : Type :=
| ChatBody (finishReason : option string) (hasToolCalls : bool)
| StreamBody.

Inductive LogLine : Type :=
| API_REQUEST (method endpoint : string) (messageCount : nat) (hasTools : bool)
| API_RESPONSE (status : Z) (body : ResponseBody)
| API_ERROR (method endpoint : string) (status : Z + string) (errorBody : option string)
| ERROR (message : string) (error : Thrown)
| WARN (message : string)
| INFO (message : string).

(** *** Observable actions *)

(** The places where [processUserMessageStream] reads the abort signal. *)
Inductive CheckSite : Type :=
| BeforeModelCall       (* at the top of the while loop *)
| BeforeStreamEvent     (* at the top of the for-await loop *)
| BeforeTool            (* at the top of the loop over the tool calls *)
| InCatch.              (* in the catch block *)

Inductive Effect : Type :=
| ELog (line : LogLine)
| EGenerateText (rq : SdkRequest)        (* a request issued through generateText *)
| EStreamText (rq : SdkRequest)          (* a request issued through streamText *)
| ERandom (r : Q)                        (* Math.random() *)
| ESleep (ms : Q)                        (* await sleep(ms) *)
| ECollab (rq : CollabRequest)           (* a tool collaborator is run *)
| EMcp (name : string) (args : JSONValue) (* mcpManager.callTool *)
| ESyncDirectory                         (* syncCurrentDirectory() *)
| EAbortCheck (site : CheckSite) (observed : bool)
                                         (* abortController.signal.aborted is read *)
| EYield (chunk : StreamingChunk).       (* the stream generator yields *)

Definition World : Type := list Effect.

Definition emit (e : Effect) (w : World) : World := w ++ [e].

Definition is_sdk_call (e : Effect) : bool :=
  match e with EGenerateText _ | EStreamText _ => true | _ => false end.
Definition is_random (e : Effect) : bool :=
  match e with ERandom _ => true | _ => false end.
Definition is_sleep (e : Effect) : bool :=
  match e with ESleep _ => true | _ => false end.
Definition is_collab (e : Effect) : bool :=
  match e with ECollab _ => true | _ => false end.
Definition is_mcp (e : Effect) : bool :=
  match e with EMcp _ _ => true | _ => false end.
Definition is_abort_check (e : Effect) : bool :=
  match e with EAbortCheck _ _ => true | _ => false end.
Definition is_tool_run (e : Effect) : bool := is_collab e || is_mcp e.

(** How many effects of a kind have happened so far. *)
Definition count (p : Effect -> bool) (w : World) : nat := List.length (List.filter p w).

(** The environment: the oracles of everything outside the repository. *)
Record Env : Type := {
  debug : bool;                                            (* GROK_DEBUG is 1 *)
  generateText : nat -> SdkRequest -> RawError + SdkResult;
  streamText : nat -> SdkRequest -> list SdkChunk * option RawError;
  Math_random : nat -> Q;
  Date_now : nat -> Z;
  collaborator : nat -> CollabRequest -> Thrown + ToolResult;
  mcp_callTool : nat -> string -> JSONValue -> Thrown + McpResult;
  aborted : nat -> bool;
  getAllGrokTools : nat -> list GrokTool;
  countMessageTokens : list GrokMessage -> Z;
  countResponseTokens : ResponseMessage -> Z
}.

End Data.

(** ** Logger ([src/utils/logger.ts])

    Each function returns the lines it appends to the log file (a write that
    fails is ignored by the source and is not modelled). *)

Module Logger.
Import Data.

Definition appendLine (line : LogLine) : list Effect := [ELog line].

Definition error (message : string) (err : Thrown) : list Effect :=
  appendLine (ERROR message err).

Definition warn (message : string) : list Effect := appendLine (WARN message).

Definition info (E : Env) (message : string) : list Effect :=
  if debug E then appendLine (INFO message) else [].

(** Log an outgoing API request (only when debug enabled). *)
Definition logApiRequest (E : Env) (method endpoint : string)
    (messageCount : nat) (hasTools : bool) : list Effect :=
  if negb (debug E) then []
  else appendLine (API_REQUEST method endpoint messageCount hasTools).

(** Log an incoming API response (only when debug enabled). *)
Definition logApiResponse (E : Env) (status : Z) (body : ResponseBody) : list Effect :=
  if negb (debug E) then []
  else appendLine (API_RESPONSE status body).

(** Log an API error (always, regardless of debug flag). *)
Definition logApiError (method endpoint : string) (status : Z + string)
    (errorBody : option string) : list Effect :=
  appendLine (API_ERROR method endpoint status errorBody).

End Logger.

(** ** Model transport ([src/grok/client.ts], class GrokClient) *)

Module Client.
Import Json Classifier Data.

Definition MAX_RETRIES : nat := 3.
Definition BASE_DELAY_MS : Z := 1000.

Record GrokClient : Type := {
  currentModel : string;
  defaultMaxTokens : Z;
  baseURL : option string
}.

Definition setModel (model : string) (c : GrokClient) : GrokClient :=
  {| currentModel := model; defaultMaxTokens := defaultMaxTokens c; baseURL := baseURL c |}.

Definition getCurrentModel (c : GrokClient) : string := currentModel c.

(** [x || null] on a string. *)
Definition nonempty (o : option string) : option string :=
  match o with
  | Some (String c r) => Some (String c r)
  | _ => None
  end.

Definition convertTools (tools : option (list GrokTool)) : gmap string ConvertedTool :=
  match tools with
  | None => ∅
  | Some l =>
    fold_left
      (fun result tool =>
         <[tool_name tool := {| ct_description := tool_description tool;
                                ct_inputSchema := tool_parameters tool |}]> result)
      l ∅
  end.

Definition convertToolCalls (now : Z) (toolCalls : option (list SdkToolCall))
  : list GrokToolCall :=
  match toolCalls with
  | None => []
  | Some l =>
    List.map
      (fun tc =>
         {| tc_id := Js.or_string (sdk_toolCallId tc)
                       (Js.or_string (sdk_id tc) ("call_" +:+ Js.string_of_Z now));
            tc_type := "function";
            tc_name := Js.or_string (sdk_toolName tc) (sdk_name tc);
            tc_arguments :=
              match sdk_input tc with
              | InputString s => s
              | InputValue v => Json.stringify v
              | InputMissing => Json.stringify (JObject [])
              end |})
      l
  end.

(** [!!x?.length] *)
Definition has_length {A : Type} (l : option (list A)) : bool :=
  match l with
  | Some (_ :: _) => true
  | _ => false
  end.

(** The arguments shaped for the SDK, the same for [generateText] and
    [streamText]. *)
Definition request (c : GrokClient) (messages : list GrokMessage)
    (tools : option (list GrokTool)) (modelId : string)
    (searchOptions : option SearchOptions) : SdkRequest :=
  let convertedTools := convertTools tools in
  let hasTools := (0 <? size convertedTools)%nat in
  {| rq_baseURL := nonempty (baseURL c);
     rq_model := modelId;
     rq_messages := messages;
     rq_tools := if hasTools then Some convertedTools else None;
     rq_toolChoice := if hasTools then Some "auto" else None;
     rq_maxOutputTokens := defaultMaxTokens c;
     rq_searchParameters :=
       match searchOptions with
       | Some o => search_parameters o
       | None => None
       end |}.

(** [info.status ?? info.code] *)
Definition status_or_code (info : ApiErrorInfo) : Z + string :=
  match info_status info with
  | Some s => inl s
  | None => inr (info_code info)
  end.

(** [BASE_DELAY_MS * Math.pow(2, attempt) + Math.random() * 500] *)
Definition backoff (attempt : nat) (random : Q) : Q :=
  (inject_Z (BASE_DELAY_MS * 2 ^ Z.of_nat attempt) + random * 500)%Q.

(** [Math.round(x)] *)
Definition Math_round (x : Q) : Z := Qfloor (x + (1 # 2))%Q.

Definition retry_notice (what : string) (attempt : nat) (delay : Q) (info : ApiErrorInfo)
  : string :=
  "Retrying " +:+ what +:+ "() in " +:+ Js.string_of_Z (Math_round delay)
  +:+ "ms (attempt " +:+ Js.string_of_Z (Z.of_nat attempt + 1) +:+ "/"
  +:+ Js.string_of_Z (Z.of_nat MAX_RETRIES) +:+ ") — " +:+ info_code info.

Section WithEnv.
Variable E : Env.

(** The [for] loop of [chat], entered at [attempt] with
    [remaining = MAX_RETRIES + 1 - attempt] iterations left; the last case is
    the [throw] after the loop. *)
Fixpoint chat_attempts (remaining attempt : nat) (lastError : option RawError)
    (c : GrokClient) (endpoint modelId : string) (messages : list GrokMessage)
    (tools : option (list GrokTool)) (searchOptions : option SearchOptions)
    (w : World) : (Thrown + GrokResponse) * World :=
  match remaining with
  | O => (inl (GrokApiError (classifyError (default undefined_error lastError))), w)
  | S remaining' =>
    let rq := request c messages tools modelId searchOptions in
    let n := count is_sdk_call w in
    let w := emit (EGenerateText rq) w in
    match generateText E n rq with
    | inr response =>
      let w := w ++ Logger.logApiResponse E 200
                      (ChatBody (sdk_finishReason response)
                                (has_length (sdk_toolCalls response))) in
      (inr {| choices :=
                [{| choice_message :=
                      {| rm_role := "assistant";
                         rm_content := nonempty (sdk_text response);
                         rm_tool_calls :=
                           Some (convertToolCalls (Date_now E (List.length w))
                                                  (sdk_toolCalls response)) |};
                    finish_reason := Js.or_string (sdk_finishReason response) "stop" |}] |},
       w)
    | inl error =>
      let info := classifyError error in
      let w := w ++ Logger.logApiError "POST"
                      (endpoint +:+ "/chat (model=" +:+ modelId +:+ ")")
                      (status_or_code info) (err_message error) in
      let w := w ++ Logger.error "GrokClient.chat failed" (Raw error) in
      if info_retryable info && (attempt <? MAX_RETRIES)%nat then
        let r := Math_random E (count is_random w) in
        let w := emit (ERandom r) w in
        let delay := backoff attempt r in
        let w := w ++ Logger.info E (retry_notice "chat" attempt delay info) in
        let w := emit (ESleep delay) w in
        chat_attempts remaining' (S attempt) (Some error)
                      c endpoint modelId messages tools searchOptions w
      else (inl (GrokApiError info), w)
    end
  end.

Definition chat (c : GrokClient) (messages : list GrokMessage)
    (tools : option (list GrokTool)) (model : option string)
    (searchOptions : option SearchOptions) (w : World)
  : (Thrown + GrokResponse) * World :=
  let modelId := Js.or_string model (currentModel c) in
  let endpoint := Js.or_string (baseURL c) "https://api.x.ai/v1" in
  let w := w ++ Logger.logApiRequest E "POST"
                  (endpoint +:+ "/chat (model=" +:+ modelId +:+ ")")
                  (List.length messages) (has_length tools) in
  chat_attempts (MAX_RETRIES + 1) 0 None c endpoint modelId messages tools searchOptions w.

(** *** The generator [chatStream]

    A generator is the script of what it does when it is run to its end: the
    effects it performs and the chunks it yields, in order, then how it ends
    ([None]: it returns; [Some t]: it throws [t]). Its consumer performs the
    actions up to the yield it stops at and drops the rest. No SDK call and
    no random draw of the consumer falls between two yields, so the oracle
    indices are those counted when the generator is created. *)

Inductive Action : Type :=
| Act (e : Effect)
| Out (chunk : StreamChunk).

Definition convert_chunk (chunk : SdkChunk) : list Action :=
  match chunk with
  | TextDelta text =>
    [Out {| chunk_choices := [{| delta_content := text; delta_tool_calls := None |}] |}]
  | ToolCallChunk toolCallId toolName input =>
    [Out {| chunk_choices :=
              [{| delta_content := None;
                  delta_tool_calls :=
                    Some [{| d_id := toolCallId;
                             d_type := Some "function";
                             d_name := toolName;
                             d_arguments := option_map Json.stringify input |}] |}] |}]
  | OtherChunk _ => []
  end.

Fixpoint chatStream_attempts (remaining attempt : nat) (lastError : option RawError)
    (c : GrokClient) (endpoint modelId : string) (messages : list GrokMessage)
    (tools : option (list GrokTool)) (searchOptions : option SearchOptions)
    (n_sdk n_random : nat) : list Action * option Thrown :=
  match remaining with
  | O => ([], Some (GrokApiError (classifyError (default undefined_error lastError))))
  | S remaining' =>
    let rq := request c messages tools modelId searchOptions in
    let '(chunks, failure) := streamText E n_sdk rq in
    let delivered := Act (EStreamText rq) :: concat (List.map convert_chunk chunks) in
    match failure with
    | None =>
      (delivered ++ List.map Act (Logger.logApiResponse E 200 StreamBody), None)
    | Some error =>
      let info := classifyError error in
      let logged :=
        List.map Act
          (Logger.logApiError "POST"
             (endpoint +:+ "/chat/stream (model=" +:+ modelId +:+ ")")
             (status_or_code info) (err_message error)
           ++ Logger.error "GrokClient.chatStream failed" (Raw error)) in
      if info_retryable info && (attempt <? MAX_RETRIES)%nat then
        let r := Math_random E n_random in
        let delay := backoff attempt r in
        let '(rest, outcome) :=
          chatStream_attempts remaining' (S attempt) (Some error)
                              c endpoint modelId messages tools searchOptions
                              (S n_sdk) (S n_random) in
        (delivered ++ logged
         ++ Act (ERandom r)
            :: List.map Act (Logger.info E (retry_notice "chatStream" attempt delay info))
         ++ Act (ESleep delay) :: rest,
         outcome)
      else (delivered ++ logged, Some (GrokApiError info))
    end
  end.

Definition chatStream (c : GrokClient) (messages : list GrokMessage)
    (tools : option (list GrokTool)) (model : option string)
    (searchOptions : option SearchOptions) (w : World)
  : list Action * option Thrown :=
  let modelId := Js.or_string model (currentModel c) in
  let endpoint := Js.or_string (baseURL c) "https://api.x.ai/v1" in
  let '(script, outcome) :=
    chatStream_attempts (MAX_RETRIES + 1) 0 None c endpoint modelId messages tools
                        searchOptions (count is_sdk_call w) (count is_random w) in
  (List.map Act (Logger.logApiRequest E "POST"
                   (endpoint +:+ "/chat/stream (model=" +:+ modelId +:+ ")")
                   (List.length messages) (has_length tools))
   ++ script,
   outcome).

(** Running a script to its end, for a consumer that takes every chunk. *)
Fixpoint run_script (script : list Action) (w : World) : list StreamChunk * World :=
  match script with
  | [] => ([], w)
  | Act e :: rest => run_script rest (emit e w)
  | Out chunk :: rest =>
    let '(chunks, w') := run_script rest w in (chunk :: chunks, w')
  end.

Definition search (c : GrokClient) (query : string)
    (searchParameters : option SearchParameters) (w : World)
  : (Thrown + GrokResponse) * World :=
  let searchMessage := {| role := "user"; content := Text query |} in
  let searchOptions :=
    {| search_parameters :=
         Some (default {| mode := Some "on" |} searchParameters) |} in
  chat c [searchMessage] (Some []) None (Some searchOptions) w.

End WithEnv.

End Client.

(** ** Tool dispatcher and agent loop ([src/agent/grok-agent.ts], class GrokAgent) *)

Module Agent.
Import Json Classifier Data Client.

Record GrokAgent : Type := {
  grokClient : GrokClient;
  morphEditor : bool;              (* whether [this.morphEditor] is not null *)
  chatHistory : list ChatEntry;
  messages : list GrokMessage;
  abortController : bool;          (* whether [this.abortController] is not null *)
  maxToolRounds : Z
}.

(** [this.messages.push(m)] *)
Definition push_message (m : GrokMessage) (a : GrokAgent) : GrokAgent :=
  {| grokClient := grokClient a; morphEditor := morphEditor a;
     chatHistory := chatHistory a; messages := messages a ++ [m];
     abortController := abortController a; maxToolRounds := maxToolRounds a |}.

(** [this.chatHistory.push(e)] *)
Definition push_entry (e : ChatEntry) (a : GrokAgent) : GrokAgent :=
  {| grokClient := grokClient a; morphEditor := morphEditor a;
     chatHistory := chatHistory a ++ [e]; messages := messages a;
     abortController := abortController a; maxToolRounds := maxToolRounds a |}.

(** [this.abortController = ...] *)
Definition set_abortController (b : bool) (a : GrokAgent) : GrokAgent :=
  {| grokClient := grokClient a; morphEditor := morphEditor a;
     chatHistory := chatHistory a; messages := messages a;
     abortController := b; maxToolRounds := maxToolRounds a |}.

(** The constructor, with the text of the system prompt given. *)
Definition new_GrokAgent (client : GrokClient) (hasMorphKey : bool)
    (maxToolRounds : option Z) (systemPrompt : string) : GrokAgent :=
  {| grokClient := client;
     morphEditor := hasMorphKey;
     chatHistory := [];
     messages := [{| role := "system"; content := Text systemPrompt |}];
     abortController := false;
     maxToolRounds :=
       match maxToolRounds with
       | Some n => if n =? 0 then 400 else n
       | None => 400
       end |}.

Definition nl : string := String (ascii_of_N 10) EmptyString.

Definition isGrokModel (a : GrokAgent) : bool :=
  Js.startsWith "grok" (getCurrentModel (grokClient a)).

Definition keywords : list string :=
  ["today"; "latest"; "news"; "trending"; "breaking"; "current"; "now"; "recent";
   "x.com"; "twitter"; "tweet"; "what happened"; "as of"; "update on";
   "release notes"; "changelog"; "price"; "weather"].

(** The test of the regular expression for 20 followed by two digits. *)
Fixpoint has_year (q : string) : bool :=
  match q with
  | EmptyString => false
  | String c r =>
    match q with
    | String c1 (String c2 (String c3 (String c4 _))) =>
      Ascii.eqb c1 "2" && Ascii.eqb c2 "0" && Js.is_digit c3 && Js.is_digit c4
    | _ => false
    end
    || has_year r
  end.

Definition shouldUseSearchFor (message : string) : bool :=
  let q := Js.toLowerCase message in
  if existsb (fun k => Js.includes k q) keywords then true
  else if has_year q then true
  else false.

Definition getSearchOptions (a : GrokAgent) (message : string) : option SearchOptions :=
  if isGrokModel a && shouldUseSearchFor message then
    Some {| search_parameters := Some {| mode := Some "auto" |} |}
  else None.

(** The [for] loop of [buildAssistantMessage]: one tool-call part per call,
    with [JSON.parse] of its arguments. *)
Fixpoint tool_call_parts (tool_calls : list GrokToolCall) : Thrown + list ContentPart :=
  match tool_calls with
  | [] => inr []
  | tc :: rest =>
    match JSON_parse (tc_arguments tc) with
    | inl t => inl t
    | inr input =>
      match tool_call_parts rest with
      | inl t => inl t
      | inr parts => inr (ToolCallPart (tc_id tc) (tc_name tc) input :: parts)
      end
    end
  end.

Definition buildAssistantMessage (content : option string)
    (tool_calls : option (list GrokToolCall)) : Thrown + GrokMessage :=
  if negb (has_length tool_calls) then
    inr {| role := "assistant"; content := Text (Js.or_string content EmptyString) |}
  else
    let text_part :=
      match nonempty content with
      | Some c => [TextPart c]
      | None => []
      end in
    match tool_call_parts (default [] tool_calls) with
    | inl t => inl t
    | inr parts => inr {| role := "assistant"; content := Parts (text_part ++ parts) |}
    end.

Definition buildToolResultMessage (toolCall : GrokToolCall) (result : ToolResult)
  : GrokMessage :=
  {| role := "tool";
     content :=
       Parts [ToolResultPart (tc_id toolCall) (tc_name toolCall)
                (if success result
                 then OutText (Js.or_string (output result) "Success")
                 else OutErrorText (Js.or_string (error result) "Error"))] |}.

(** [try { body } catch (error) { handler }] *)
Definition try_catch {A : Type} (body : (Thrown + A) * World)
    (handler : Thrown -> World -> (Thrown + A) * World) : (Thrown + A) * World :=
  match body with
  | (inl t, w) => handler t w
  | (inr x, w) => (inr x, w)
  end.

(** Reading properties of the parsed arguments: a read on [null] throws a
    [TypeError]; on an object it gives the member, [undefined] if there is
    none; on any other value it gives [undefined]. *)
Definition with_args {A : Type} (args : JSONValue) (w : World)
    (k : (string -> option JSONValue) -> (Thrown + A) * World) : (Thrown + A) * World :=
  match args with
  | JNull => (inl TypeError, w)
  | JObject members => k (fun key => Json.member key members)
  | _ => k (fun _ => None)
  end.

Section WithEnv.
Variable E : Env.

(** One awaited call of a tool collaborator. *)
Definition call (rq : CollabRequest) (w : World) : (Thrown + ToolResult) * World :=
  (collaborator E (count is_collab w) rq, emit (ECollab rq) w).

Definition executeMCPTool (toolCall : GrokToolCall) (w : World)
  : (Thrown + ToolResult) * World :=
  try_catch
    (match JSON_parse (tc_arguments toolCall) with
     | inl t => (inl t, w)
     | inr args =>
       let n := count is_mcp w in
       let w := emit (EMcp (tc_name toolCall) args) w in
       match mcp_callTool E n (tc_name toolCall) args with
       | inl t => (inl t, w)
       | inr result =>
         if isError result then
           (inr {| success := false; output := None;
                   error := Some (Js.or_string
                                    (match mcp_content result with
                                     | McpText text :: _ => text
                                     | _ => None
                                     end)
                                    "MCP tool error") |}, w)
         else
           let out :=
             String.concat nl
               (List.map
                  (fun item =>
                     match item with
                     | McpText text => default EmptyString text
                     | McpResource uri => "Resource: " +:+ Js.or_string uri "Unknown"
                     | McpOther s => s
                     end)
                  (mcp_content result)) in
           (inr {| success := true; output := Some (Js.or_string (Some out) "Success");
                   error := None |}, w)
       end
     end)
    (fun err w =>
       (inr {| success := false; output := None;
               error := Some ("MCP tool execution error: "
                              +:+ Js.template (thrown_message err)) |}, w)).

(** The [switch] of [executeTool], inside its [try]. *)
Definition dispatch (a : GrokAgent) (toolCall : GrokToolCall) (args : JSONValue)
    (w : World) : (Thrown + ToolResult) * World :=
  let name := tc_name toolCall in
  if String.eqb name "view_file" then
    with_args args w (fun get =>
      let range :=
        if Json.truthy (get "start_line") && Json.truthy (get "end_line") then
          match get "start_line", get "end_line" with
          | Some s, Some e => Some (s, e)
          | _, _ => None
          end
        else None in
      call (TextEditor_view (get "path") range (get "offset") (get "limit")) w)
  else if String.eqb name "write_file" then
    with_args args w (fun get => call (TextEditor_write (get "path") (get "content")) w)
  else if String.eqb name "create_file" then
    with_args args w (fun get => call (TextEditor_write (get "path") (get "content")) w)
  else if String.eqb name "str_replace_editor" then
    with_args args w (fun get =>
      call (TextEditor_strReplace (get "path") (get "old_str") (get "new_str")
                                  (get "replace_all")) w)
  else if String.eqb name "edit_file" then
    if negb (morphEditor a) then
      (inr {| success := false; output := None;
              error := Some "Morph Fast Apply not available. Please set MORPH_API_KEY environment variable to use this feature." |},
       w)
    else
      with_args args w (fun get =>
        call (MorphEditor_editFile (get "target_file") (get "instructions")
                                   (get "code_edit")) w)
  else if String.eqb name "bash" then
    with_args args w (fun get =>
      let timeout :=
        if Json.truthy (get "timeout") then
          option_map (fun v => Math_min v 600000) (get "timeout")
        else None in
      match call (Bash_execute (get "command") timeout) w with
      | (inl t, w) => (inl t, w)
      | (inr result, w) => (inr result, emit ESyncDirectory w)
      end)
  else if String.eqb name "glob" then
    with_args args w (fun get => call (Glob_execute (get "pattern") (get "path")) w)
  else if String.eqb name "grep" then
    with_args args w (fun get =>
      call (Grep_execute (get "pattern") (get "path") (get "output_mode") (get "glob")
                         (get "type") (get "case_sensitive") (get "context_lines")) w)
  else if String.eqb name "create_todo_list" then
    with_args args w (fun get => call (Todo_createTodoList (get "todos")) w)
  else if String.eqb name "update_todo_list" then
    with_args args w (fun get => call (Todo_updateTodoList (get "updates")) w)
  else if String.eqb name "search" then
    with_args args w (fun get =>
      call (Search_search (get "query") (get "search_type") (get "include_pattern")
                          (get "exclude_pattern") (get "case_sensitive")
                          (get "whole_word") (get "regex") (get "max_results")
                          (get "file_types") (get "include_hidden")) w)
  else if Js.startsWith "mcp__" name then executeMCPTool toolCall w
  else
    (inr {| success := false; output := None;
            error := Some ("Unknown tool: " +:+ name) |}, w).

(** The [try] block of [executeTool]. *)
Definition executeTool_try (a : GrokAgent) (toolCall : GrokToolCall) (w : World)
  : (Thrown + ToolResult) * World :=
  match JSON_parse (tc_arguments toolCall) with
  | inl t => (inl t, w)
  | inr args => dispatch a toolCall args w
  end.

(** The [catch] block of [executeTool]. *)
Definition executeTool_catch (toolCall : GrokToolCall) (err : Thrown) (w : World)
  : (Thrown + ToolResult) * World :=
  let w := w ++ Logger.error ("executeTool(" +:+ tc_name toolCall +:+ ") failed") err in
  (inr {| success := false; output := None;
          error := Some ("Tool execution error: "
                         +:+ Js.template (thrown_message err)) |}, w).

Definition executeTool (a : GrokAgent) (toolCall : GrokToolCall) (w : World)
  : (Thrown + ToolResult) * World :=
  try_catch (executeTool_try a toolCall w) (executeTool_catch toolCall).

(** How a block of statements ends: it falls through to what follows it,
    it leaves the enclosing loop, the enclosing function returns, or a value
    is thrown. *)
Inductive Completion : Type :=
| Normal
| Break
| Return
| Throw (t : Thrown).

Definition tool_result_entry (toolCall : GrokToolCall) (result : ToolResult) : ChatEntry :=
  {| entry_type := tool_result;
     entry_content :=
       if success result
       then Js.or_string (output result) "Success"
       else Js.or_string (error result) "Error occurred";
     entry_toolCalls := None;
     entry_toolCall := Some toolCall;
     entry_toolResult := Some result;
     entry_isStreaming := None |}.

Definition max_rounds_notice : string :=
  nl +:+ nl +:+ "Maximum tool execution rounds reached. Stopping to prevent infinite loops.".

Definition cancelled_notice : string := nl +:+ nl +:+ "[Operation cancelled by user]".

(** *** Buffered mode *)

(** The [for] loop over the tool calls of one reply. *)
Fixpoint run_tools (tool_calls : list GrokToolCall) (a : GrokAgent) (w : World)
  : Completion * GrokAgent * World :=
  match tool_calls with
  | [] => (Normal, a, w)
  | toolCall :: rest =>
    match executeTool a toolCall w with
    | (inl t, w) => (Throw t, a, w)
    | (inr result, w) =>
      let a := push_entry (tool_result_entry toolCall result) a in
      let a := push_message (buildToolResultMessage toolCall result) a in
      run_tools rest a w
    end
  end.

(** The body of the [while] loop of [processUserMessage]: one round. It
    gives the round counter and [currentResponse] as the round leaves them. *)
Definition round (toolRounds : Z) (currentResponse : option GrokResponse)
    (message : string) (tools : list GrokTool) (a : GrokAgent) (w : World)
  : Completion * (Z * option GrokResponse) * GrokAgent * World :=
  match chat E (grokClient a) (messages a) (Some tools) None
             (getSearchOptions a message) w with
  | (inl t, w) => (Throw t, (toolRounds, currentResponse), a, w)
  | (inr response, w) =>
    let currentResponse := Some response in
    match choices response with
    | [] => (Throw TypeError, (toolRounds, currentResponse), a, w)
    | choice :: _ =>
      let responseMessage := choice_message choice in
      match buildAssistantMessage (rm_content responseMessage)
                                  (rm_tool_calls responseMessage) with
      | inl t => (Throw t, (toolRounds, currentResponse), a, w)
      | inr m =>
        let a := push_message m a in
        let a :=
          push_entry
            {| entry_type := assistant;
               entry_content := Js.or_string (rm_content responseMessage) EmptyString;
               entry_toolCalls := rm_tool_calls responseMessage;
               entry_toolCall := None;
               entry_toolResult := None;
               entry_isStreaming := None |} a in
        if has_length (rm_tool_calls responseMessage) then
          let toolRounds := toolRounds + 1 in
          let '(c, a, w) := run_tools (default [] (rm_tool_calls responseMessage)) a w in
          (c, (toolRounds, currentResponse), a, w)
        else (Break, (toolRounds, currentResponse), a, w)
      end
    end
  end.

(** The [while (toolRounds < this.maxToolRounds)] loop, entered with
    [remaining = maxToolRounds - toolRounds] rounds left. *)
Fixpoint rounds (remaining : nat) (toolRounds : Z) (currentResponse : option GrokResponse)
    (message : string) (tools : list GrokTool) (a : GrokAgent) (w : World)
  : Completion * (Z * option GrokResponse) * GrokAgent * World :=
  match remaining with
  | O => (Normal, (toolRounds, currentResponse), a, w)
  | S remaining' =>
    match round toolRounds currentResponse message tools a w with
    | (Normal, (toolRounds, currentResponse), a, w) =>
      rounds remaining' toolRounds currentResponse message tools a w
    | (Break, st, a, w) => (Normal, st, a, w)
    | (c, st, a, w) => (c, st, a, w)
    end
  end.

(** [processUserMessage]: the response returned ([None] is [null]) or the
    value thrown. The token counts of this path are computed and never read;
    they are left out. *)
Definition processUserMessage (message : string) (a : GrokAgent) (w : World)
  : (Thrown + option GrokResponse) * GrokAgent * World :=
  let tools := getAllGrokTools E (count is_sdk_call w) in
  let a := push_message {| role := "user"; content := Text message |} a in
  match rounds (Z.to_nat (maxToolRounds a)) 0 None message tools a w with
  | (Normal, (toolRounds, currentResponse), a, w) =>
    let a :=
      if toolRounds >=? maxToolRounds a then
        push_entry
          {| entry_type := assistant;
             entry_content := max_rounds_notice;
             entry_toolCalls := None;
             entry_toolCall := None;
             entry_toolResult := None;
             entry_isStreaming := None |} a
      else a in
    (inr currentResponse, a, w)
  | (Break, (_, currentResponse), a, w) => (inr currentResponse, a, w)
  | (Return, (_, currentResponse), a, w) => (inr currentResponse, a, w)
  | (Throw t, _, a, w) => (inl t, a, w)
  end.

(** *** Streaming mode

    The generator [processUserMessageStream] is run to its end; what it
    yields is recorded in the trace as [EYield], and what its consumer does
    between two yields (it may call [abortCurrentOperation]) shows in the
    answers of the oracle [aborted]. *)

Definition yield (chunk : StreamingChunk) (w : World) : World := emit (EYield chunk) w.

(** [this.abortController?.signal.aborted] *)
Definition check_aborted (site : CheckSite) (a : GrokAgent) (w : World) : bool * World :=
  if abortController a then
    let b := aborted E (count is_abort_check w) in
    (b, emit (EAbortCheck site b) w)
  else (false, w).

(** The two yields that precede every [return] on cancellation. *)
Definition cancel (w : World) : World :=
  yield done (yield (content_chunk cancelled_notice) w).

(** One element of [delta.tool_calls]: its arguments are added to the call
    of the same id if there is one, else it is a new call. *)
Fixpoint merge_tool_call (tc : DeltaToolCall) (accumulated : list GrokToolCall)
  : list GrokToolCall :=
  match accumulated with
  | [] =>
    [{| tc_id := d_id tc;
        tc_type := Js.or_string (d_type tc) "function";
        tc_name := d_name tc;
        tc_arguments := Js.or_string (d_arguments tc) EmptyString |}]
  | atc :: rest =>
    if String.eqb (tc_id atc) (d_id tc) then
      {| tc_id := tc_id atc; tc_type := tc_type atc; tc_name := tc_name atc;
         tc_arguments := tc_arguments atc +:+ Js.or_string (d_arguments tc) EmptyString |}
      :: rest
    else atc :: merge_tool_call tc rest
  end.

Definition merge_tool_calls (tcs : list DeltaToolCall) (accumulated : list GrokToolCall)
  : list GrokToolCall :=
  fold_left (fun acc tc => merge_tool_call tc acc) tcs accumulated.

(** The [for await (const chunk of stream)] loop over the script of
    [chatStream]. It gives the accumulated content and tool calls and the
    output token count. *)
Fixpoint consume (script : list Action) (outcome : option Thrown)
    (accumulatedContent : string) (accumulatedToolCalls : list GrokToolCall)
    (inputTokens totalOutputTokens : Z) (a : GrokAgent) (w : World)
  : Completion * (string * list GrokToolCall * Z) * World :=
  match script with
  | [] =>
    (match outcome with
     | None => Normal
     | Some t => Throw t
     end,
     (accumulatedContent, accumulatedToolCalls, totalOutputTokens), w)
  | Act e :: rest =>
    consume rest outcome accumulatedContent accumulatedToolCalls
            inputTokens totalOutputTokens a (emit e w)
  | Out chunk :: rest =>
    let '(cancelled, w) := check_aborted BeforeStreamEvent a w in
    if cancelled then
      (Return, (accumulatedContent, accumulatedToolCalls, totalOutputTokens), cancel w)
    else
      match chunk_choices chunk with
      | [] =>
        consume rest outcome accumulatedContent accumulatedToolCalls
                inputTokens totalOutputTokens a w
      | delta :: _ =>
        let '(accumulatedContent, w) :=
          match nonempty (delta_content delta) with
          | Some c => (accumulatedContent +:+ c, yield (content_chunk c) w)
          | None => (accumulatedContent, w)
          end in
        let accumulatedToolCalls :=
          match delta_tool_calls delta with
          | Some tcs => merge_tool_calls tcs accumulatedToolCalls
          | None => accumulatedToolCalls
          end in
        let totalOutputTokens := totalOutputTokens + 1 in
        let w := yield (token_count (inputTokens + totalOutputTokens)) w in
        consume rest outcome accumulatedContent accumulatedToolCalls
                inputTokens totalOutputTokens a w
      end
  end.

(** The [for] loop over the accumulated tool calls. *)
Fixpoint run_tools_stream (tool_calls : list GrokToolCall) (a : GrokAgent) (w : World)
  : Completion * GrokAgent * World :=
  match tool_calls with
  | [] => (Normal, a, w)
  | toolCall :: rest =>
    let '(cancelled, w) := check_aborted BeforeTool a w in
    if cancelled then (Return, a, cancel w)
    else
      match executeTool a toolCall w with
      | (inl t, w) => (Throw t, a, w)
      | (inr result, w) =>
        let a := push_entry (tool_result_entry toolCall result) a in
        let w := yield (tool_result_chunk toolCall result) w in
        let a := push_message (buildToolResultMessage toolCall result) a in
        run_tools_stream rest a w
      end
  end.

(** The body of the [while] loop of [processUserMessageStream]: one round.
    It gives the two token counts as the round leaves them. *)
Definition stream_round (inputTokens totalOutputTokens : Z) (message : string)
    (a : GrokAgent) (w : World) : Completion * (Z * Z) * GrokAgent * World :=
  let '(cancelled, w) := check_aborted BeforeModelCall a w in
  if cancelled then (Return, (inputTokens, totalOutputTokens), a, cancel w)
  else
    let tools := getAllGrokTools E (count is_sdk_call w) in
    let '(script, outcome) :=
      chatStream E (grokClient a) (messages a) (Some tools) None
                 (getSearchOptions a message) w in
    match consume script outcome EmptyString [] inputTokens totalOutputTokens a w with
    | (Normal, (accumulatedContent, accumulatedToolCalls, totalOutputTokens), w) =>
      let hasToolCalls := has_length (Some accumulatedToolCalls) in
      let w := if hasToolCalls then yield (tool_calls_chunk accumulatedToolCalls) w
               else w in
      match buildAssistantMessage
              (nonempty (Some accumulatedContent))
              (if hasToolCalls then Some accumulatedToolCalls else None) with
      | inl t => (Throw t, (inputTokens, totalOutputTokens), a, w)
      | inr m =>
        let a := push_message m a in
        let a :=
          push_entry
            {| entry_type := assistant;
               entry_content := accumulatedContent;
               entry_toolCalls := Some accumulatedToolCalls;
               entry_toolCall := None;
               entry_toolResult := None;
               entry_isStreaming := Some true |} a in
        if hasToolCalls then
          match run_tools_stream accumulatedToolCalls a w with
          | (Normal, a, w) =>
            let inputTokens := countMessageTokens E (messages a) in
            let w := yield (token_count (inputTokens + totalOutputTokens)) w in
            (Normal, (inputTokens, totalOutputTokens), a, w)
          | (c, a, w) => (c, (inputTokens, totalOutputTokens), a, w)
          end
        else (Return, (inputTokens, totalOutputTokens), a, yield done w)
      end
    | (c, (_, _, totalOutputTokens), w) => (c, (inputTokens, totalOutputTokens), a, w)
    end.

(** The [while (toolRounds < this.maxToolRounds)] loop of the stream, entered
    with [remaining = maxToolRounds - toolRounds] rounds left. *)
Fixpoint stream_rounds (remaining : nat) (inputTokens totalOutputTokens : Z)
    (message : string) (a : GrokAgent) (w : World) : Completion * GrokAgent * World :=
  match remaining with
  | O => (Normal, a, w)
  | S remaining' =>
    match stream_round inputTokens totalOutputTokens message a w with
    | (Normal, (inputTokens, totalOutputTokens), a, w) =>
      stream_rounds remaining' inputTokens totalOutputTokens message a w
    | (c, _, a, w) => (c, a, w)
    end
  end.

(** The [catch] block of [processUserMessageStream]. *)
Definition stream_catch (err : Thrown) (a : GrokAgent) (w : World)
  : Completion * GrokAgent * World :=
  let '(cancelled, w) := check_aborted InCatch a w in
  if cancelled then (Return, a, cancel w)
  else
    let w := w ++ Logger.error "processUserMessageStream failed" err in
    let userMessage :=
      match err with
      | GrokApiError info => nl +:+ nl +:+ "API Error: " +:+ info_message info
      | Raw e => nl +:+ nl +:+ "Sorry, I encountered an error: "
                 +:+ Js.template (err_message e)
      end in
    let a :=
      push_entry
        {| entry_type := assistant;
           entry_content := userMessage;
           entry_toolCalls := None;
           entry_toolCall := None;
           entry_toolResult := None;
           entry_isStreaming := None |} a in
    let w := yield (content_chunk userMessage) w in
    (Normal, a, yield done w).

Definition processUserMessageStream (message : string) (a : GrokAgent) (w : World)
  : Completion * GrokAgent * World :=
  let a := set_abortController true a in
  let a :=
    push_entry
      {| entry_type := user;
         entry_content := message;
         entry_toolCalls := None;
         entry_toolCall := None;
         entry_toolResult := None;
         entry_isStreaming := None |} a in
  let a := push_message {| role := "user"; content := Text message |} a in
  let inputTokens := countMessageTokens E (messages a) in
  let w := yield (token_count inputTokens) w in
  let '(c, a, w) :=
    match stream_rounds (Z.to_nat (maxToolRounds a)) inputTokens 0 message a w with
    | (Normal, a, w) =>
      (Normal, a, yield done (yield (content_chunk max_rounds_notice) w))
    | (Throw err, a, w) => stream_catch err a w
    | (c, a, w) => (c, a, w)
    end in
  (c, set_abortController false a, w).

End WithEnv.

End Agent.

(** ** The array returned by [getChatHistory]

    Arrays are objects: a heap maps the reference of an array to the
    sequence of its elements, themselves references to entry objects. *)

Module Arrays.






End Arrays.

(** ** Predicates on traces used in the statements below *)

Module Traces.
Import Json Classifier Data Client Agent.

(** The names with a case of their own in the [switch] of [executeTool]. *)
Definition builtin_names : list string :=
  ["view_file"; "write_file"; "create_file"; "str_replace_editor"; "edit_file";
   "bash"; "glob"; "grep"; "create_todo_list"; "update_todo_list"; "search"].

(** The effects of a script, without the chunks it yields. *)
Fixpoint script_effects (script : list Action) : list Effect :=
  match script with
  | [] => []
  | Act e :: rest => e :: script_effects rest
  | Out _ :: rest => script_effects rest
  end.

Definition is_request_line (e : Effect) : bool :=
  match e with ELog (API_REQUEST _ _ _ _) => true | _ => false end.

Definition is_attempt_or_sleep (e : Effect) : bool := is_sdk_call e || is_sleep e.

(** The error with which the backend fails the SDK call [e], the [n]-th of
    the run, if it fails it. *)
Definition sdk_failure (E : Env) (n : nat) (e : Effect) : option RawError :=
  match e with
  | EGenerateText rq =>
    match generateText E n rq with
    | inl err => Some err
    | inr _ => None
    end
  | EStreamText rq => snd (streamText E n rq)
  | _ => None
  end.

(** In [new], the effects that follow the first [n] SDK calls of a run, every
    SDK call that the backend fails is at once followed by the [API_ERROR]
    line with the status (or else the code) of its classification and the
    message of the raw error, then by the [ERROR] line. *)
Fixpoint failures_logged (E : Env) (endpoint what : string) (n : nat)
    (new : list Effect) : Prop :=
  match new with
  | [] => True
  | e :: rest =>
    if is_sdk_call e then
      match sdk_failure E n e with
      | Some err =>
        (exists rest',
            rest = ELog (API_ERROR "POST" endpoint (status_or_code (classifyError err))
                                   (err_message err))
                   :: ELog (ERROR what (Raw err)) :: rest')
        /\ failures_logged E endpoint what (S n) rest
      | None => failures_logged E endpoint what (S n) rest
      end
    else failures_logged E endpoint what n rest
  end.

(** The attempts and sleeps of a call whose every attempt fails with a
    retryable error: [remaining] attempts from [attempt] on, a sleep between
    two attempts. *)
Fixpoint retry_schedule (E : Env) (issue : Effect) (remaining attempt n_random : nat)
  : list Effect :=
  match remaining with
  | O => []
  | S O => [issue]
  | S remaining' =>
    issue :: ESleep (backoff attempt (Math_random E n_random))
          :: retry_schedule E issue remaining' (S attempt) (S n_random)
  end.

(** The agent fields that no message changes. *)
Definition same_config (a a' : GrokAgent) : Prop :=
  grokClient a' = grokClient a
  /\ morphEditor a' = morphEditor a
  /\ maxToolRounds a' = maxToolRounds a.

(** [a'] is [a] with messages and entries appended. *)
Definition extends (a a' : GrokAgent) : Prop :=
  (exists ms, messages a' = messages a ++ ms)
  /\ (exists es, chatHistory a' = chatHistory a ++ es)
  /\ same_config a a'.

(** The tool-result messages and entries of calls with given results. *)
Definition tool_messages (tcs : list GrokToolCall) (results : list ToolResult)
  : list GrokMessage :=
  List.map (fun p => buildToolResultMessage (fst p) (snd p)) (combine tcs results).

Definition tool_entries (tcs : list GrokToolCall) (results : list ToolResult)
  : list ChatEntry :=
  List.map (fun p => tool_result_entry (fst p) (snd p)) (combine tcs results).

(** The tool-call part of a call whose arguments parse to [input]. *)
Definition tool_call_part (tc : GrokToolCall) (input : JSONValue) : ContentPart :=
  ToolCallPart (tc_id tc) (tc_name tc) input.

Definition assistant_entry (content : option string)
    (tool_calls : option (list GrokToolCall)) : ChatEntry :=
  {| entry_type := assistant;
     entry_content := Js.or_string content EmptyString;
     entry_toolCalls := tool_calls;
     entry_toolCall := None;
     entry_toolResult := None;
     entry_isStreaming := None |}.

Definition max_rounds_entry : ChatEntry :=
  {| entry_type := assistant;
     entry_content := max_rounds_notice;
     entry_toolCalls := None;
     entry_toolCall := None;
     entry_toolResult := None;
     entry_isStreaming := None |}.

(** A check of the abort signal that observes the cancellation. *)
Definition is_observed (e : Effect) : bool :=
  match e with EAbortCheck _ true => true | _ => false end.

Definition is_done (e : Effect) : bool :=
  match e with EYield done => true | _ => false end.

(** Effects among which no cancellation is observed and no [done] is
    yielded. *)
Definition quiet (l : list Effect) : Prop :=
  Forall (fun e => is_observed e = false /\ is_done e = false) l.

(** What every observation of the cancellation is followed by. *)
Definition cancellation (site : CheckSite) : list Effect :=
  [EAbortCheck site true; EYield (content_chunk cancelled_notice); EYield done].

Definition ends_cancelled (site : CheckSite) (new : list Effect) : Prop :=
  exists pre, new = pre ++ cancellation site /\ quiet pre.

Definition ends_done (new : list Effect) : Prop :=
  exists pre, new = pre ++ [EYield done] /\ quiet pre.

(** How the effects of a block that does not leave its loop relate to its
    completion when the only [return] of the block is the one on
    cancellation at [site]. *)
Definition cancellable (site : CheckSite) (c : Completion) (new : list Effect) : Prop :=
  match c with
  | Normal | Throw _ => quiet new
  | Return => ends_cancelled site new
  | Break => False
  end.

(** The effects of the transport. *)
Definition is_transport (e : Effect) : bool :=
  match e with
  | ELog _ | EGenerateText _ | EStreamText _ | ERandom _ | ESleep _ => true
  | _ => false
  end.

(** The effects of the tool dispatcher. *)
Definition is_tool_effect (e : Effect) : bool :=
  match e with
  | ELog _ | ECollab _ | EMcp _ _ | ESyncDirectory => true
  | _ => false
  end.

(** A step of the dispatcher: it adds tool effects to the world. *)
Definition tool_step {A : Type} (w : World) (r : (Thrown + A) * World) : Prop :=
  exists new, snd r = w ++ new /\ Forall (fun e => is_tool_effect e = true) new.

(** How the effects of a loop relate to its completion: the stream goes on,
    or it has ended with its one [done], after the cancellation notice when a
    cancellation was observed. *)
Definition run_shape (c : Completion) (new : list Effect) : Prop :=
  match c with
  | Normal | Throw _ => quiet new
  | Return => ends_done new \/ exists site, ends_cancelled site new
  | Break => False
  end.

(** The whole text of a stream: the contents of all its deltas. *)
Fixpoint script_text (script : list Action) : string :=
  match script with
  | [] => EmptyString
  | Act _ :: rest => script_text rest
  | Out chunk :: rest =>
    match chunk_choices chunk with
    | delta :: _ => default EmptyString (nonempty (delta_content delta))
    | [] => EmptyString
    end +:+ script_text rest
  end.

(** All the tool calls of a stream, merged by id. *)
Fixpoint script_tool_calls (script : list Action) (accumulated : list GrokToolCall)
  : list GrokToolCall :=
  match script with
  | [] => accumulated
  | Act _ :: rest => script_tool_calls rest accumulated
  | Out chunk :: rest =>
    script_tool_calls rest
      match chunk_choices chunk with
      | delta :: _ =>
        match delta_tool_calls delta with
        | Some tcs => merge_tool_calls tcs accumulated
        | None => accumulated
        end
      | [] => accumulated
      end
  end.

(** The assistant message of a stream consumed to its end. *)
Definition stream_assistant_message (script : list Action) : Thrown + GrokMessage :=
  let tcs := script_tool_calls script [] in
  buildAssistantMessage (nonempty (Some (script_text script)))
                        (if has_length (Some tcs) then Some tcs else None).

(** The stream that a round consumes: the one [chatStream] makes for the
    history as the round finds it. *)
Definition round_script (E : Env) (message : string) (a : GrokAgent) (w : World)
  : list Action :=
  let w0 := snd (check_aborted E BeforeModelCall a w) in
  fst (chatStream E (grokClient a) (messages a)
                  (Some (getAllGrokTools E (count is_sdk_call w0))) None
                  (getSearchOptions a message) w0).

(** The ways one round of the stream can go, from the agent [a] to [a'],
    with the effects [new], for the stream [script] of the round. *)
Inductive RoundOutcome (a a' : GrokAgent) (script : list Action) (new : list Effect)
  : Completion -> Prop :=
| round_continues (m : GrokMessage) (results : list ToolResult) :
    quiet new ->
    stream_assistant_message script = inr m ->
    List.length results = List.length (script_tool_calls script []) ->
    messages a' = messages a ++ m :: tool_messages (script_tool_calls script []) results ->
    RoundOutcome a a' script new Normal
| round_throws (t : Thrown) :
    quiet new -> a' = a ->
    RoundOutcome a a' script new (Throw t)
| round_cancelled_before_model_call :
    ends_cancelled BeforeModelCall new -> a' = a ->
    RoundOutcome a a' script new Return
| round_cancelled_before_stream_event :
    ends_cancelled BeforeStreamEvent new -> a' = a ->
    RoundOutcome a a' script new Return
| round_cancelled_before_tool (m : GrokMessage) (results : list ToolResult) :
    ends_cancelled BeforeTool new ->
    stream_assistant_message script = inr m ->
    (List.length results < List.length (script_tool_calls script []))%nat ->
    messages a' = messages a ++ m :: tool_messages (script_tool_calls script []) results ->
    RoundOutcome a a' script new Return
| round_final (m : GrokMessage) :
    ends_done new ->
    stream_assistant_message script = inr m ->
    script_tool_calls script [] = [] ->
    messages a' = messages a ++ [m] ->
    RoundOutcome a a' script new Return.

End Traces.

(** ** Concrete scenarios used by the examples below *)

Module Scenarios.
Import Json Classifier Data Client Agent.

(** A 400 reply whose message mentions a timeout parameter. *)
Definition bad_request_about_timeout : RawError :=
  http_error 400 "Invalid request: timeout must be a positive integer".

(** A tool call with an unknown name and truncated arguments. *)
Definition unknown_with_bad_arguments : GrokToolCall :=
  {| tc_id := "call_1"; tc_type := "function"; tc_name := "frobnicate";
     tc_arguments := "{" |}.

(** An environment built from the oracles that matter in a scenario; the
    random draws are all 1/2 and no MCP server is configured. *)
Definition scenario (dbg : bool)
    (gen : nat -> SdkRequest -> RawError + SdkResult)
    (stream : nat -> SdkRequest -> list SdkChunk * option RawError)
    (collab : nat -> CollabRequest -> Thrown + ToolResult)
    (abort : nat -> bool) : Env :=
  {| debug := dbg;
     generateText := gen;
     streamText := stream;
     Math_random := fun _ => (1 # 2)%Q;
     Date_now := fun _ => 1700000000000;
     collaborator := collab;
     mcp_callTool := fun _ _ _ => inl (Raw (js_error "Error" "MCP manager not initialized"));
     aborted := abort;
     getAllGrokTools := fun _ => [];
     countMessageTokens := fun l => Z.of_nat (List.length l);
     countResponseTokens := fun _ => 1 |}.

Definition unavailable : RawError := http_error 503 "Service Unavailable".

Definition ok_result (text : string) : ToolResult :=
  {| success := true; output := Some text; error := None |}.

(** A backend that is down, tools that succeed, a consumer that never aborts. *)
Definition backend_down : Env :=
  scenario false (fun _ _ => inl unavailable) (fun _ _ => ([], Some unavailable))
           (fun _ _ => inr (ok_result "ok")) (fun _ => false).

(** Tool collaborators that throw. *)
Definition tools_broken : Env :=
  scenario false (fun _ _ => inl unavailable) (fun _ _ => ([], Some unavailable))
           (fun _ _ => inl (Raw (js_error "Error" "spawn ENOENT"))) (fun _ => false).

Definition hello : SdkResult :=
  {| sdk_text := Some "Hello."; sdk_finishReason := Some "stop"; sdk_toolCalls := None |}.

(** With debug logging on: the backend fails the first request with a 503
    and answers the second. *)
Definition flaky : Env :=
  scenario true
           (fun n _ => match n with O => inl unavailable | _ => inr hello end)
           (fun n _ => match n with
                       | O => ([], Some unavailable)
                       | _ => ([TextDelta (Some "Hello.")], None)
                       end)
           (fun _ _ => inr (ok_result "ok")) (fun _ => false).

Definition hi : list GrokMessage := [{| role := "user"; content := Text "hi" |}].

Definition client0 : GrokClient :=
  {| currentModel := "grok-code-fast-1"; defaultMaxTokens := 16384; baseURL := None |}.

Definition agent0 : GrokAgent := new_GrokAgent client0 false None "You are Grok CLI.".

Definition q : string := String Json.dquote EmptyString.

(** The text of the JSON object with one string member. *)
Definition json1 (key value : string) : string :=
  "{" +:+ q +:+ key +:+ q +:+ ":" +:+ q +:+ value +:+ q +:+ "}".

Definition bash_ls : GrokToolCall :=
  {| tc_id := "call_2"; tc_type := "function"; tc_name := "bash";
     tc_arguments := json1 "command" "ls" |}.

(** The SDK's form of a tool call whose input did not parse: the raw text. *)
Definition sdk_call (id name : string) (input : SdkInput) : SdkToolCall :=
  {| sdk_toolCallId := Some id; sdk_id := None; sdk_toolName := Some name;
     sdk_name := name; sdk_input := input |}.

Definition two_calls (first_input : SdkInput) : SdkResult :=
  {| sdk_text := Some "Let me look.";
     sdk_finishReason := Some "tool-calls";
     sdk_toolCalls :=
       Some [sdk_call "A" "bash" first_input;
             sdk_call "B" "view_file" (InputValue (JObject [("path", JString "README.md")]))] |}.

(** The model always requests the two tool calls [A] and [B]; the arguments
    of [A] are the truncated text of an object. *)
Definition truncated_arguments : Env :=
  scenario false (fun _ _ => inr (two_calls (InputString "{")))
           (fun _ _ => ([], None))
           (fun _ _ => inr (ok_result "ok")) (fun _ => false).

(** The same with well-formed arguments for [A]. *)
Definition always_two_calls : Env :=
  scenario false
           (fun _ _ => inr (two_calls (InputValue (JObject [("command", JString "ls")]))))
           (fun _ _ => ([], None))
           (fun _ _ => inr (ok_result "ok")) (fun _ => false).

(** The stream of one round: a text delta, then the tool call [A]. *)
Definition text_then_call : list SdkChunk :=
  [TextDelta (Some "Let me look.");
   ToolCallChunk "A" "bash" (Some (JObject [("command", JString "ls")]))].

(** The consumer aborts so that the [n]-th read of the signal, counted from
    0, is the first to observe it. *)
Definition cancelled_at_check (n : nat) : Env :=
  scenario false (fun _ _ => inl unavailable) (fun _ _ => (text_then_call, None))
           (fun _ _ => inr (ok_result "ok")) (fun k => (n <=? k)%nat).

Definition agent_limit_1 : GrokAgent :=
  new_GrokAgent client0 false (Some 1) "You are Grok CLI.".

Definition unknown_tool : GrokToolCall :=
  {| tc_id := "call_3"; tc_type := "function"; tc_name := "frobnicate";
     tc_arguments := "{}" |}.

End Scenarios.

(** * Further definitions *)

(** ** The text that [JSON.stringify] prints *)

Module JsonText.
Import Json.

(** The text of the elements of an array after its opening bracket, and of
    the members of an object after its opening brace, as [stringify] prints
    them. *)
Definition elements_text (items : list JSONValue) : string :=
  (fix go (l : list JSONValue) : string :=
     match l with
     | [] => "]"
     | [x] => stringify x +:+ "]"
     | x :: rest => stringify x +:+ "," +:+ go rest
     end) items.

Definition members_text (members : list (string * JSONValue)) : string :=
  (fix go (l : list (string * JSONValue)) : string :=
     match l with
     | [] => "}"
     | [(k, x)] => quote k +:+ ":" +:+ stringify x +:+ "}"
     | (k, x) :: rest => quote k +:+ ":" +:+ stringify x +:+ "," +:+ go rest
     end) members.

(** The number of nodes of a value, counting a container twice. *)
Fixpoint jsize (v : JSONValue) : nat :=
  match v with
  | JArray items =>
    2 + (fix go (l : list JSONValue) : nat :=
           match l with
           | [] => 0
           | x :: rest => jsize x + go rest
           end) items
  | JObject members =>
    2 + (fix go (l : list (string * JSONValue)) : nat :=
           match l with
           | [] => 0
           | (_, x) :: rest => jsize x + go rest
           end) members
  | _ => 1
  end%nat.

Definition items_size (items : list JSONValue) : nat :=
  fold_right (fun x n => (jsize x + n)%nat) 0%nat items.

Definition members_size (members : list (string * JSONValue)) : nat :=
  fold_right (fun p n => (jsize (snd p) + n)%nat) 0%nat members.

(** What may follow a value in a text: nothing, or a comma or a closing
    bracket or brace. *)
Definition value_end (rest : list ascii) : Prop :=
  match rest with
  | [] => True
  | c :: _ => c = ","%char \/ c = "]"%char \/ c = "}"%char
  end.

(** The digits of a decimal numeral, read from the left. *)
Fixpoint uint_value (d : Decimal.uint) (acc : Z) : Z :=
  match d with
  | Decimal.Nil => acc
  | Decimal.D0 l => uint_value l (acc * 10 + 0)
  | Decimal.D1 l => uint_value l (acc * 10 + 1)
  | Decimal.D2 l => uint_value l (acc * 10 + 2)
  | Decimal.D3 l => uint_value l (acc * 10 + 3)
  | Decimal.D4 l => uint_value l (acc * 10 + 4)
  | Decimal.D5 l => uint_value l (acc * 10 + 5)
  | Decimal.D6 l => uint_value l (acc * 10 + 6)
  | Decimal.D7 l => uint_value l (acc * 10 + 7)
  | Decimal.D8 l => uint_value l (acc * 10 + 8)
  | Decimal.D9 l => uint_value l (acc * 10 + 9)
  end.

(** What [quote_chars] prints for one character. *)
Definition escape (c : ascii) : string :=
  let n := Z.of_N (N_of_ascii c) in
  if Ascii.eqb c dquote then String backslash (String dquote EmptyString)
  else if Ascii.eqb c backslash then String backslash (String backslash EmptyString)
  else if n <? 32 then
    String backslash ("u00" +:+ String (hex_digit (n / 16)) (String (hex_digit (n mod 16)) EmptyString))
  else String c EmptyString.

Definition no_digit (rest : list ascii) : Prop :=
  match rest with
  | [] => True
  | c :: _ => Js.is_digit c = false
  end.

(** The text of a number as [stringify] prints it. *)
Definition number_text (m e : Z) : string :=
  if e =? 0 then Js.string_of_Z m else Js.string_of_Z m +:+ "e" +:+ Js.string_of_Z e.

(** How a printed value begins: not with white space and not with a closing
    bracket or brace. *)
Definition value_start (c : ascii) : Prop :=
  is_ws c = false /\ Ascii.eqb c "]" = false /\ Ascii.eqb c "}" = false.

End JsonText.

(** ** Shapes of values and traces used in the further properties *)

Module Shapes.
Import Json Classifier Data Client Agent Traces.

(** The chunks a script yields, in order. *)
Fixpoint script_chunks (script : list Action) : list StreamChunk :=
  match script with
  | [] => []
  | Act _ :: rest => script_chunks rest
  | Out chunk :: rest => chunk :: script_chunks rest
  end.

(** What [chatStream] yields for the parts of one [fullStream]. *)
Definition converted (chunks : list SdkChunk) : list StreamChunk :=
  script_chunks (concat (List.map convert_chunk chunks)).

(** The response that [chat] builds from a result of [generateText]
    ([src/grok/client.ts], lines 180-189). *)
Definition response_of (now : Z) (result : SdkResult) : GrokResponse :=
  {| choices :=
       [{| choice_message :=
             {| rm_role := "assistant";
                rm_content := nonempty (sdk_text result);
                rm_tool_calls := Some (convertToolCalls now (sdk_toolCalls result)) |};
           finish_reason := Js.or_string (sdk_finishReason result) "stop" |}] |}.


(** A tool result that says what it has to say: a success carries a
    non-empty [output] and no [error], a failure a non-empty [error] and no
    [output]. *)
Definition well_formed (r : ToolResult) : Prop :=
  if success r
  then (exists s, output r = Some s /\ s <> EmptyString) /\ error r = None
  else (exists s, error r = Some s /\ s <> EmptyString) /\ output r = None.

Definition failure (message : string) : ToolResult :=
  {| success := false; output := None; error := Some message |}.

(** The values that the argument texts of tool calls parse to, if they all
    parse. *)
Fixpoint parsed_inputs (tcs : list GrokToolCall) : option (list JSONValue) :=
  match tcs with
  | [] => Some []
  | tc :: rest =>
    match Json.parse (tc_arguments tc), parsed_inputs rest with
    | Some v, Some vs => Some (v :: vs)
    | _, _ => None
    end
  end.

(** The value of an input of the SDK: of a string, what it parses to. *)
Definition input_value (i : SdkInput) : option JSONValue :=
  match i with
  | InputString s => Json.parse s
  | InputValue v => Some v
  | InputMissing => Some (JObject [])
  end.

Fixpoint sdk_inputs (calls : list SdkToolCall) : option (list JSONValue) :=
  match calls with
  | [] => Some []
  | tc :: rest =>
    match input_value (sdk_input tc), sdk_inputs rest with
    | Some v, Some vs => Some (v :: vs)
    | _, _ => None
    end
  end.

(** The assistant message for tool calls with given inputs. *)
Definition tool_call_message (content : option string) (tcs : list GrokToolCall)
    (inputs : list JSONValue) : GrokMessage :=
  {| role := "assistant";
     content :=
       Parts (match nonempty content with
              | Some c => [TextPart c]
              | None => []
              end
              ++ List.map (fun p => tool_call_part (fst p) (snd p)) (combine tcs inputs)) |}.

(** What one call of [executeTool] can do, from the world [w]: what it
    returns and what it adds to the world. *)
Inductive Dispatched (E : Env) (toolCall : GrokToolCall) (w : World)
  : (Thrown + ToolResult) * World -> Prop :=
| refused (r : ToolResult) :
    (* nothing is run: the tool is unknown or not configured *)
    success r = false ->
    Dispatched E toolCall w (inr r, w)
| threw_before (t : Thrown) :
    (* the arguments are not JSON, or are [null] *)
    Dispatched E toolCall w
      (inr (failure ("Tool execution error: " +:+ Js.template (thrown_message t))),
       w ++ [ELog (ERROR ("executeTool(" +:+ tc_name toolCall +:+ ") failed") t)])
| collaborator_returned (rq : CollabRequest) (r : ToolResult) :
    collaborator E (count is_collab w) rq = inr r ->
    tc_name toolCall <> "bash" ->
    Dispatched E toolCall w (inr r, w ++ [ECollab rq])
| bash_returned (command : option JSONValue) (timeout : option TimeoutExpr)
    (r : ToolResult) :
    collaborator E (count is_collab w) (Bash_execute command timeout) = inr r ->
    tc_name toolCall = "bash" ->
    Dispatched E toolCall w
      (inr r, w ++ [ECollab (Bash_execute command timeout); ESyncDirectory])
| collaborator_threw (rq : CollabRequest) (t : Thrown) :
    collaborator E (count is_collab w) rq = inl t ->
    Dispatched E toolCall w
      (inr (failure ("Tool execution error: " +:+ Js.template (thrown_message t))),
       w ++ [ECollab rq;
             ELog (ERROR ("executeTool(" +:+ tc_name toolCall +:+ ") failed") t)])
| remote (args : JSONValue) (r : ToolResult) :
    Js.startsWith "mcp__" (tc_name toolCall) = true ->
    Json.parse (tc_arguments toolCall) = Some args ->
    executeMCPTool E toolCall w = (inr r, w ++ [EMcp (tc_name toolCall) args]) ->
    Dispatched E toolCall w (inr r, w ++ [EMcp (tc_name toolCall) args]).


(** Whether a response asks for tools: the test that [processUserMessage]
    makes on the message of its first choice. *)
Definition pending (r : option GrokResponse) : bool :=
  match r with
  | Some response =>
    match choices response with
    | choice :: _ => has_length (rm_tool_calls (choice_message choice))
    | [] => false
    end
  | None => false
  end.

(** The tool-call deltas that the stream loop reads from a script, in
    order. *)
Fixpoint script_deltas (script : list Action) : list DeltaToolCall :=
  match script with
  | [] => []
  | Act _ :: rest => script_deltas rest
  | Out chunk :: rest =>
    match chunk_choices chunk with
    | delta :: _ => default [] (delta_tool_calls delta)
    | [] => []
    end ++ script_deltas rest
  end.

(** The argument texts of the deltas with a given id, one after the other. *)
Fixpoint arguments_for (id : string) (ds : list DeltaToolCall) : string :=
  match ds with
  | [] => EmptyString
  | d :: rest =>
    (if String.eqb (d_id d) id then Js.or_string (d_arguments d) EmptyString
     else EmptyString)
    +:+ arguments_for id rest
  end.

(** The call that the stream loop pushes for a delta with a new id
    ([src/agent/grok-agent.ts], lines 342-349). *)
Definition new_tool_call (tc : DeltaToolCall) : GrokToolCall :=
  {| tc_id := d_id tc;
     tc_type := Js.or_string (d_type tc) "function";
     tc_name := d_name tc;
     tc_arguments := Js.or_string (d_arguments tc) EmptyString |}.

(** The arguments of the first call with a given id. *)
Fixpoint arguments_of (id : string) (tcs : list GrokToolCall) : string :=
  match tcs with
  | [] => EmptyString
  | tc :: rest =>
    if String.eqb (tc_id tc) id then tc_arguments tc else arguments_of id rest
  end.

(** How the stream that a round consumes ends, see [round_script]. *)
Definition round_outcome (E : Env) (message : string) (a : GrokAgent) (w : World)
  : option Thrown :=
  let w0 := snd (check_aborted E BeforeModelCall a w) in
  snd (chatStream E (grokClient a) (messages a)
                  (Some (getAllGrokTools E (count is_sdk_call w0))) None
                  (getSearchOptions a message) w0).

(** The log lines that are written only when debug logging is on. *)
Definition debug_only (e : Effect) : bool :=
  match e with
  | ELog (API_REQUEST _ _ _ _) | ELog (API_RESPONSE _ _) | ELog (INFO _) => true
  | _ => false
  end.

(** A tool as [convertTools] hands it to the SDK. *)
Definition converted_tool (tool : GrokTool) : ConvertedTool :=
  {| ct_description := tool_description tool; ct_inputSchema := tool_parameters tool |}.


End Shapes.

(** ** JavaScript strings as UTF-16 code units

    What a child process writes reaches the tools as JavaScript strings
    ([data.toString()]), and the tools measure and cut them as JavaScript
    does, by UTF-16 code units. Such a string is held here as the list of
    its code units, numbers below 65536: a character outside the Basic
    Multilingual Plane is two of them, a surrogate pair. *)

Module Utf16.

Definition text : Type := list N.

(** [s.length] *)
Definition length (s : text) : Z := Z.of_nat (List.length s).

(** [s.substring(0, n)] *)
Definition substring_to (n : Z) (s : text) : text := firstn (Z.to_nat n) s.

(** The white space and line terminators of ECMAScript, which [trim]
    removes: U+0009 to U+000D, U+0020, U+00A0, U+1680, U+2000 to U+200A,
    U+2028, U+2029, U+202F, U+205F, U+3000 and U+FEFF. *)
Definition is_space (u : N) : bool :=
  (((9 <=? u) && (u <=? 13)) || (u =? 32) || (u =? 160) || (u =? 5760)
   || ((8192 <=? u) && (u <=? 8202)) || (u =? 8232) || (u =? 8233)
   || (u =? 8239) || (u =? 8287) || (u =? 12288) || (u =? 65279))%N.

Fixpoint trimStart (s : text) : text :=
  match s with
  | [] => []
  | u :: r => if is_space u then trimStart r else s
  end.

Fixpoint trimEnd (s : text) : text :=
  match s with
  | [] => []
  | u :: r =>
    match trimEnd r with
    | [] => if is_space u then [] else [u]
    | kept => u :: kept
    end
  end.

(** [s.trim()] *)
Definition trim (s : text) : text := trimEnd (trimStart s).

(** The code units of a literal written in ASCII. *)
Definition units (literal : string) : text :=
  List.map N_of_ascii (list_ascii_of_string literal).

Definition is_high (u : N) : bool := ((55296 <=? u) && (u <=? 56319))%N.
Definition is_low (u : N) : bool := ((56320 <=? u) && (u <=? 57343))%N.

(** The UTF-8 bytes of a code point. *)
Definition utf8 (cp : N) (rest : string) : string :=
  (if cp <? 128 then String (ascii_of_N cp) rest
   else if cp <? 2048 then
     String (ascii_of_N (192 + cp / 64)) (String (ascii_of_N (128 + cp mod 64)) rest)
   else if cp <? 65536 then
     String (ascii_of_N (224 + cp / 4096))
       (String (ascii_of_N (128 + (cp / 64) mod 64))
          (String (ascii_of_N (128 + cp mod 64)) rest))
   else
     String (ascii_of_N (240 + cp / 262144))
       (String (ascii_of_N (128 + (cp / 4096) mod 64))
          (String (ascii_of_N (128 + (cp / 64) mod 64))
             (String (ascii_of_N (128 + cp mod 64)) rest))))%N.

(** The text as a byte string, the form in which a [ToolResult] holds text
    in this file: the UTF-8 bytes of its characters. A surrogate that stands
    alone, as a cut through a pair leaves it, is written in the three-byte
    form of its own number. *)
Fixpoint encode (s : text) : string :=
  match s with
  | [] => EmptyString
  | u :: rest =>
    match rest with
    | v :: rest' =>
      if is_high u && is_low v
      then utf8 (65536 + (u - 55296) * 1024 + (v - 56320))%N (encode rest')
      else utf8 u (encode rest)
    | [] => utf8 u EmptyString
    end
  end.

End Utf16.

(** ** Commands and file names

    Operations on the byte strings that hold commands and file names. *)

Module Text.

(** [s.substring(n)] *)
Fixpoint substring_from (n : nat) (s : string) : string :=
  match n, s with
  | O, _ => s
  | S n, String _ r => substring_from n r
  | S _, EmptyString => EmptyString
  end.

(** [s.endsWith(suffix)] *)
Definition endsWith (suffix s : string) : bool :=
  let n := String.length s in
  let k := String.length suffix in
  (k <=? n)%nat && String.eqb (substring_from (n - k) s) suffix.

(** The white space and line terminators of ASCII. *)
Definition is_space (c : ascii) : bool :=
  let n := N_of_ascii c in (((9 <=? n) && (n <=? 13)) || (n =? 32))%N.

Fixpoint trimStart (s : string) : string :=
  match s with
  | EmptyString => EmptyString
  | String c r => if is_space c then trimStart r else s
  end.

Fixpoint trimEnd (s : string) : string :=
  match s with
  | EmptyString => EmptyString
  | String c r =>
    match trimEnd r with
    | EmptyString => if is_space c then EmptyString else String c EmptyString
    | kept => String c kept
    end
  end.

(** [s.trim()] *)
Definition trim (s : string) : string := trimEnd (trimStart s).

(** [`${code}`] of an exit code, which is [null] when a signal ended the
    process. *)
Definition code_text (code : option Z) : string :=
  match code with
  | Some n => Js.string_of_Z n
  | None => "null"
  end.

(** [Math.round(n / d)] for whole [n] and positive [d]: halves go up. *)
Definition round_div (n d : Z) : Z := (2 * n + d) / (2 * d).

End Text.

(** ** The bash tool ([src/tools/bash.ts]) *)

Module Bash.
Import Json Data Shapes.

(** The limit of a buffer. It is compared with [length]s, so it counts
    UTF-16 code units. *)
Definition MAX_OUTPUT_SIZE : Z := 100 * 1024.

(** The variables that the callbacks of [spawnCommand] share. *)
Record Capture : Type := {
  stdout : Utf16.text;
  stderr : Utf16.text;
  killed : bool;
  outputTruncated : bool
}.

Definition initial : Capture :=
  {| stdout := []; stderr := []; killed := false; outputTruncated := false |}.

(** What the event loop delivers to the callbacks, in order: data of the two
    pipes ([chunk] is [data.toString()]), the expiry of the timeout, and the
    [close] and [error] events of the child. *)
Inductive ChildEvent : Type :=
| stdout_data (chunk : Utf16.text)
| stderr_data (chunk : Utf16.text)
| timer_fired
| close (code : option Z) (signal : option string)
| error_event (error : Thrown).

Definition on_stdout (chunk : Utf16.text) (s : Capture) : Capture :=
  if Utf16.length (stdout s) + Utf16.length chunk >? MAX_OUTPUT_SIZE then
    if negb (outputTruncated s) then
      {| stdout :=
           stdout s
           ++ Utf16.substring_to (MAX_OUTPUT_SIZE - Utf16.length (stdout s)) chunk;
         stderr := stderr s; killed := killed s; outputTruncated := true |}
    else s
  else
    {| stdout := stdout s ++ chunk; stderr := stderr s; killed := killed s;
       outputTruncated := outputTruncated s |}.

Definition on_stderr (chunk : Utf16.text) (s : Capture) : Capture :=
  if Utf16.length (stderr s) + Utf16.length chunk >? MAX_OUTPUT_SIZE then
    if negb (outputTruncated s) then
      {| stdout := stdout s;
         stderr :=
           stderr s
           ++ Utf16.substring_to (MAX_OUTPUT_SIZE - Utf16.length (stderr s)) chunk;
         killed := killed s; outputTruncated := true |}
    else s
  else
    {| stdout := stdout s; stderr := stderr s ++ chunk; killed := killed s;
       outputTruncated := outputTruncated s |}.

(** The callback of the timeout. It also sends [SIGTERM] to the child, and
    [SIGKILL] five seconds later; what the child does then reaches the
    function as the events that follow. *)
Definition on_timer (s : Capture) : Capture :=
  {| stdout := stdout s; stderr := stderr s; killed := true;
     outputTruncated := outputTruncated s |}.

Definition succeeded (text : string) : ToolResult :=
  {| success := true; output := Some text; error := None |}.

(** The note of a truncation; its dash is the em dash, U+2014. *)
Definition truncationMsg (s : Capture) : Utf16.text :=
  if outputTruncated s
  then Utf16.units (Agent.nl +:+ Agent.nl +:+ "[Output truncated ") ++ [8212%N]
       ++ Utf16.units " exceeded 100KB limit]"
  else [].

(** The [output] constant of the [close] callback. *)
Definition captured_output (s : Capture) : Utf16.text :=
  stdout s
  ++ match stderr s with
     | [] => []
     | _ :: _ => Utf16.units (Agent.nl +:+ "STDERR: ") ++ stderr s
     end
  ++ truncationMsg s.

Definition on_close (timeout : Z) (code : option Z) (signal : option string)
    (s : Capture) : ToolResult :=
  let output := captured_output s in
  if killed s then
    failure ("Command timed out after " +:+ Js.string_of_Z (Text.round_div timeout 1000)
             +:+ "s. Partial output:" +:+ Agent.nl
             +:+ Utf16.encode (Utf16.trim output))
  else
    match signal with
    | Some (String c r) =>
      failure ("Command killed by signal " +:+ String c r +:+ ". Output:" +:+ Agent.nl
               +:+ Utf16.encode (Utf16.trim output))
    | _ =>
      match code with
      | Some 0 =>
        succeeded (Js.or_string (Some (Utf16.encode (Utf16.trim output)))
                                "Command executed successfully (no output)")
      | _ =>
        failure ("Command exited with code " +:+ Text.code_text code +:+ "." +:+ Agent.nl
                 +:+ Utf16.encode (Utf16.trim output))
      end
    end.

Definition on_error (error : Thrown) : ToolResult :=
  failure ("Failed to start command: " +:+ Js.template (thrown_message error)).

(** The callbacks run on the events in order. The promise is resolved by the
    first [close] or [error]; it gives the variables as they are then, and
    the result, if there is one. *)
Fixpoint listen (timeout : Z) (events : list ChildEvent) (s : Capture)
  : Capture * option ToolResult :=
  match events with
  | [] => (s, None)
  | stdout_data chunk :: rest => listen timeout rest (on_stdout chunk s)
  | stderr_data chunk :: rest => listen timeout rest (on_stderr chunk s)
  | timer_fired :: rest => listen timeout rest (on_timer s)
  | close code signal :: _ => (s, Some (on_close timeout code signal s))
  | error_event error :: _ => (s, Some (on_error error))
  end.

(** *** The tool and what surrounds it *)

Record SessionFlags : Type := { bashCommands : bool; allOperations : bool }.

Record ConfirmationOptions : Type := {
  operation : string;
  filename : string;
  showVSCodeOpen : bool;
  content : string
}.

Record ConfirmationResult : Type := { confirmed : bool; feedback : option string }.

Inductive ToolEffect : Type :=
| ERequestConfirmation (options : ConfirmationOptions) (operationType : string)
| EChdir (directory : string)
| ESpawn (file : string) (args : list string) (cwd : string).

(** The confirmation service, the process and [child_process.spawn]. A call
    gives a value or throws; an awaited promise may also never settle
    ([None]); a spawned child is the events it sends. *)
Record ToolEnv : Type := {
  getSessionFlags : Thrown + SessionFlags;
  requestConfirmation :
    ConfirmationOptions -> string -> option (Thrown + ConfirmationResult);
  process_chdir : string -> option Thrown;
  process_cwd : string -> Thrown + string;       (* [process.cwd()] after [chdir] *)
  spawn : string -> list string -> string -> Thrown + list ChildEvent
}.

Record BashTool : Type := { currentDirectory : string }.

(** What [execute] shows the user when it asks for a confirmation. *)
Definition confirmation (tool : BashTool) (command : string) : ConfirmationOptions :=
  {| operation := "Run bash command";
     filename := command;
     showVSCodeOpen := false;
     content := "Command: " +:+ command +:+ Agent.nl +:+ "Working directory: "
                +:+ currentDirectory tool |}.

(** How an [async] call ends: it never settles, it rejects, or it resolves. *)
Definition Outcome : Type := option (Thrown + ToolResult).

Definition is_chdir (e : ToolEffect) : bool :=
  match e with EChdir _ => true | _ => false end.

Definition is_spawn (e : ToolEffect) : bool :=
  match e with ESpawn _ _ _ => true | _ => false end.

Section WithEnv.
Variable E : ToolEnv.

Definition spawnCommand (tool : BashTool) (command : string) (timeout : Z)
    (w : list ToolEffect) : Outcome * list ToolEffect :=
  let w := w ++ [ESpawn "bash" ["-c"; command] (currentDirectory tool)] in
  match spawn E "bash" ["-c"; command] (currentDirectory tool) with
  | inl t => (Some (inl t), w)
  | inr events =>
    (option_map inr (snd (listen timeout events initial)), w)
  end.

(** [execute] from the test of [cd] on. *)
Definition run_command (tool : BashTool) (command : string) (timeout : Z)
    (w : list ToolEffect) : Outcome * BashTool * list ToolEffect :=
  if Js.startsWith "cd " command then
    let newDir := Text.trim (Text.substring_from 3 command) in
    let w := w ++ [EChdir newDir] in
    let cannot error :=
      failure ("Cannot change directory: " +:+ Js.template (thrown_message error)) in
    match process_chdir E newDir with
    | Some error => (Some (inr (cannot error)), tool, w)
    | None =>
      match process_cwd E newDir with
      | inl error => (Some (inr (cannot error)), tool, w)
      | inr directory =>
        (Some (inr (succeeded ("Changed directory to: " +:+ directory))),
         {| currentDirectory := directory |}, w)
      end
    end
  else
    let '(r, w) := spawnCommand tool command timeout w in (r, tool, w).

(** The [try] block of [execute]. *)
Definition execute_try (tool : BashTool) (command : option JSONValue) (timeout : Z)
    (w : list ToolEffect) : Outcome * BashTool * list ToolEffect :=
  match command with
  | Some (JString (String c r)) =>
    let command := String c r in
    match getSessionFlags E with
    | inl t => (Some (inl t), tool, w)
    | inr sessionFlags =>
      if negb (bashCommands sessionFlags) && negb (allOperations sessionFlags) then
        let options := confirmation tool command in
        let w := w ++ [ERequestConfirmation options "bash"] in
        match requestConfirmation E options "bash" with
        | None => (None, tool, w)
        | Some (inl t) => (Some (inl t), tool, w)
        | Some (inr confirmationResult) =>
          if negb (confirmed confirmationResult) then
            (Some (inr (failure (Js.or_string (feedback confirmationResult)
                                              "Command execution cancelled by user"))),
             tool, w)
          else run_command tool command timeout w
        end
      else run_command tool command timeout w
    end
  | _ =>
    (Some (inr (failure "No command provided. Please specify a command to execute.")),
     tool, w)
  end.

(** [execute(command, timeout = 120000)] *)
Definition execute (tool : BashTool) (command : option JSONValue) (timeout : option Z)
    (w : list ToolEffect) : Outcome * BashTool * list ToolEffect :=
  match execute_try tool command (default 120000 timeout) w with
  | (Some (inl error), tool, w) =>
    (Some (inr (failure ("Command failed: " +:+ Js.template (thrown_message error)))),
     tool, w)
  | r => r
  end.

(** The user allowed the command: a session flag is set, or the request for
    a confirmation was answered with a yes. *)
Definition allowed (tool : BashTool) (command : string) : Prop :=
  exists sessionFlags,
    getSessionFlags E = inr sessionFlags
    /\ (bashCommands sessionFlags = true
        \/ allOperations sessionFlags = true
        \/ exists answer,
             requestConfirmation E (confirmation tool command) "bash"
             = Some (inr answer)
             /\ confirmed answer = true).

End WithEnv.

(** The whole of what the child wrote to a pipe before the promise was
    resolved. *)
Fixpoint written_stdout (events : list ChildEvent) : Utf16.text :=
  match events with
  | stdout_data chunk :: rest => chunk ++ written_stdout rest
  | stderr_data _ :: rest | timer_fired :: rest => written_stdout rest
  | _ => []
  end.

Fixpoint written_stderr (events : list ChildEvent) : Utf16.text :=
  match events with
  | stderr_data chunk :: rest => chunk ++ written_stderr rest
  | stdout_data _ :: rest | timer_fired :: rest => written_stderr rest
  | _ => []
  end.

Definition settles (e : ChildEvent) : bool :=
  match e with
  | close _ _ | error_event _ => true
  | _ => false
  end.

(** Whether the timeout expired before the promise was resolved. *)
Fixpoint timed_out (events : list ChildEvent) : bool :=
  match events with
  | timer_fired :: _ => true
  | stdout_data _ :: rest | stderr_data _ :: rest => timed_out rest
  | _ => false
  end.

(** What the variables hold once the child has written [out] to its
    standard output and [err] to its standard error. *)
Definition holds (out err : Utf16.text) (s : Capture) : Prop :=
  Utf16.length (stdout s) <= MAX_OUTPUT_SIZE
  /\ Utf16.length (stderr s) <= MAX_OUTPUT_SIZE
  /\ outputTruncated s
     = (Utf16.length out >? MAX_OUTPUT_SIZE) || (Utf16.length err >? MAX_OUTPUT_SIZE)
  /\ (Utf16.length err <= MAX_OUTPUT_SIZE ->
      stdout s = Utf16.substring_to MAX_OUTPUT_SIZE out /\ stderr s = err)
  /\ (Utf16.length out <= MAX_OUTPUT_SIZE ->
      stderr s = Utf16.substring_to MAX_OUTPUT_SIZE err /\ stdout s = out).

End Bash.

(** ** The grep tool ([src/tools/grep-tool.ts]): [runRipgrep] *)

Module Grep.
Import Json Data Shapes.

(** The limit of the output buffer, in UTF-16 code units. *)
Definition MAX_OUTPUT_SIZE : Z := 50 * 1024.

Record Capture : Type := {
  stdout : Utf16.text;
  stderr : Utf16.text;
  truncated : bool
}.

Definition initial : Capture :=
  {| stdout := []; stderr := []; truncated := false |}.

(** The events of the child; [chunk] is [data.toString()]. *)
Inductive ChildEvent : Type :=
| stdout_data (chunk : Utf16.text)
| stderr_data (chunk : Utf16.text)
| close (code : option Z)
| error_event (error : Thrown).

Definition on_stdout (chunk : Utf16.text) (s : Capture) : Capture :=
  if Utf16.length (stdout s) + Utf16.length chunk >? MAX_OUTPUT_SIZE then
    if negb (truncated s) then
      {| stdout :=
           stdout s
           ++ Utf16.substring_to (MAX_OUTPUT_SIZE - Utf16.length (stdout s)) chunk;
         stderr := stderr s; truncated := true |}
    else s
  else
    {| stdout := stdout s ++ chunk; stderr := stderr s; truncated := truncated s |}.

Definition on_stderr (chunk : Utf16.text) (s : Capture) : Capture :=
  {| stdout := stdout s; stderr := stderr s ++ chunk; truncated := truncated s |}.

(** The note of a truncation; its dash is the em dash, U+2014. *)
Definition truncation_note : Utf16.text :=
  Utf16.units (Agent.nl +:+ Agent.nl +:+ "[Output truncated ") ++ [8212%N]
  ++ Utf16.units " exceeded 50KB limit]".

Definition truncationMsg (s : Capture) : Utf16.text :=
  if truncated s then truncation_note else [].

Definition on_close (code : option Z) (s : Capture) : ToolResult :=
  match code with
  | Some 0 =>
    Bash.succeeded
      (Js.or_string (Some (Utf16.encode (Utf16.trim (stdout s) ++ truncationMsg s)))
                    "No matches found.")
  | Some 1 => Bash.succeeded "No matches found."
  | _ =>
    failure ("Ripgrep failed (code " +:+ Text.code_text code +:+ "): "
             +:+ Utf16.encode (Utf16.trim (stderr s)))
  end.

Definition on_error (error : Thrown) : ToolResult :=
  failure ("Failed to run ripgrep: " +:+ Js.template (thrown_message error)
                +:+ ". Is 'rg' installed?").

Fixpoint listen (events : list ChildEvent) (s : Capture) : Capture * option ToolResult :=
  match events with
  | [] => (s, None)
  | stdout_data chunk :: rest => listen rest (on_stdout chunk s)
  | stderr_data chunk :: rest => listen rest (on_stderr chunk s)
  | close code :: _ => (s, Some (on_close code s))
  | error_event error :: _ => (s, Some (on_error error))
  end.


(** The whole of what the child wrote to a pipe before the promise was
    resolved. *)
Fixpoint written_stdout (events : list ChildEvent) : Utf16.text :=
  match events with
  | stdout_data chunk :: rest => chunk ++ written_stdout rest
  | stderr_data _ :: rest => written_stdout rest
  | _ => []
  end.

Fixpoint written_stderr (events : list ChildEvent) : Utf16.text :=
  match events with
  | stderr_data chunk :: rest => chunk ++ written_stderr rest
  | stdout_data _ :: rest => written_stderr rest
  | _ => []
  end.

Definition settles (e : ChildEvent) : bool :=
  match e with
  | close _ | error_event _ => true
  | _ => false
  end.

(** What the variables hold once the child has written [W] to its standard
    output. *)
Definition holds (W : Utf16.text) (s : Capture) : Prop :=
  stdout s = Utf16.substring_to MAX_OUTPUT_SIZE W
  /\ truncated s = (Utf16.length W >? MAX_OUTPUT_SIZE).

End Grep.

(** ** The log directory ([src/utils/logger.ts]): [pruneOldLogs] *)

Module LogFiles.
Import Data.

Definition MAX_AGE_DAYS : Z := 7.

Inductive FsEffect : Type :=
| EStat (full : string)
| EUnlink (full : string).

(** The file system and the clock. A call may depend on what was done
    before it. *)
Record FsEnv : Type := {
  LOG_DIR : string;
  path_join : string -> string -> string;
  readdirSync : string -> Thrown + list string;
  Date_now : Z;
  statSync : list FsEffect -> string -> Thrown + Q;          (* [mtimeMs] *)
  unlinkSync : list FsEffect -> string -> option Thrown
}.

Section WithEnv.
Variable E : FsEnv.

(** The [for] loop of [pruneOldLogs]. *)
Fixpoint prune (cutoff : Z) (files : list string) (w : list FsEffect) : list FsEffect :=
  match files with
  | [] => w
  | file :: rest =>
    if negb (Js.startsWith "grok-" file) || negb (Text.endsWith ".log" file) then
      prune cutoff rest w
    else
      let full := path_join E (LOG_DIR E) file in
      match statSync E w full with
      | inl _ => prune cutoff rest (w ++ [EStat full])
      | inr mtimeMs =>
        let w := w ++ [EStat full] in
        if Qlt_le_dec mtimeMs (inject_Z cutoff) then
          match unlinkSync E w full with
          | Some _ | None => prune cutoff rest (w ++ [EUnlink full])
          end
        else prune cutoff rest w
      end
  end.

Definition pruneOldLogs : list FsEffect :=
  match readdirSync E (LOG_DIR E) with
  | inl _ => []
  | inr files =>
    let cutoff := Date_now E - MAX_AGE_DAYS * 24 * 60 * 60 * 1000 in
    prune cutoff files []
  end.

End WithEnv.

(** A log directory with an old log, a log of today and a file of another
    kind. *)
Definition old_and_new : FsEnv :=
  {| LOG_DIR := "/home/u/.grok/logs";
     path_join := fun dir file => dir +:+ "/" +:+ file;
     readdirSync := fun _ => inr ["grok-2024-01-01.log"; "grok-2024-03-01.log"; "notes.txt"];
     Date_now := 1709290000000;
     statSync := fun _ full =>
       if String.eqb full "/home/u/.grok/logs/grok-2024-01-01.log"
       then inr (inject_Z 1704067200000)
       else inr (inject_Z 1709280000000);
     unlinkSync := fun _ _ => None |}.

End LogFiles.


(** * Properties *)

(** ** Error classifier *)

Module ClassifierFacts.
Import Classifier Scenarios.

Lemma status_is_true (status : option Z) (n : Z) :
  status_is status n = true <-> status = Some n.
Proof.
  destruct status as [s|]; simpl; [|split; discriminate].
  rewrite Z.eqb_eq. split; congruence.
Qed.

Lemma status_is_other (s n : Z) : s <> n -> status_is (Some s) n = false.
Proof. intros H. simpl. now apply Z.eqb_neq. Qed.

(** A timeout or network signature decides the class before the status is
    looked at, and both classes are retryable. *)
Lemma classifyError_signature (error : RawError) :
  timeout_signature error || network_signature error = true ->
  info_retryable (classifyError error) = true /\ info_status (classifyError error) = None.
Proof.
  unfold classifyError. intros H.
  destruct (timeout_signature error); [now split|].
  simpl in H. rewrite H. now split.
Qed.

(** C7, as stated, fails: a raw error carrying status 400 whose message
    contains the word timeout is classified [timeout], retryable. *)
Lemma classifyError_400_timeout_retryable :
  error_status bad_request_about_timeout = Some 400
  /\ info_code (classifyError bad_request_about_timeout) = "timeout"
  /\ info_retryable (classifyError bad_request_about_timeout) = true.
Proof. repeat split; reflexivity. Qed.

(** C7, amended: a raw error carrying status 429 or a status in [500,600) is
    retryable; its code is [rate_limit], respectively [server], unless it
    matches the timeout or network signature, which is looked at first. A raw
    error carrying a status in {400, 401, 403, 404} that matches neither
    signature is not retryable, with code [bad_request], [auth], [auth],
    [not_found]. *)
Theorem classifyError_by_status (error : RawError) (s : Z) :
  error_status error = Some s ->
  (s = 429 \/ 500 <= s < 600 -> info_retryable (classifyError error) = true)
  /\ (timeout_signature error = false -> network_signature error = false ->
      (s = 429 -> info_code (classifyError error) = "rate_limit")
      /\ (500 <= s < 600 -> info_code (classifyError error) = "server")
      /\ (s = 400 -> info_retryable (classifyError error) = false
                     /\ info_code (classifyError error) = "bad_request")
      /\ (s = 401 \/ s = 403 -> info_retryable (classifyError error) = false
                                /\ info_code (classifyError error) = "auth")
      /\ (s = 404 -> info_retryable (classifyError error) = false
                     /\ info_code (classifyError error) = "not_found")).
Proof.
  intros Hs. unfold classifyError. rewrite Hs. split.
  - intros Hr.
    destruct (timeout_signature error); [reflexivity|].
    destruct (network_signature error); [reflexivity|].
    destruct Hr as [-> | Hr]; [reflexivity|].
    rewrite !status_is_other by lia.
    replace (500 <=? s) with true by (symmetry; apply Z.leb_le; lia).
    reflexivity.
  - intros -> ->.
    split; [intros ->; reflexivity|].
    split.
    { intros Hr. rewrite !status_is_other by lia.
      replace (500 <=? s) with true by (symmetry; apply Z.leb_le; lia).
      reflexivity. }
    split; [intros ->; split; reflexivity|].
    split; [intros [-> | ->]; split; reflexivity|].
    intros ->; split; reflexivity.
Qed.

Lemma classifyError_by_status_witness :
  info_retryable (classifyError (http_error 503 "Service Unavailable")) = true
  /\ info_code (classifyError (http_error 503 "Service Unavailable")) = "server"
  /\ info_retryable (classifyError (http_error 404 "model not found")) = false.
Proof.
  split; [|split].
  - apply (classifyError_by_status (http_error 503 "Service Unavailable") 503);
      [reflexivity | right; lia].
  - apply (classifyError_by_status (http_error 503 "Service Unavailable") 503);
      [reflexivity | reflexivity | reflexivity | lia].
  - apply (classifyError_by_status (http_error 404 "model not found") 404);
      reflexivity.
Defined.

End ClassifierFacts.

(** ** Tool dispatcher *)

Module DispatcherFacts.
Import Json Classifier Data Client Agent Traces Scenarios.

Section WithEnv.
Variable E : Env.

(** A [try] whose handler returns never throws. *)
Lemma try_catch_returns {A : Type} (body : (Thrown + A) * World)
    (handler : Thrown -> World -> (Thrown + A) * World) :
  (forall t w, exists r w', handler t w = (inr r, w')) ->
  exists r w', try_catch body handler = (inr r, w').
Proof.
  intros Hh. destruct body as [[t|x] w]; simpl; [apply Hh | eauto].
Qed.

Lemma executeMCPTool_returns (toolCall : GrokToolCall) (w : World) :
  exists r w', executeMCPTool E toolCall w = (inr r, w').
Proof. apply try_catch_returns. intros t w0. eauto. Qed.

Lemma executeTool_returns (a : GrokAgent) (toolCall : GrokToolCall) (w : World) :
  exists r w', executeTool E a toolCall w = (inr r, w').
Proof. apply try_catch_returns. intros t w0. unfold executeTool_catch. eauto. Qed.

Lemma eqb_not_in (name : string) (b : string) (l : list string) :
  ~ In name (b :: l) -> String.eqb name b = false /\ ~ In name l.
Proof.
  intros H. split.
  - apply String.eqb_neq. intros ->. apply H. now left.
  - intros Hi. apply H. now right.
Qed.

(** The [default] case, for a name without the remote-tool marker. *)
Lemma dispatch_unknown (a : GrokAgent) (toolCall : GrokToolCall) (args : JSONValue)
    (w : World) :
  ~ In (tc_name toolCall) builtin_names ->
  Js.startsWith "mcp__" (tc_name toolCall) = false ->
  dispatch E a toolCall args w =
  (inr {| success := false; output := None;
          error := Some ("Unknown tool: " +:+ tc_name toolCall) |}, w).
Proof.
  intros Hn Hp. unfold dispatch, builtin_names in *.
  repeat (apply eqb_not_in in Hn; destruct Hn as [-> Hn]).
  now rewrite Hp.
Qed.

End WithEnv.

(** C6, as stated, fails: an unknown tool name with malformed arguments
    yields the argument-parse failure, not the unknown-tool result. *)
Lemma executeTool_unknown_name_bad_arguments :
  ~ In (tc_name unknown_with_bad_arguments) builtin_names
  /\ Js.startsWith "mcp__" (tc_name unknown_with_bad_arguments) = false
  /\ fst (executeTool backend_down agent0 unknown_with_bad_arguments [])
     = inr {| success := false; output := None;
              error := Some "Tool execution error: Unexpected token in JSON" |}
  /\ fst (executeTool backend_down agent0 unknown_with_bad_arguments [])
     <> inr {| success := false; output := None;
               error := Some "Unknown tool: frobnicate" |}.
Proof.
  split; [|split; [reflexivity|split; [reflexivity|]]].
  - unfold builtin_names. simpl. intros H.
    repeat (destruct H as [H|H]; [discriminate H|]). exact H.
  - vm_compute. discriminate.
Qed.

(** C6, amended: [executeTool] returns a [ToolResult] and never throws.
    Arguments that are not JSON, and any value thrown inside the [try]
    (by a collaborator, or by a property read on [null]), give
    [{success:false, error:"Tool execution error: <message>"}] after the
    failure is logged. When the arguments parse, a name that is neither a
    built-in nor prefixed with [mcp__] gives
    [{success:false, error:"Unknown tool: <name>"}] and nothing else happens. *)
Theorem executeTool_never_throws (E : Env) (a : GrokAgent) (toolCall : GrokToolCall)
    (w : World) :
  (exists r w', executeTool E a toolCall w = (inr r, w'))
  /\ (Json.parse (tc_arguments toolCall) = None ->
      executeTool E a toolCall w =
      (inr {| success := false; output := None;
              error := Some ("Tool execution error: "
                             +:+ Js.template (thrown_message SyntaxError)) |},
       w ++ [ELog (ERROR ("executeTool(" +:+ tc_name toolCall +:+ ") failed")
                         SyntaxError)]))
  /\ (forall t w1,
      executeTool_try E a toolCall w = (inl t, w1) ->
      executeTool E a toolCall w =
      (inr {| success := false; output := None;
              error := Some ("Tool execution error: "
                             +:+ Js.template (thrown_message t)) |},
       w1 ++ [ELog (ERROR ("executeTool(" +:+ tc_name toolCall +:+ ") failed") t)]))
  /\ (forall args,
      Json.parse (tc_arguments toolCall) = Some args ->
      ~ In (tc_name toolCall) builtin_names ->
      Js.startsWith "mcp__" (tc_name toolCall) = false ->
      executeTool E a toolCall w =
      (inr {| success := false; output := None;
              error := Some ("Unknown tool: " +:+ tc_name toolCall) |}, w)).
Proof.
  split; [apply executeTool_returns|].
  split; [|split].
  - intros Hp. unfold executeTool, executeTool_try, JSON_parse. now rewrite Hp.
  - intros t w1 Ht. unfold executeTool. now rewrite Ht.
  - intros args Hp Hn Hm. unfold executeTool, executeTool_try, JSON_parse.
    rewrite Hp. now rewrite dispatch_unknown.
Qed.

Lemma executeTool_never_throws_witness :
  executeTool backend_down agent0 unknown_tool []
  = (inr {| success := false; output := None;
            error := Some "Unknown tool: frobnicate" |}, [])
  /\ fst (executeTool tools_broken agent0 bash_ls [])
     = inr {| success := false; output := None;
              error := Some "Tool execution error: spawn ENOENT" |}.
Proof.
  split.
  - apply (executeTool_never_throws backend_down agent0 unknown_tool [])
      with (args := JObject []).
    + reflexivity.
    + unfold builtin_names. simpl. intros H.
      repeat (destruct H as [H|H]; [discriminate H|]). exact H.
    + reflexivity.
  - destruct (executeTool_never_throws tools_broken agent0 bash_ls [])
      as (_ & _ & H & _).
    rewrite (H (Raw (js_error "Error" "spawn ENOENT"))
               [ECollab (Bash_execute (Some (JString "ls")) None)]);
      reflexivity.
Defined.

End DispatcherFacts.

(** ** The array returned by [getChatHistory] *)

Module ArraysFacts.
Import Arrays.






End ArraysFacts.

(** ** Model transport *)

Module TransportFacts.
Import Json Classifier Data Client Traces Scenarios.

Lemma count_app (p : Effect -> bool) (w l : World) :
  count p (w ++ l) = (count p w + count p l)%nat.
Proof. unfold count. now rewrite List.filter_app, List.length_app. Qed.

Lemma count_emit (p : Effect -> bool) (e : Effect) (w : World) :
  count p (emit e w) = (count p w + if p e then 1 else 0)%nat.
Proof. unfold emit. rewrite count_app. unfold count. simpl. now destruct (p e). Qed.

Lemma count_info (p : Effect -> bool) (E : Env) (msg : string) :
  (forall line, p (ELog line) = false) -> count p (Logger.info E msg) = 0%nat.
Proof.
  intros Hp. unfold Logger.info, Logger.appendLine, count.
  destruct (debug E); simpl; [now rewrite Hp | reflexivity].
Qed.

Lemma filter_info (p : Effect -> bool) (E : Env) (msg : string) :
  (forall line, p (ELog line) = false) -> List.filter p (Logger.info E msg) = [].
Proof.
  intros Hp. unfold Logger.info, Logger.appendLine.
  destruct (debug E); simpl; [now rewrite Hp | reflexivity].
Qed.

Lemma script_effects_app (s1 s2 : list Action) :
  script_effects (s1 ++ s2) = script_effects s1 ++ script_effects s2.
Proof.
  induction s1 as [|[e|chunk] s1 IH]; simpl; [reflexivity | now rewrite IH | exact IH].
Qed.

Lemma script_effects_Act (l : list Effect) : script_effects (List.map Act l) = l.
Proof. induction l as [|e l IH]; simpl; [reflexivity | now rewrite IH]. Qed.

Lemma script_effects_chunks (chunks : list SdkChunk) :
  script_effects (concat (List.map convert_chunk chunks)) = [].
Proof.
  induction chunks as [|[text|id name input|type] chunks IH]; simpl; auto.
Qed.

(** What a run of [run_script] adds to the world is the effects of the script. *)
Lemma run_script_effects (script : list Action) (w : World) :
  snd (run_script script w) = w ++ script_effects script.
Proof.
  revert w. induction script as [|[e|chunk] script IH]; intros w; simpl.
  - now rewrite app_nil_r.
  - rewrite IH. unfold emit. now rewrite <- app_assoc.
  - specialize (IH w). destruct (run_script script w). exact IH.
Qed.

Section OneCall.
Variable E : Env.
Variables (c : GrokClient) (endpoint modelId : string) (messages : list GrokMessage).
Variables (tools : option (list GrokTool)) (searchOptions : option SearchOptions).

Let rq : SdkRequest := request c messages tools modelId searchOptions.

(** *** Only [GrokApiError] leaves the transport *)

Lemma chat_attempts_throws (remaining attempt : nat) (lastError : option RawError)
    (w : World) (t : Thrown) :
  fst (chat_attempts E remaining attempt lastError c endpoint modelId messages tools
                     searchOptions w) = inl t ->
  exists info, t = GrokApiError info.
Proof.
  revert attempt lastError w.
  induction remaining as [|remaining IH]; intros attempt lastError w; simpl.
  - intros [= <-]. eauto.
  - destruct (generateText E _ _) as [err|response]; simpl; [|discriminate].
    destruct (info_retryable (classifyError err) && (attempt <? MAX_RETRIES)%nat).
    + apply IH.
    + simpl. intros [= <-]. eauto.
Qed.

Lemma chatStream_attempts_throws (remaining attempt : nat) (lastError : option RawError)
    (n_sdk n_random : nat) (t : Thrown) :
  snd (chatStream_attempts E remaining attempt lastError c endpoint modelId messages
                           tools searchOptions n_sdk n_random) = Some t ->
  exists info, t = GrokApiError info.
Proof.
  revert attempt lastError n_sdk n_random.
  induction remaining as [|remaining IH]; intros attempt lastError n_sdk n_random; simpl.
  - intros [= <-]. eauto.
  - destruct (streamText E n_sdk _) as [chunks [err|]]; simpl; [|discriminate].
    destruct (info_retryable (classifyError err) && (attempt <? MAX_RETRIES)%nat).
    + specialize (IH (S attempt) (Some err) (S n_sdk) (S n_random)).
      destruct (chatStream_attempts E remaining _ _ _ _ _ _ _ _ _ _). exact IH.
    + simpl. intros [= <-]. eauto.
Qed.

(** *** A backend that always fails with a retryable error *)

Section AlwaysRetryable.
Hypothesis generate_fails :
  forall n r, exists err,
    generateText E n r = inl err /\ info_retryable (classifyError err) = true.
Hypothesis stream_fails :
  forall n r, exists err,
    snd (streamText E n r) = Some err /\ info_retryable (classifyError err) = true.

Lemma chat_attempts_exhausted (remaining attempt : nat) (lastError : option RawError)
    (w : World) :
  (0 < remaining)%nat ->
  (attempt + remaining = MAX_RETRIES + 1)%nat ->
  exists e_last new,
    chat_attempts E remaining attempt lastError c endpoint modelId messages tools
                  searchOptions w
    = (inl (GrokApiError (classifyError e_last)), w ++ new)
    /\ generateText E (count is_sdk_call w + remaining - 1) rq = inl e_last
    /\ List.filter is_attempt_or_sleep new
       = retry_schedule E (EGenerateText rq) remaining attempt (count is_random w).
Proof using generate_fails.
  revert attempt lastError w.
  induction remaining as [|remaining IH]; intros attempt lastError w Hpos Hsum; [lia|].
  cbn [chat_attempts].
  destruct (generate_fails (count is_sdk_call w) rq) as (err & Herr & Hretry).
  fold rq. rewrite Herr, Hretry. cbn [andb].
  destruct remaining as [|remaining].
  - replace (attempt <? MAX_RETRIES)%nat with false
      by (symmetry; apply Nat.ltb_ge; unfold MAX_RETRIES in *; lia).
    exists err. eexists. split; [|split].
    + unfold emit, Logger.logApiError, Logger.error, Logger.appendLine.
      rewrite <- !app_assoc. reflexivity.
    + rewrite <- Herr. f_equal. lia.
    + reflexivity.
  - replace (attempt <? MAX_RETRIES)%nat with true
      by (symmetry; apply Nat.ltb_lt; unfold MAX_RETRIES in *; lia).
    match goal with
    | |- context [chat_attempts E _ _ _ _ _ _ _ _ _ ?w'] => set (w1 := w')
    end.
    destruct (IH (S attempt) (Some err) w1) as (e_last & new & Hrun & Hlast & Hsched);
      [lia | lia |].
    assert (Hsdk : count is_sdk_call w1 = S (count is_sdk_call w)).
    { subst w1. unfold emit. rewrite !count_app, count_info by reflexivity.
      unfold count. simpl. lia. }
    assert (Hrnd : count is_random w1 = S (count is_random w)).
    { subst w1. unfold emit. rewrite !count_app, count_info by reflexivity.
      unfold count. simpl. lia. }
    exists e_last. eexists. split; [|split].
    + rewrite Hrun. subst w1.
      unfold emit, Logger.logApiError, Logger.error, Logger.appendLine.
      rewrite <- !app_assoc. reflexivity.
    + rewrite <- Hlast, Hsdk. f_equal. lia.
    + rewrite !List.filter_app, filter_info by reflexivity.
      rewrite Hsched, Hrnd. cbn [List.filter app]. unfold is_attempt_or_sleep. simpl.
      rewrite count_app. unfold count at 2. simpl. rewrite Nat.add_0_r.
      reflexivity.
Qed.

Lemma chatStream_attempts_exhausted (remaining attempt : nat)
    (lastError : option RawError) (n_sdk n_random : nat) :
  (0 < remaining)%nat ->
  (attempt + remaining = MAX_RETRIES + 1)%nat ->
  exists e_last script,
    chatStream_attempts E remaining attempt lastError c endpoint modelId messages tools
                        searchOptions n_sdk n_random
    = (script, Some (GrokApiError (classifyError e_last)))
    /\ snd (streamText E (n_sdk + remaining - 1) rq) = Some e_last
    /\ List.filter is_attempt_or_sleep (script_effects script)
       = retry_schedule E (EStreamText rq) remaining attempt n_random.
Proof using stream_fails.
  revert attempt lastError n_sdk n_random.
  induction remaining as [|remaining IH]; intros attempt lastError n_sdk n_random Hpos Hsum;
    [lia|].
  cbn [chatStream_attempts].
  destruct (stream_fails n_sdk rq) as (err & Herr & Hretry).
  fold rq. destruct (streamText E n_sdk rq) as [chunks failure] eqn:Hst.
  simpl in Herr. subst failure. rewrite Hretry. cbn [andb].
  destruct remaining as [|remaining].
  - replace (attempt <? MAX_RETRIES)%nat with false
      by (symmetry; apply Nat.ltb_ge; unfold MAX_RETRIES in *; lia).
    exists err. eexists. split; [reflexivity|]. split.
    + replace (n_sdk + 1 - 1)%nat with n_sdk by lia. now rewrite Hst.
    + rewrite script_effects_app, script_effects_Act. simpl.
      now rewrite script_effects_chunks.
  - replace (attempt <? MAX_RETRIES)%nat with true
      by (symmetry; apply Nat.ltb_lt; unfold MAX_RETRIES in *; lia).
    destruct (IH (S attempt) (Some err) (S n_sdk) (S n_random))
      as (e_last & script & Hrun & Hlast & Hsched); [lia | lia |].
    rewrite Hrun. exists e_last. eexists. split; [reflexivity|]. split.
    + rewrite <- Hlast. do 3 f_equal. lia.
    + rewrite !script_effects_app, script_effects_Act. simpl.
      rewrite script_effects_chunks, script_effects_app, script_effects_Act. simpl.
      rewrite !List.filter_app, filter_info by reflexivity.
      cbn [List.filter app]. unfold is_attempt_or_sleep at 1. simpl.
      rewrite Hsched. reflexivity.
Qed.

End AlwaysRetryable.

(** *** What a call logs *)

Lemma failures_logged_skip (ep what : string) (n : nat) (l1 l2 : list Effect) :
  Forall (fun e => is_sdk_call e = false) l1 ->
  failures_logged E ep what n l2 ->
  failures_logged E ep what n (l1 ++ l2).
Proof.
  intros Hl1 Hl2. induction Hl1 as [|e l1 He _ IH]; simpl; [exact Hl2|].
  now rewrite He.
Qed.

Lemma no_sdk_call_info (msg : string) :
  Forall (fun e => is_sdk_call e = false) (Logger.info E msg).
Proof. unfold Logger.info, Logger.appendLine. destruct (debug E); repeat constructor. Qed.

Lemma no_request_line_info (msg : string) :
  Forall (fun e => is_request_line e = false) (Logger.info E msg).
Proof. unfold Logger.info, Logger.appendLine. destruct (debug E); repeat constructor. Qed.

Lemma no_request_line_response (status : Z) (body : ResponseBody) :
  Forall (fun e => is_request_line e = false) (Logger.logApiResponse E status body).
Proof.
  unfold Logger.logApiResponse, Logger.appendLine. destruct (debug E); repeat constructor.
Qed.

Lemma chat_attempts_logging (remaining attempt : nat) (lastError : option RawError)
    (w : World) :
  exists new,
    snd (chat_attempts E remaining attempt lastError c endpoint modelId messages tools
                       searchOptions w) = w ++ new
    /\ (remaining <> O -> exists rest, new = EGenerateText rq :: rest)
    /\ Forall (fun e => is_request_line e = false) new
    /\ failures_logged E (endpoint +:+ "/chat (model=" +:+ modelId +:+ ")")
                       "GrokClient.chat failed" (count is_sdk_call w) new.
Proof.
  revert attempt lastError w.
  induction remaining as [|remaining IH]; intros attempt lastError w.
  - exists []. simpl. rewrite app_nil_r. repeat split; [congruence | constructor].
  - cbn [chat_attempts]. fold rq.
    destruct (generateText E (count is_sdk_call w) rq) as [err|response] eqn:Hgen.
    + destruct (info_retryable (classifyError err) && (attempt <? MAX_RETRIES)%nat).
      * match goal with
        | |- context [chat_attempts E _ _ _ _ _ _ _ _ _ ?w'] => set (w1 := w')
        end.
        destruct (IH (S attempt) (Some err) w1) as (new & Hrun & _ & Hreq & Hlog).
        assert (Hsdk : count is_sdk_call w1 = S (count is_sdk_call w)).
        { subst w1. unfold emit. rewrite !count_app, count_info by reflexivity.
          unfold count. simpl. lia. }
        rewrite Hrun. subst w1.
        unfold emit, Logger.logApiError, Logger.error, Logger.appendLine.
        rewrite <- !app_assoc. simpl. eexists. split; [reflexivity|].
        split; [eauto|]. split.
        -- repeat (constructor; [reflexivity|]).
           apply Forall_app. split; [apply no_request_line_info|].
           constructor; [reflexivity | exact Hreq].
        -- simpl. rewrite Hgen. split; [eauto|].
           rewrite Hsdk in Hlog.
           apply failures_logged_skip; [apply no_sdk_call_info|].
           exact Hlog.
      * unfold emit, Logger.logApiError, Logger.error, Logger.appendLine.
        simpl. rewrite <- !app_assoc. simpl. eexists. split; [reflexivity|].
        split; [eauto|]. split; [repeat constructor|].
        simpl. rewrite Hgen. split; [eauto | exact I].
    + simpl. unfold emit. rewrite <- app_assoc. simpl. eexists. split; [reflexivity|].
      split; [eauto|]. split.
      * constructor; [reflexivity | apply no_request_line_response].
      * simpl. rewrite Hgen.
        rewrite <- (app_nil_r (Logger.logApiResponse _ _ _)).
        apply failures_logged_skip; [|exact I].
        unfold Logger.logApiResponse, Logger.appendLine.
        destruct (debug E); repeat constructor.
Qed.

Lemma chatStream_attempts_logging (remaining attempt : nat) (lastError : option RawError)
    (n_sdk n_random : nat) :
  let script :=
    fst (chatStream_attempts E remaining attempt lastError c endpoint modelId messages
                             tools searchOptions n_sdk n_random) in
  (remaining <> O -> exists rest, script_effects script = EStreamText rq :: rest)
  /\ Forall (fun e => is_request_line e = false) (script_effects script)
  /\ failures_logged E (endpoint +:+ "/chat/stream (model=" +:+ modelId +:+ ")")
                     "GrokClient.chatStream failed" n_sdk (script_effects script).
Proof.
  revert attempt lastError n_sdk n_random.
  induction remaining as [|remaining IH]; intros attempt lastError n_sdk n_random.
  - simpl. repeat split; [congruence | constructor].
  - cbn [chatStream_attempts]. fold rq.
    destruct (streamText E n_sdk rq) as [chunks [err|]] eqn:Hst.
    + destruct (info_retryable (classifyError err) && (attempt <? MAX_RETRIES)%nat).
      * specialize (IH (S attempt) (Some err) (S n_sdk) (S n_random)).
        destruct (chatStream_attempts E remaining _ _ _ _ _ _ _ _ _ _) as [rest outcome].
        simpl in IH. destruct IH as (_ & Hreq & Hlog).
        cbn [fst]. rewrite !script_effects_app, script_effects_Act. simpl.
        rewrite script_effects_chunks, script_effects_app, script_effects_Act. simpl.
        split; [eauto|]. split.
        -- repeat (constructor; [reflexivity|]).
           apply Forall_app. split; [apply no_request_line_info|].
           constructor; [reflexivity | exact Hreq].
        -- rewrite Hst. simpl. split; [eauto|].
           apply failures_logged_skip; [apply no_sdk_call_info|].
           exact Hlog.
      * cbn [fst]. rewrite !script_effects_app, script_effects_Act. simpl.
        rewrite script_effects_chunks. simpl.
        split; [eauto|]. split; [repeat constructor|].
        rewrite Hst. simpl. split; [eauto | exact I].
    + cbn [fst]. rewrite script_effects_app, script_effects_Act. simpl.
      rewrite script_effects_chunks. simpl.
      split; [eauto|]. split.
      * constructor; [reflexivity | apply no_request_line_response].
      * rewrite Hst. simpl.
        rewrite <- (app_nil_r (Logger.logApiResponse _ _ _)).
        apply failures_logged_skip; [|exact I].
        unfold Logger.logApiResponse, Logger.appendLine.
        destruct (debug E); repeat constructor.
Qed.

End OneCall.

Lemma filter_attempts_request_line (E : Env) (method endpoint : string) (n : nat)
    (hasTools : bool) :
  List.filter is_attempt_or_sleep (Logger.logApiRequest E method endpoint n hasTools) = [].
Proof. unfold Logger.logApiRequest. now destruct (debug E). Qed.

Lemma count_logApiRequest (p : Effect -> bool) (E : Env) (method endpoint : string)
    (n : nat) (hasTools : bool) :
  (forall line, p (ELog line) = false) ->
  count p (Logger.logApiRequest E method endpoint n hasTools) = 0%nat.
Proof.
  intros Hp. unfold Logger.logApiRequest, Logger.appendLine, count.
  destruct (debug E); simpl; [now rewrite Hp | reflexivity].
Qed.

Lemma sdk_calls_of_attempts (l : list Effect) :
  count is_sdk_call l = count is_sdk_call (List.filter is_attempt_or_sleep l).
Proof.
  unfold count. induction l as [|e l IH]; simpl; [reflexivity|].
  destruct e; simpl; auto.
Qed.

Lemma jitter_bounds (r : Q) :
  (0 <= r /\ r < 1)%Q -> (0 <= r * 500 /\ r * 500 < 500)%Q.
Proof. intros [H0 H1]. split; lra. Qed.

(** C2: against a backend that always fails with an error classified as
    retryable, [chat] and [chatStream] issue exactly [MAX_RETRIES + 1 = 4]
    requests, sleep [BASE_DELAY_MS * 2 ^ attempt] plus a jitter between two
    attempts, and then raise the [GrokApiError] built from the
    classification of the error of the fourth attempt. The jitter of a
    sleep is 500 times the number that [Math.random] returns for it, the
    next number drawn since the call began, and so lies in [0,500). (That
    the jitter is uniformly distributed is not expressed: [Math.random] is
    an oracle with values in [0,1).) *)
Theorem retries_exhausted (E : Env) (c : GrokClient) (messages : list GrokMessage)
    (tools : option (list GrokTool)) (model : option string)
    (searchOptions : option SearchOptions) (w : World) :
  (forall n r, exists err,
      generateText E n r = inl err /\ info_retryable (classifyError err) = true) ->
  (forall n r, exists err,
      snd (streamText E n r) = Some err /\ info_retryable (classifyError err) = true) ->
  (forall n, (0 <= Math_random E n /\ Math_random E n < 1)%Q) ->
  let rq := request c messages tools (Js.or_string model (currentModel c)) searchOptions in
  let delay (attempt : Z) (jitter : Q) :=
    (inject_Z (BASE_DELAY_MS * 2 ^ attempt) + jitter)%Q in
  let jitter (i : nat) := (Math_random E (i + count is_random w) * 500)%Q in
  (exists e_last new,
      chat E c messages tools model searchOptions w
      = (inl (GrokApiError (classifyError e_last)), w ++ new)
      /\ generateText E (count is_sdk_call w + 3) rq = inl e_last
      /\ count is_sdk_call new = (MAX_RETRIES + 1)%nat
      /\ List.filter is_attempt_or_sleep new
         = [EGenerateText rq; ESleep (delay 0 (jitter 0%nat));
            EGenerateText rq; ESleep (delay 1 (jitter 1%nat));
            EGenerateText rq; ESleep (delay 2 (jitter 2%nat));
            EGenerateText rq])
  /\ (exists e_last script,
      chatStream E c messages tools model searchOptions w
      = (script, Some (GrokApiError (classifyError e_last)))
      /\ snd (streamText E (count is_sdk_call w + 3) rq) = Some e_last
      /\ count is_sdk_call (script_effects script) = (MAX_RETRIES + 1)%nat
      /\ List.filter is_attempt_or_sleep (script_effects script)
         = [EStreamText rq; ESleep (delay 0 (jitter 0%nat));
            EStreamText rq; ESleep (delay 1 (jitter 1%nat));
            EStreamText rq; ESleep (delay 2 (jitter 2%nat));
            EStreamText rq])
  /\ (forall i, (0 <= jitter i /\ jitter i < 500)%Q).
Proof.
  intros Hgen Hstream Hrandom rq delay jitter. split; [|split].
  - unfold chat.
    match goal with
    | |- context [chat_attempts E _ _ _ _ _ _ _ _ _ ?w'] => set (w0 := w')
    end.
    destruct (chat_attempts_exhausted E c
                (Js.or_string (baseURL c) "https://api.x.ai/v1")
                (Js.or_string model (currentModel c)) messages tools searchOptions
                Hgen (MAX_RETRIES + 1) 0 None w0)
      as (e_last & new & Hrun & Hlast & Hsched);
      [unfold MAX_RETRIES; lia | reflexivity |].
    assert (Hsdk : count is_sdk_call w0 = count is_sdk_call w).
    { subst w0. rewrite count_app, count_logApiRequest by reflexivity. lia. }
    assert (Hdraws : count is_random w0 = count is_random w).
    { subst w0. rewrite count_app, count_logApiRequest by reflexivity. lia. }
    rewrite Hdraws in Hsched.
    assert (Hrnd : List.filter is_attempt_or_sleep
                     (Logger.logApiRequest E "POST"
                        (Js.or_string (baseURL c) "https://api.x.ai/v1"
                         +:+ "/chat (model=" +:+ Js.or_string model (currentModel c)
                         +:+ ")")
                        (List.length messages) (has_length tools) ++ new)
                   = retry_schedule E (EGenerateText rq) 4 0 (count is_random w)).
    { rewrite List.filter_app, filter_attempts_request_line. exact Hsched. }
    exists e_last. eexists. split; [|split; [|split]].
    + rewrite Hrun. subst w0. rewrite <- app_assoc. reflexivity.
    + rewrite <- Hlast, Hsdk. f_equal. unfold MAX_RETRIES. lia.
    + rewrite sdk_calls_of_attempts, Hrnd. reflexivity.
    + rewrite Hrnd. reflexivity.
  - unfold chatStream.
    destruct (chatStream_attempts_exhausted E c
                (Js.or_string (baseURL c) "https://api.x.ai/v1")
                (Js.or_string model (currentModel c)) messages tools searchOptions
                Hstream (MAX_RETRIES + 1) 0 None (count is_sdk_call w)
                (count is_random w))
      as (e_last & script & Hrun & Hlast & Hsched);
      [unfold MAX_RETRIES; lia | reflexivity |].
    rewrite Hrun.
    exists e_last. eexists. split; [reflexivity|].
    assert (Hrnd : List.filter is_attempt_or_sleep
                     (script_effects
                        (List.map Act
                           (Logger.logApiRequest E "POST"
                              (Js.or_string (baseURL c) "https://api.x.ai/v1"
                               +:+ "/chat/stream (model="
                               +:+ Js.or_string model (currentModel c) +:+ ")")
                              (List.length messages) (has_length tools)) ++ script))
                   = retry_schedule E (EStreamText rq) 4 0 (count is_random w)).
    { rewrite script_effects_app, script_effects_Act, List.filter_app,
        filter_attempts_request_line. exact Hsched. }
    split; [|split].
    + rewrite <- Hlast. do 3 f_equal. unfold MAX_RETRIES. lia.
    + rewrite sdk_calls_of_attempts, Hrnd. reflexivity.
    + rewrite Hrnd. reflexivity.
  - intros i. apply jitter_bounds, Hrandom.
Qed.

Lemma retries_exhausted_witness :
  fst (chat backend_down client0 hi None None None [])
  = inl (GrokApiError (classifyError unavailable))
  /\ snd (chatStream backend_down client0 hi None None None [])
     = Some (GrokApiError (classifyError unavailable))
  /\ List.filter is_attempt_or_sleep (snd (chat backend_down client0 hi None None None []))
     = [EGenerateText (request client0 hi None (Js.or_string None (currentModel client0)) None);
        ESleep (inject_Z (BASE_DELAY_MS * 2 ^ 0) + (1 # 2) * 500)%Q;
        EGenerateText (request client0 hi None (Js.or_string None (currentModel client0)) None);
        ESleep (inject_Z (BASE_DELAY_MS * 2 ^ 1) + (1 # 2) * 500)%Q;
        EGenerateText (request client0 hi None (Js.or_string None (currentModel client0)) None);
        ESleep (inject_Z (BASE_DELAY_MS * 2 ^ 2) + (1 # 2) * 500)%Q;
        EGenerateText (request client0 hi None (Js.or_string None (currentModel client0)) None)].
Proof.
  assert (H1 : forall n r, exists err,
               generateText backend_down n r = inl err
               /\ info_retryable (classifyError err) = true).
  { intros n r. exists unavailable. split; reflexivity. }
  assert (H2 : forall n r, exists err,
               snd (streamText backend_down n r) = Some err
               /\ info_retryable (classifyError err) = true).
  { intros n r. exists unavailable. split; reflexivity. }
  assert (H3 : forall n, (0 <= Math_random backend_down n
                          /\ Math_random backend_down n < 1)%Q).
  { intros n. simpl. split; reflexivity || discriminate. }
  destruct (retries_exhausted backend_down client0 hi None None None [] H1 H2 H3)
    as [(e & new & Hrun & Hlast & _ & Hsched) [(e' & script & Hrun' & Hlast' & _) _]].
  split; [|split].
  - rewrite Hrun. simpl. injection Hlast as <-. reflexivity.
  - rewrite Hrun'. simpl. injection Hlast' as <-. reflexivity.
  - rewrite Hrun. exact Hsched.
Defined.

(** What [chat] and [chatStream] throw is a [GrokApiError]. *)
Lemma chat_throws_GrokApiError (E : Env) (c : GrokClient) (messages : list GrokMessage)
    (tools : option (list GrokTool)) (model : option string)
    (searchOptions : option SearchOptions) (w : World) (t : Thrown) :
  fst (chat E c messages tools model searchOptions w) = inl t ->
  exists info, t = GrokApiError info.
Proof. unfold chat. apply chat_attempts_throws. Qed.

Lemma chatStream_throws_GrokApiError (E : Env) (c : GrokClient)
    (messages : list GrokMessage) (tools : option (list GrokTool))
    (model : option string) (searchOptions : option SearchOptions) (w : World)
    (t : Thrown) :
  snd (chatStream E c messages tools model searchOptions w) = Some t ->
  exists info, t = GrokApiError info.
Proof.
  unfold chatStream.
  pose proof (chatStream_attempts_throws E c
                (Js.or_string (baseURL c) "https://api.x.ai/v1")
                (Js.or_string model (currentModel c)) messages tools searchOptions
                (MAX_RETRIES + 1) 0 None (count is_sdk_call w) (count is_random w) t) as H.
  destruct (chatStream_attempts E _ _ _ _ _ _ _ _ _ _ _). exact H.
Qed.

(** C9, as stated, fails: with debug logging on, a call whose first attempt
    fails and whose second succeeds issues two requests and logs one
    [API_REQUEST] line, before the first; without debug logging, a call that
    makes four attempts logs none. *)
Lemma chat_logs_request_once :
  List.filter (fun e => is_request_line e || is_sdk_call e)
              (snd (chat flaky client0 hi None None None []))
  = [ELog (API_REQUEST "POST" "https://api.x.ai/v1/chat (model=grok-code-fast-1)"
                       1 false);
     EGenerateText (request client0 hi None "grok-code-fast-1" None);
     EGenerateText (request client0 hi None "grok-code-fast-1" None)]
  /\ List.filter (fun e => is_request_line e || is_sdk_call e)
                 (snd (chat backend_down client0 hi None None None []))
     = [EGenerateText (request client0 hi None "grok-code-fast-1" None);
        EGenerateText (request client0 hi None "grok-code-fast-1" None);
        EGenerateText (request client0 hi None "grok-code-fast-1" None);
        EGenerateText (request client0 hi None "grok-code-fast-1" None)].
Proof. split; reflexivity. Qed.

(** C9, amended: a transport call ([chat] or [chatStream]) logs the outgoing
    call (method, endpoint with the model, message count) once, before its
    first attempt, and only when debug logging is on; the further attempts of
    the call log no request line. Every failed attempt logs, whatever the
    debug setting and before the retry-or-raise decision, an [API_ERROR] line
    with the status of the classification (its code when it has no status)
    and the message of the raw error. *)
Theorem transport_logging (E : Env) (c : GrokClient) (messages : list GrokMessage)
    (tools : option (list GrokTool)) (model : option string)
    (searchOptions : option SearchOptions) (w : World) :
  let modelId := Js.or_string model (currentModel c) in
  let endpoint := Js.or_string (baseURL c) "https://api.x.ai/v1" in
  let rq := request c messages tools modelId searchOptions in
  let request_line (path : string) :=
    API_REQUEST "POST" (endpoint +:+ path +:+ modelId +:+ ")")
                (List.length messages) (has_length tools) in
  (exists rest,
      snd (chat E c messages tools model searchOptions w)
      = w ++ (if debug E then [ELog (request_line "/chat (model=")] else [])
          ++ EGenerateText rq :: rest
      /\ Forall (fun e => is_request_line e = false) rest
      /\ failures_logged E (endpoint +:+ "/chat (model=" +:+ modelId +:+ ")")
                         "GrokClient.chat failed" (count is_sdk_call w)
                         (EGenerateText rq :: rest))
  /\ (exists rest,
      script_effects (fst (chatStream E c messages tools model searchOptions w))
      = (if debug E then [ELog (request_line "/chat/stream (model=")] else [])
        ++ EStreamText rq :: rest
      /\ Forall (fun e => is_request_line e = false) rest
      /\ failures_logged E (endpoint +:+ "/chat/stream (model=" +:+ modelId +:+ ")")
                         "GrokClient.chatStream failed" (count is_sdk_call w)
                         (EStreamText rq :: rest)).
Proof.
  intros modelId endpoint rq request_line. split.
  - unfold chat. fold modelId endpoint.
    match goal with
    | |- context [chat_attempts E _ _ _ _ _ _ _ _ _ ?w'] => set (w0 := w')
    end.
    destruct (chat_attempts_logging E c endpoint modelId messages tools searchOptions
                (MAX_RETRIES + 1) 0 None w0)
      as (new & Hrun & Hfirst & Hreq & Hlog).
    destruct Hfirst as [rest ->]; [discriminate|].
    assert (Hsdk : count is_sdk_call w0 = count is_sdk_call w).
    { subst w0. rewrite count_app, count_logApiRequest by reflexivity. lia. }
    exists rest. rewrite Hrun. subst w0. split; [|split].
    + rewrite <- app_assoc. unfold Logger.logApiRequest, Logger.appendLine.
      destruct (debug E); reflexivity.
    + now inversion Hreq.
    + rewrite <- Hsdk. exact Hlog.
  - unfold chatStream. fold modelId endpoint.
    pose proof (chatStream_attempts_logging E c endpoint modelId messages tools
                  searchOptions (MAX_RETRIES + 1) 0 None (count is_sdk_call w)
                  (count is_random w)) as H.
    destruct (chatStream_attempts E _ _ _ _ _ _ _ _ _ _ _) as [script outcome].
    simpl in H. destruct H as (Hfirst & Hreq & Hlog).
    destruct Hfirst as [rest Hrest]; [discriminate|].
    exists rest. cbn [fst]. rewrite script_effects_app, script_effects_Act, Hrest.
    split; [|split].
    + unfold Logger.logApiRequest, Logger.appendLine. destruct (debug E); reflexivity.
    + rewrite Hrest in Hreq. now inversion Hreq.
    + rewrite Hrest in Hlog. exact Hlog.
Qed.

End TransportFacts.

(** ** Agent loop, buffered mode *)

Module BufferedFacts.
Import Json Classifier Data Client Agent Traces Scenarios.
Import TransportFacts DispatcherFacts.

Lemma same_config_refl (a : GrokAgent) : same_config a a.
Proof. now repeat split. Qed.

Lemma same_config_trans (a b c : GrokAgent) :
  same_config a b -> same_config b c -> same_config a c.
Proof. unfold same_config. intros (? & ? & ?) (? & ? & ?). repeat split; congruence. Qed.

Lemma extends_refl (a : GrokAgent) : extends a a.
Proof.
  split; [exists []; now rewrite app_nil_r|].
  split; [exists []; now rewrite app_nil_r|]. apply same_config_refl.
Qed.

Lemma extends_trans (a b c : GrokAgent) : extends a b -> extends b c -> extends a c.
Proof.
  intros ([m1 H1] & [e1 H1'] & Hc1) ([m2 H2] & [e2 H2'] & Hc2).
  split; [exists (m1 ++ m2); now rewrite H2, H1, app_assoc|].
  split; [exists (e1 ++ e2); now rewrite H2', H1', app_assoc|].
  eapply same_config_trans; eauto.
Qed.

Lemma extends_push_message (m : GrokMessage) (a : GrokAgent) :
  extends a (push_message m a).
Proof.
  split; [exists [m]; reflexivity|].
  split; [exists []; simpl; now rewrite app_nil_r|]. now repeat split.
Qed.

Lemma extends_push_entry (e : ChatEntry) (a : GrokAgent) : extends a (push_entry e a).
Proof.
  split; [exists []; simpl; now rewrite app_nil_r|].
  split; [exists [e]; reflexivity|]. now repeat split.
Qed.

Lemma extends_set_abortController (b : bool) (a : GrokAgent) :
  extends a (set_abortController b a).
Proof.
  split; [exists []; simpl; now rewrite app_nil_r|].
  split; [exists []; simpl; now rewrite app_nil_r|]. now repeat split.
Qed.

Section WithEnv.
Variable E : Env.

(** The loop over the tool calls runs them in order, each in the world the
    previous one left, and appends one result message and one entry per
    call; it never throws. *)
Lemma run_tools_appends (tcs : list GrokToolCall) (a : GrokAgent) (w : World) :
  exists results a' w',
    run_tools E tcs a w = (Normal, a', w')
    /\ List.length results = List.length tcs
    /\ messages a' = messages a ++ tool_messages tcs results
    /\ chatHistory a' = chatHistory a ++ tool_entries tcs results
    /\ abortController a' = abortController a
    /\ same_config a a'.
Proof.
  revert a w. induction tcs as [|tc tcs IH]; intros a w.
  - exists [], a, w. simpl. rewrite !app_nil_r. repeat split.
  - cbn [run_tools].
    destruct (executeTool_returns E a tc w) as (r & w1 & Hr). rewrite Hr.
    destruct (IH (push_message (buildToolResultMessage tc r)
                               (push_entry (tool_result_entry tc r) a)) w1)
      as (results & a' & w' & Hrun & Hlen & Hm & Hh & Hab & Hc).
    exists (r :: results), a', w'. rewrite Hrun. simpl in *.
    rewrite Hm, Hh, Hab, <- !app_assoc. simpl.
    repeat split; try congruence; apply Hc.
Qed.

(** Of the agent, the dispatcher reads only whether the Morph editor is
    configured. *)
Lemma executeTool_agent (a a' : GrokAgent) (tc : GrokToolCall) (w : World) :
  morphEditor a = morphEditor a' ->
  executeTool E a tc w = executeTool E a' tc w.
Proof.
  intros H. unfold executeTool, executeTool_try, dispatch. now rewrite H.
Qed.

(** When every call has arguments that parse, the parts are built. *)
Lemma tool_call_parts_two (A B : GrokToolCall) (iA iB : JSONValue) :
  Json.parse (tc_arguments A) = Some iA ->
  Json.parse (tc_arguments B) = Some iB ->
  tool_call_parts [A; B] = inr [tool_call_part A iA; tool_call_part B iB].
Proof. intros HA HB. simpl. unfold JSON_parse. now rewrite HA, HB. Qed.

(** A reply with two tool calls [A; B] whose arguments parse: the round
    appends the assistant message carrying the two tool-call parts, then
    the result of [A], then the result of [B]; [B] is dispatched in the
    world that the dispatch of [A] left. *)
Lemma round_two_tool_calls (toolRounds : Z) (currentResponse : option GrokResponse)
    (message : string) (tools : list GrokTool) (a : GrokAgent) (w w1 : World)
    (response : GrokResponse) (choice : Choice) (others : list Choice)
    (A B : GrokToolCall) (iA iB : JSONValue) :
  chat E (grokClient a) (messages a) (Some tools) None (getSearchOptions a message) w
  = (inr response, w1) ->
  choices response = choice :: others ->
  rm_tool_calls (choice_message choice) = Some [A; B] ->
  Json.parse (tc_arguments A) = Some iA ->
  Json.parse (tc_arguments B) = Some iB ->
  exists rA rB wA wB a',
    round E toolRounds currentResponse message tools a w
    = (Normal, (toolRounds + 1, Some response), a', wB)
    /\ executeTool E a A w1 = (inr rA, wA)
    /\ executeTool E a B wA = (inr rB, wB)
    /\ messages a'
       = messages a
         ++ [{| role := "assistant";
                content :=
                  Parts (match nonempty (rm_content (choice_message choice)) with
                         | Some c => [TextPart c]
                         | None => []
                         end
                         ++ [tool_call_part A iA; tool_call_part B iB]) |};
             buildToolResultMessage A rA;
             buildToolResultMessage B rB].
Proof.
  intros Hchat Hchoices Htcs HA HB.
  unfold round. rewrite Hchat, Hchoices, Htcs.
  unfold buildAssistantMessage. cbn [has_length negb default id].
  rewrite (tool_call_parts_two A B iA iB HA HB).
  cbn [run_tools].
  set (a1 := push_entry _ (push_message _ a)).
  rewrite (executeTool_agent a1 a) by reflexivity.
  destruct (executeTool_returns E a A w1) as (rA & wA & HrA). rewrite HrA.
  set (a2 := push_message _ (push_entry _ a1)).
  rewrite (executeTool_agent a2 a) by reflexivity.
  destruct (executeTool_returns E a B wA) as (rB & wB & HrB). rewrite HrB.
  exists rA, rB, wA, wB. eexists. split; [reflexivity|].
  split; [first [reflexivity | exact HrA]|].
  split; [first [reflexivity | exact HrB]|].
  simpl. rewrite <- !app_assoc. reflexivity.
Qed.

Lemma run_tools_extends (tcs : list GrokToolCall) (a : GrokAgent) (w : World) :
  extends a (snd (fst (run_tools E tcs a w))).
Proof.
  destruct (run_tools_appends tcs a w) as (results & a' & w' & Hrun & _ & Hm & Hh & _ & Hc).
  rewrite Hrun. simpl. split; [eauto|]. split; [eauto|]. exact Hc.
Qed.

(** One round only appends to the history. *)
Lemma round_extends (toolRounds : Z) (currentResponse : option GrokResponse)
    (message : string) (tools : list GrokTool) (a : GrokAgent) (w : World) :
  extends a (snd (fst (round E toolRounds currentResponse message tools a w))).
Proof.
  unfold round.
  destruct (chat E _ _ _ _ _ w) as [[t|response] w1]; [apply extends_refl|].
  destruct (choices response) as [|choice others]; [apply extends_refl|].
  destruct (buildAssistantMessage _ _) as [t|m]; [apply extends_refl|].
  set (a1 := push_entry _ (push_message m a)).
  assert (H1 : extends a a1).
  { eapply extends_trans; [apply extends_push_message | apply extends_push_entry]. }
  destruct (has_length _); [|exact H1].
  pose proof (run_tools_extends (default [] (rm_tool_calls (choice_message choice))) a1 w1)
    as H2.
  destruct (run_tools E _ a1 w1) as [[c a2] w2]. simpl in *.
  eapply extends_trans; eauto.
Qed.

Lemma rounds_extends (remaining : nat) (toolRounds : Z)
    (currentResponse : option GrokResponse) (message : string) (tools : list GrokTool)
    (a : GrokAgent) (w : World) :
  extends a (snd (fst (rounds E remaining toolRounds currentResponse message tools a w))).
Proof.
  revert toolRounds currentResponse a w.
  induction remaining as [|remaining IH]; intros toolRounds currentResponse a w;
    [apply extends_refl|].
  cbn [rounds].
  pose proof (round_extends toolRounds currentResponse message tools a w) as H1.
  destruct (round E toolRounds currentResponse message tools a w)
    as [[[c [tr cr]] a1] w1].
  simpl in H1. destruct c; simpl; try exact H1.
  eapply extends_trans; [exact H1 | apply IH].
Qed.

(** [processUserMessage] appends the user message, then only appends. *)
Lemma processUserMessage_extends (message : string) (a : GrokAgent) (w : World) :
  extends (push_message {| role := "user"; content := Text message |} a)
          (snd (fst (processUserMessage E message a w))).
Proof.
  unfold processUserMessage.
  set (a0 := push_message _ a).
  pose proof (rounds_extends (Z.to_nat (maxToolRounds a0)) 0 None message
                (getAllGrokTools E (count is_sdk_call w)) a0 w) as H.
  destruct (rounds E _ _ _ _ _ a0 w) as [[[c [tr cr]] a1] w1]. simpl in H.
  destruct c; simpl; try exact H.
  destruct (tr >=? maxToolRounds a1); [|exact H].
  eapply extends_trans; [exact H | apply extends_push_entry].
Qed.

(** A response of [chat] has one choice. *)
Lemma chat_attempts_one_choice (remaining attempt : nat) (lastError : option RawError)
    (c : GrokClient) (endpoint modelId : string) (msgs : list GrokMessage)
    (tools : option (list GrokTool)) (searchOptions : option SearchOptions)
    (w : World) (response : GrokResponse) :
  fst (chat_attempts E remaining attempt lastError c endpoint modelId msgs tools
                     searchOptions w) = inr response ->
  exists choice, choices response = [choice].
Proof.
  revert attempt lastError w.
  induction remaining as [|remaining IH]; intros attempt lastError w; simpl;
    [discriminate|].
  destruct (generateText E _ _) as [err|result]; simpl.
  - destruct (info_retryable (classifyError err) && (attempt <? MAX_RETRIES)%nat);
      [apply IH | discriminate].
  - intros [= <-]. simpl. eauto.
Qed.

Lemma tool_call_parts_throws (tcs : list GrokToolCall) (t : Thrown) :
  tool_call_parts tcs = inl t -> t = SyntaxError.
Proof.
  induction tcs as [|tc tcs IH]; simpl; [discriminate|].
  unfold JSON_parse. destruct (Json.parse (tc_arguments tc)); [|congruence].
  destruct (tool_call_parts tcs); [|discriminate]. intros [= <-]. now apply IH.
Qed.

(** What a buffered round throws: the [GrokApiError] of the transport, or
    the [SyntaxError] of [JSON.parse] in [buildAssistantMessage]. *)
Lemma round_throws_what (toolRounds : Z) (currentResponse : option GrokResponse)
    (message : string) (tools : list GrokTool) (a : GrokAgent) (w : World) (t : Thrown) :
  fst (fst (fst (round E toolRounds currentResponse message tools a w))) = Throw t ->
  (exists info, t = GrokApiError info) \/ t = SyntaxError.
Proof.
  unfold round.
  pose proof (chat_throws_GrokApiError E (grokClient a) (messages a) (Some tools) None
                (getSearchOptions a message) w) as Hthrow.
  pose proof (chat_attempts_one_choice (MAX_RETRIES + 1) 0 None (grokClient a)
                (Js.or_string (baseURL (grokClient a)) "https://api.x.ai/v1")
                (Js.or_string None (currentModel (grokClient a))) (messages a)
                (Some tools) (getSearchOptions a message)) as Hone.
  unfold chat in *.
  match goal with
  | |- context [chat_attempts E _ _ _ _ _ _ _ _ _ ?w'] => specialize (Hone w')
  end.
  destruct (chat_attempts E _ _ _ _ _ _ _ _ _ _) as [[t0|response] w1]; simpl in *.
  - intros [= <-]. left. now apply Hthrow.
  - destruct (Hone response eq_refl) as [choice ->].
    unfold buildAssistantMessage.
    destruct (has_length (rm_tool_calls (choice_message choice))); cbn [negb];
      [|discriminate].
    destruct (tool_call_parts _) as [t0|parts] eqn:Hparts.
    + cbn [fst]. intros [= <-]. right. eapply tool_call_parts_throws; eauto.
    + match goal with
      | |- context [run_tools E ?tcs ?a1 ?w0] =>
        destruct (run_tools_appends tcs a1 w0) as (results & a' & w' & Hrun & _)
      end.
      rewrite Hrun. discriminate.
Qed.

Lemma rounds_throws_what (remaining : nat) (toolRounds : Z)
    (currentResponse : option GrokResponse) (message : string) (tools : list GrokTool)
    (a : GrokAgent) (w : World) (t : Thrown) :
  fst (fst (fst (rounds E remaining toolRounds currentResponse message tools a w)))
  = Throw t ->
  (exists info, t = GrokApiError info) \/ t = SyntaxError.
Proof.
  revert toolRounds currentResponse a w.
  induction remaining as [|remaining IH]; intros toolRounds currentResponse a w;
    [discriminate|].
  cbn [rounds].
  pose proof (round_throws_what toolRounds currentResponse message tools a w t) as H.
  destruct (round E toolRounds currentResponse message tools a w)
    as [[[c [tr cr]] a1] w1].
  cbn [fst] in H. destruct c; cbn [fst]; try discriminate; [apply IH | exact H].
Qed.

(** What [processUserMessage] throws: a [GrokApiError], or the raw
    [SyntaxError] of a tool call whose arguments are not valid JSON. *)
Lemma processUserMessage_throws_what (message : string) (a : GrokAgent) (w : World)
    (t : Thrown) :
  fst (fst (processUserMessage E message a w)) = inl t ->
  (exists info, t = GrokApiError info) \/ t = SyntaxError.
Proof.
  unfold processUserMessage.
  set (a0 := push_message _ a).
  pose proof (rounds_throws_what (Z.to_nat (maxToolRounds a0)) 0 None message
                (getAllGrokTools E (count is_sdk_call w)) a0 w t) as H.
  destruct (rounds E _ _ _ _ _ a0 w) as [[[c [tr cr]] a1] w1].
  cbn [fst] in *. destruct c; cbn [fst]; try discriminate.
  intros [= <-]. now apply H.
Qed.

(** With the round limit at 1 and a reply that carries tool calls whose
    arguments all parse, [processUserMessage] makes one call of the
    transport, runs the tools, appends the terminal entry once and returns
    that reply. *)
Lemma round_limit_one (message : string) (a : GrokAgent) (w w1 : World)
    (response : GrokResponse) (choice : Choice) (others : list Choice)
    (tc : GrokToolCall) (tcs : list GrokToolCall) (parts : list ContentPart) :
  maxToolRounds a = 1 ->
  chat E (grokClient a)
       (messages a ++ [{| role := "user"; content := Text message |}])
       (Some (getAllGrokTools E (count is_sdk_call w))) None
       (getSearchOptions a message) w
  = (inr response, w1) ->
  choices response = choice :: others ->
  rm_tool_calls (choice_message choice) = Some (tc :: tcs) ->
  tool_call_parts (tc :: tcs) = inr parts ->
  exists results a' w',
    processUserMessage E message a w = (inr (Some response), a', w')
    /\ List.length results = List.length (tc :: tcs)
    /\ chatHistory a'
       = chatHistory a
         ++ [assistant_entry (rm_content (choice_message choice)) (Some (tc :: tcs))]
         ++ tool_entries (tc :: tcs) results
         ++ [max_rounds_entry]
    /\ List.filter (fun e => entry_content e =? max_rounds_notice)%string
                   (chatHistory a')
       = List.filter (fun e => entry_content e =? max_rounds_notice)%string
                     (chatHistory a
                      ++ [assistant_entry (rm_content (choice_message choice))
                                          (Some (tc :: tcs))]
                      ++ tool_entries (tc :: tcs) results)
         ++ [max_rounds_entry].
Proof.
  intros Hmax Hchat Hchoices Htcs Hparts.
  unfold processUserMessage. cbn [maxToolRounds push_message]. rewrite Hmax.
  change (Z.to_nat 1) with 1%nat. cbn [rounds]. unfold round.
  change (getSearchOptions (push_message _ a) message) with (getSearchOptions a message).
  cbn [grokClient messages push_message]. rewrite Hchat, Hchoices, Htcs.
  unfold buildAssistantMessage. cbn [has_length negb default id]. rewrite Hparts.
  set (a1 := push_entry _ (push_message _ _)).
  destruct (run_tools_appends (tc :: tcs) a1 w1)
    as (results & a' & w' & Hrun & Hlen & Hm & Hh & Hab & Hc).
  rewrite Hrun. cbn [rounds].
  destruct Hc as (_ & _ & Hmax'). rewrite Hmax'. subst a1.
  cbn [maxToolRounds push_entry push_message]. rewrite Hmax.
  change (0 + 1 >=? 1) with true. cbv iota.
  eexists results, _, w'. split; [reflexivity|]. split; [exact Hlen|].
  cbn [chatHistory push_entry]. rewrite Hh. cbn [chatHistory push_entry push_message].
  rewrite <- !app_assoc. split; [reflexivity|].
  rewrite !List.filter_app. cbn [List.filter].
  change (entry_content max_rounds_entry) with max_rounds_notice.
  rewrite String.eqb_refl, <- !app_assoc. reflexivity.
Qed.

End WithEnv.

(** C1, at a reply the code can receive: the model replies with the two
    tool calls [A; B] and the arguments of [A] are not valid JSON.
    [processUserMessage] throws the [SyntaxError] of [buildAssistantMessage];
    the message history gets the user message only, neither the assistant
    message nor a tool result, and no tool is run. *)
Lemma processUserMessage_truncated_arguments_no_results :
  let '(r, a', w') := processUserMessage truncated_arguments "list the files" agent0 [] in
  r = inl SyntaxError
  /\ messages a'
     = [{| role := "system"; content := Text "You are Grok CLI." |};
        {| role := "user"; content := Text "list the files" |}]
  /\ count is_tool_run w' = 0%nat.
Proof. repeat split; reflexivity. Qed.

(** C3, at the same reply: what [processUserMessage] throws is the raw
    [SyntaxError] of [JSON.parse], which is not a [GrokApiError]. *)
Lemma processUserMessage_throws_raw_SyntaxError :
  fst (fst (processUserMessage truncated_arguments "list the files" agent0 []))
  = inl (Raw (js_error "SyntaxError" "Unexpected token in JSON"))
  /\ forall info,
       fst (fst (processUserMessage truncated_arguments "list the files" agent0 []))
       <> inl (GrokApiError info).
Proof. split; [reflexivity | intros info; vm_compute; discriminate]. Qed.

(** C5, at the same reply with the round limit at 1: [processUserMessage]
    raises, returns no response and appends no terminal entry. *)
Lemma processUserMessage_limit_one_raises :
  let '(r, a', w') :=
    processUserMessage truncated_arguments "list the files" agent_limit_1 [] in
  maxToolRounds agent_limit_1 = 1
  /\ r = inl SyntaxError
  /\ chatHistory a' = []
  /\ count is_sdk_call w' = 1%nat.
Proof. repeat split; reflexivity. Qed.

(** The same scenario with well-formed arguments for [A]: the history gets
    the assistant message, the result of [A], the result of [B], in this
    order, and the loop stops at the limit without raising. *)
Lemma processUserMessage_two_calls_in_order :
  let '(r, a', w') :=
    processUserMessage always_two_calls "list the files" agent_limit_1 [] in
  (exists response, r = inr (Some response))
  /\ messages a'
     = [{| role := "system"; content := Text "You are Grok CLI." |};
        {| role := "user"; content := Text "list the files" |};
        {| role := "assistant";
           content :=
             Parts [TextPart "Let me look.";
                    ToolCallPart "A" "bash" (JObject [("command", JString "ls")]);
                    ToolCallPart "B" "view_file"
                                 (JObject [("path", JString "README.md")])] |};
        {| role := "tool";
           content := Parts [ToolResultPart "A" "bash" (OutText "ok")] |};
        {| role := "tool";
           content := Parts [ToolResultPart "B" "view_file" (OutText "ok")] |}]
  /\ List.map entry_content (chatHistory a')
     = ["Let me look."; "ok"; "ok"; max_rounds_notice].
Proof. repeat split; try reflexivity. eexists. reflexivity. Qed.

End BufferedFacts.

(** ** Agent loop, streaming mode *)

Module StreamFacts.
Import Json Classifier Data Client Agent Traces Scenarios.
Import TransportFacts DispatcherFacts BufferedFacts.

Lemma append_nil_r (s : string) : s +:+ EmptyString = s.
Proof.
  induction s as [|c s IH]; [reflexivity|].
  change (String c (s +:+ EmptyString) = String c s). now rewrite IH.
Qed.

Lemma append_assoc (s1 s2 s3 : string) : (s1 +:+ s2) +:+ s3 = s1 +:+ (s2 +:+ s3).
Proof.
  induction s1 as [|c s1 IH]; [reflexivity|].
  change (String c ((s1 +:+ s2) +:+ s3) = String c (s1 +:+ (s2 +:+ s3))).
  now rewrite IH.
Qed.

(** *** Traces *)

Lemma quiet_app (l1 l2 : list Effect) : quiet l1 -> quiet l2 -> quiet (l1 ++ l2).
Proof. intros H1 H2. apply Forall_app. now split. Qed.

Lemma quiet_transport (l : list Effect) :
  Forall (fun e => is_transport e = true) l -> quiet l.
Proof.
  intros H. induction H as [|e l He _ IH]; constructor; [|exact IH].
  destruct e; try discriminate He; now split.
Qed.

Lemma quiet_tool_effects (l : list Effect) :
  Forall (fun e => is_tool_effect e = true) l -> quiet l.
Proof.
  intros H. induction H as [|e l He _ IH]; constructor; [|exact IH].
  destruct e; try discriminate He; now split.
Qed.

Lemma quiet_not_observed (l : list Effect) (site : CheckSite) :
  quiet l -> ~ In (EAbortCheck site true) l.
Proof.
  intros H Hin. unfold quiet in H. rewrite List.Forall_forall in H.
  destruct (H _ Hin) as [Ho _]. discriminate Ho.
Qed.

Lemma quiet_not_done (l : list Effect) : quiet l -> ~ In (EYield done) l.
Proof.
  intros H Hin. unfold quiet in H. rewrite List.Forall_forall in H.
  destruct (H _ Hin) as [_ Hd]. discriminate Hd.
Qed.

Lemma ends_done_app (l1 l2 : list Effect) :
  quiet l1 -> ends_done l2 -> ends_done (l1 ++ l2).
Proof.
  intros H1 (pre & -> & Hpre). exists (l1 ++ pre).
  split; [now rewrite app_assoc | now apply quiet_app].
Qed.

Lemma ends_cancelled_app (site : CheckSite) (l1 l2 : list Effect) :
  quiet l1 -> ends_cancelled site l2 -> ends_cancelled site (l1 ++ l2).
Proof.
  intros H1 (pre & -> & Hpre). exists (l1 ++ pre).
  split; [now rewrite app_assoc | now apply quiet_app].
Qed.

(** Where a cancellation is observed is where the run ends. *)
Lemma observed_unique (pre before after : list Effect) (site site' : CheckSite) :
  quiet pre ->
  pre ++ cancellation site = before ++ EAbortCheck site' true :: after ->
  before = pre /\ site' = site
  /\ after = [EYield (content_chunk cancelled_notice); EYield done].
Proof.
  intros Hq. revert before.
  induction Hq as [|p pre [Hp _] _ IH]; intros before Heq.
  - destruct before as [|b before]; simpl in Heq.
    + injection Heq as <- <-. now repeat split.
    + injection Heq as <- Heq.
      destruct before as [|b1 before]; [discriminate Heq|].
      injection Heq as <- Heq.
      destruct before as [|b2 before]; [discriminate Heq|].
      injection Heq as <- Heq. destruct before; discriminate Heq.
  - destruct before as [|b before]; simpl in Heq.
    + injection Heq as -> _. discriminate Hp.
    + injection Heq as <- Heq. destruct (IH before Heq) as (-> & -> & ->).
      now repeat split.
Qed.

Lemma ends_done_not_observed (new before after : list Effect) (site : CheckSite) :
  ends_done new -> new <> before ++ EAbortCheck site true :: after.
Proof.
  intros (pre & -> & Hq) Heq.
  assert (Hin : In (EAbortCheck site true) (pre ++ [EYield done])).
  { rewrite Heq. apply in_or_app. right. now left. }
  apply in_app_or in Hin. destruct Hin as [Hin | [Hin | []]]; [|discriminate Hin].
  exact (quiet_not_observed _ _ Hq Hin).
Qed.

Lemma quiet_no_observation (new before after : list Effect) (site : CheckSite) :
  quiet new -> new <> before ++ EAbortCheck site true :: after.
Proof.
  intros Hq ->. apply (quiet_not_observed _ site Hq). apply in_or_app. right. now left.
Qed.

Section WithEnv.
Variable E : Env.

(** *** What the transport and the dispatcher do *)

Lemma transport_logApiResponse (status : Z) (body : ResponseBody) :
  Forall (fun e => is_transport e = true) (Logger.logApiResponse E status body).
Proof.
  unfold Logger.logApiResponse, Logger.appendLine. destruct (debug E); repeat constructor.
Qed.

Lemma transport_info (msg : string) :
  Forall (fun e => is_transport e = true) (Logger.info E msg).
Proof. unfold Logger.info, Logger.appendLine. destruct (debug E); repeat constructor. Qed.

Lemma transport_logApiRequest (method endpoint : string) (n : nat) (hasTools : bool) :
  Forall (fun e => is_transport e = true)
         (Logger.logApiRequest E method endpoint n hasTools).
Proof.
  unfold Logger.logApiRequest, Logger.appendLine. destruct (debug E); repeat constructor.
Qed.

Lemma chatStream_attempts_transport (remaining attempt : nat)
    (lastError : option RawError) (c : GrokClient) (endpoint modelId : string)
    (messages : list GrokMessage) (tools : option (list GrokTool))
    (searchOptions : option SearchOptions) (n_sdk n_random : nat) :
  Forall (fun e => is_transport e = true)
         (script_effects
            (fst (chatStream_attempts E remaining attempt lastError c endpoint modelId
                                      messages tools searchOptions n_sdk n_random))).
Proof.
  revert attempt lastError n_sdk n_random.
  induction remaining as [|remaining IH]; intros attempt lastError n_sdk n_random;
    [constructor|].
  cbn [chatStream_attempts].
  destruct (streamText E n_sdk _) as [chunks [err|]].
  - destruct (info_retryable (classifyError err) && (attempt <? MAX_RETRIES)%nat).
    + specialize (IH (S attempt) (Some err) (S n_sdk) (S n_random)).
      destruct (chatStream_attempts E remaining _ _ _ _ _ _ _ _ _ _) as [rest outcome].
      cbn [fst] in *. rewrite !script_effects_app, script_effects_Act. simpl.
      rewrite script_effects_chunks, script_effects_app, script_effects_Act. simpl.
      repeat (constructor; [reflexivity|]).
      apply Forall_app. split; [apply transport_info|].
      constructor; [reflexivity | exact IH].
    + cbn [fst]. rewrite !script_effects_app, script_effects_Act. simpl.
      rewrite script_effects_chunks. repeat constructor.
  - cbn [fst]. rewrite script_effects_app, script_effects_Act. simpl.
    rewrite script_effects_chunks. constructor; [reflexivity|].
    apply transport_logApiResponse.
Qed.

Lemma chatStream_transport (c : GrokClient) (messages : list GrokMessage)
    (tools : option (list GrokTool)) (model : option string)
    (searchOptions : option SearchOptions) (w : World) :
  Forall (fun e => is_transport e = true)
         (script_effects (fst (chatStream E c messages tools model searchOptions w))).
Proof.
  unfold chatStream.
  pose proof (chatStream_attempts_transport (MAX_RETRIES + 1) 0 None c
                (Js.or_string (baseURL c) "https://api.x.ai/v1")
                (Js.or_string model (currentModel c)) messages tools searchOptions
                (count is_sdk_call w) (count is_random w)) as H.
  destruct (chatStream_attempts E _ _ _ _ _ _ _ _ _ _ _) as [script outcome].
  cbn [fst] in *. rewrite script_effects_app, script_effects_Act.
  apply Forall_app. split; [apply transport_logApiRequest | exact H].
Qed.

Lemma tool_step_stay {A : Type} (w : World) (x : Thrown + A) : tool_step w (x, w).
Proof. exists []. simpl. now rewrite app_nil_r. Qed.

Lemma tool_step_call (rq : CollabRequest) (w : World) : tool_step w (call E rq w).
Proof. exists [ECollab rq]. split; [reflexivity | repeat constructor]. Qed.

Lemma tool_step_with_args {A : Type} (args : JSONValue) (w : World)
    (k : (string -> option JSONValue) -> (Thrown + A) * World) :
  (forall get, tool_step w (k get)) -> tool_step w (with_args args w k).
Proof. intros Hk. destruct args; simpl; auto using tool_step_stay. Qed.

Lemma tool_step_executeMCPTool (toolCall : GrokToolCall) (w : World) :
  tool_step w (executeMCPTool E toolCall w).
Proof.
  unfold executeMCPTool.
  destruct (JSON_parse (tc_arguments toolCall)) as [t|args]; simpl;
    [apply tool_step_stay|].
  destruct (mcp_callTool E _ _ args) as [t|result]; simpl.
  - exists [EMcp (tc_name toolCall) args]. split; [reflexivity | repeat constructor].
  - destruct (isError result); simpl;
      (exists [EMcp (tc_name toolCall) args]; split; [reflexivity | repeat constructor]).
Qed.

Lemma tool_step_dispatch (a : GrokAgent) (toolCall : GrokToolCall) (args : JSONValue)
    (w : World) :
  tool_step w (dispatch E a toolCall args w).
Proof.
  unfold dispatch.
  repeat match goal with
         | |- tool_step _ (if ?b then _ else _) => destruct b
         end;
    try (apply tool_step_with_args; intros get);
    try apply tool_step_call;
    try apply tool_step_stay;
    try apply tool_step_executeMCPTool.
  unfold call. destruct (collaborator E _ _) as [t|result].
  - exists [ECollab (Bash_execute (get "command")
                       (if truthy (get "timeout")
                        then option_map (fun v => Math_min v 600000) (get "timeout")
                        else None))].
    split; [reflexivity | repeat constructor].
  - eexists [_; ESyncDirectory]. unfold emit. rewrite <- app_assoc.
    split; [reflexivity | repeat constructor].
Qed.

Lemma executeTool_effects (a : GrokAgent) (toolCall : GrokToolCall) (w : World) :
  tool_step w (executeTool E a toolCall w).
Proof.
  unfold executeTool, executeTool_try.
  destruct (JSON_parse (tc_arguments toolCall)) as [t|args].
  - simpl. eexists [_]. split; [reflexivity | repeat constructor].
  - destruct (tool_step_dispatch a toolCall args w) as (new & Hnew & Hq).
    destruct (dispatch E a toolCall args w) as [[t|r] w1]; simpl in *.
    + subst w1. eexists (new ++ [_]). rewrite app_assoc. split; [reflexivity|].
      apply Forall_app. split; [exact Hq | repeat constructor].
    + exists new. now split.
Qed.

(** *** The loops of the stream *)

Lemma cancellable_app (site : CheckSite) (c : Completion) (l1 l2 : list Effect) :
  quiet l1 -> cancellable site c l2 -> cancellable site c (l1 ++ l2).
Proof.
  intros H1. destruct c; simpl; auto using quiet_app, ends_cancelled_app.
Qed.

Lemma check_aborted_cases (site : CheckSite) (a : GrokAgent) (w : World) :
  check_aborted E site a w = (true, w ++ [EAbortCheck site true])
  \/ exists l, check_aborted E site a w = (false, w ++ l) /\ quiet l.
Proof.
  unfold check_aborted. destruct (abortController a).
  - destruct (aborted E _); [now left|].
    right. exists [EAbortCheck site false]. split; [reflexivity|].
    repeat constructor.
  - right. exists []. rewrite app_nil_r. split; [reflexivity | constructor].
Qed.

Lemma quiet_yield_content (c : string) : quiet [EYield (content_chunk c)].
Proof. repeat constructor. Qed.

Lemma quiet_yield_tokens (n : Z) : quiet [EYield (token_count n)].
Proof. repeat constructor. Qed.

(** The for-await loop: it ends when the stream ends (normally, or with
    what the transport throws) or returns on a cancellation observed before
    a stream event. *)
Lemma consume_effects (script : list Action) (outcome : option Thrown)
    (content : string) (tcs : list GrokToolCall) (inputTokens tot : Z)
    (a : GrokAgent) (w : World) :
  Forall (fun e => is_transport e = true) (script_effects script) ->
  exists new,
    snd (consume E script outcome content tcs inputTokens tot a w) = w ++ new
    /\ cancellable BeforeStreamEvent
                   (fst (fst (consume E script outcome content tcs inputTokens tot a w)))
                   new
    /\ (forall t,
          fst (fst (consume E script outcome content tcs inputTokens tot a w)) = Throw t ->
          outcome = Some t).
Proof.
  revert content tcs tot w.
  induction script as [|[e|chunk] script IH]; intros content tcs tot w Htr.
  - exists []. simpl. rewrite app_nil_r. split; [reflexivity|].
    destruct outcome; simpl; repeat split; try constructor; congruence.
  - simpl in Htr. inversion Htr as [|? ? He Hrest]; subst.
    destruct (IH content tcs tot (emit e w) Hrest) as (new & Hw & Hc & Ht).
    exists (e :: new). cbn [consume]. rewrite Hw. unfold emit. rewrite <- app_assoc.
    split; [reflexivity|]. split; [|exact Ht].
    apply (cancellable_app _ _ [e]); [|exact Hc].
    apply quiet_transport. now constructor.
  - simpl in Htr. cbn [consume].
    destruct (check_aborted_cases BeforeStreamEvent a w) as [Hchk | (l & Hchk & Hl)];
      rewrite Hchk.
    + exists (cancellation BeforeStreamEvent). cbn [fst snd].
      unfold cancel, yield, emit. rewrite <- !app_assoc.
      split; [reflexivity|]. split; [|discriminate].
      exists []. split; [reflexivity | constructor].
    + destruct (chunk_choices chunk) as [|delta others].
      * destruct (IH content tcs tot (w ++ l) Htr) as (new & Hw & Hc & Ht).
        exists (l ++ new). rewrite Hw, <- app_assoc. split; [reflexivity|].
        split; [now apply cancellable_app | exact Ht].
      * destruct (nonempty (delta_content delta)) as [text|].
        -- match goal with
           | |- context [consume E script outcome ?c' ?t' inputTokens ?n' a ?w'] =>
             set (w2 := w');
             destruct (IH c' t' n' w2 Htr) as (new & Hw & Hc & Ht)
           end.
           eexists (l ++ [_; _] ++ new).
           split; [rewrite Hw; subst w2; unfold yield, emit;
                   rewrite <- !app_assoc; reflexivity|].
           split; [|exact Ht].
           apply cancellable_app; [exact Hl|].
           apply cancellable_app; [repeat constructor | exact Hc].
        -- match goal with
           | |- context [consume E script outcome ?c' ?t' inputTokens ?n' a ?w'] =>
             set (w2 := w');
             destruct (IH c' t' n' w2 Htr) as (new & Hw & Hc & Ht)
           end.
           eexists (l ++ [_] ++ new).
           split; [rewrite Hw; subst w2; unfold yield, emit;
                   rewrite <- !app_assoc; reflexivity|].
           split; [|exact Ht].
           apply cancellable_app; [exact Hl|].
           apply cancellable_app; [repeat constructor | exact Hc].
Qed.

(** When the loop ends normally it has accumulated the whole stream. *)
Lemma consume_complete (script : list Action) (outcome : option Thrown)
    (content : string) (tcs : list GrokToolCall) (inputTokens tot : Z)
    (a : GrokAgent) (w : World) (content' : string) (tcs' : list GrokToolCall)
    (tot' : Z) (w' : World) :
  consume E script outcome content tcs inputTokens tot a w
  = (Normal, (content', tcs', tot'), w') ->
  content' = content +:+ script_text script
  /\ tcs' = script_tool_calls script tcs.
Proof.
  revert content tcs tot w.
  induction script as [|[e|chunk] script IH]; intros content tcs tot w; cbn [consume].
  - destruct outcome; [discriminate|]. intros [= <- <- _ _]. simpl.
    now rewrite append_nil_r.
  - apply IH.
  - destruct (check_aborted E BeforeStreamEvent a w) as [[|] w1]; [discriminate|].
    cbn [script_text script_tool_calls].
    destruct (chunk_choices chunk) as [|delta others].
    + intros H. apply IH in H. exact H.
    + destruct (nonempty (delta_content delta)) as [text|]; intros H; apply IH in H;
        destruct H as [-> ->]; cbn [default id].
      * now rewrite append_assoc.
      * split; [reflexivity|]. reflexivity.
Qed.

(** The loop over the accumulated tool calls: it runs the calls in order
    and either runs them all, or returns on a cancellation observed before
    a call, with the results of the calls before it appended. *)
Lemma run_tools_stream_appends (tcs : list GrokToolCall) (a : GrokAgent) (w : World) :
  exists c results a' new,
    run_tools_stream E tcs a w = (c, a', w ++ new)
    /\ messages a' = messages a ++ tool_messages tcs results
    /\ chatHistory a' = chatHistory a ++ tool_entries tcs results
    /\ abortController a' = abortController a
    /\ same_config a a'
    /\ ((c = Normal /\ quiet new /\ List.length results = List.length tcs)
        \/ (c = Return /\ ends_cancelled BeforeTool new
            /\ (List.length results < List.length tcs)%nat)).
Proof.
  revert a w. induction tcs as [|tc tcs IH]; intros a w.
  - exists Normal, [], a, []. simpl. rewrite !app_nil_r.
    repeat split. left. repeat split. constructor.
  - cbn [run_tools_stream].
    destruct (check_aborted_cases BeforeTool a w) as [Hchk | (l & Hchk & Hl)];
      rewrite Hchk.
    + exists Return, [], a, (cancellation BeforeTool). simpl. rewrite !app_nil_r.
      unfold cancel, yield, emit. rewrite <- !app_assoc.
      repeat split. right. repeat split; [|lia].
      exists []. split; [reflexivity | constructor].
    + destruct (executeTool_returns E a tc (w ++ l)) as (r & w1 & Hr).
      destruct (executeTool_effects a tc (w ++ l)) as (new1 & Hw1 & Hq1).
      rewrite Hr in *. simpl in Hw1. subst w1.
      set (a1 := push_message _ (push_entry _ a)).
      destruct (IH a1 (yield (tool_result_chunk tc r) ((w ++ l) ++ new1)))
        as (c & results & a' & new & Hrun & Hm & Hh & Hab & Hc & Hcases).
      exists c, (r :: results), a', (l ++ new1 ++ [EYield (tool_result_chunk tc r)] ++ new).
      rewrite Hrun. unfold yield, emit. rewrite <- !app_assoc.
      split; [reflexivity|]. subst a1. simpl in *.
      rewrite Hm, Hh, <- !app_assoc.
      split; [reflexivity|]. split; [reflexivity|]. split; [exact Hab|].
      split; [exact Hc|].
      destruct Hcases as [(-> & Hq & Hlen) | (-> & Hq & Hlen)].
      * left. split; [reflexivity|]. split; [|simpl; lia].
        apply quiet_app; [exact Hl|].
        apply quiet_app; [now apply quiet_tool_effects|].
        apply (quiet_app [_]); [repeat constructor | exact Hq].
      * right. split; [reflexivity|]. split; [|simpl; lia].
        apply ends_cancelled_app; [exact Hl|].
        apply ends_cancelled_app; [now apply quiet_tool_effects|].
        apply (ends_cancelled_app _ [_]); [repeat constructor | exact Hq].
Qed.

Lemma stream_round_outcome (inputTokens tot : Z) (message : string) (a : GrokAgent)
    (w : World) :
  exists c st a' new,
    stream_round E inputTokens tot message a w = (c, st, a', w ++ new)
    /\ RoundOutcome a a' (round_script E message a w) new c
    /\ extends a a'
    /\ abortController a' = abortController a.
Proof.
  unfold stream_round, round_script.
  destruct (check_aborted_cases BeforeModelCall a w) as [Hchk | (l & Hchk & Hl)];
    rewrite Hchk; cbn [snd].
  { exists Return, (inputTokens, tot), a, (cancellation BeforeModelCall).
    unfold cancel, yield, emit. rewrite <- !app_assoc.
    split; [reflexivity|]. split; [|split; [apply extends_refl | reflexivity]].
    apply round_cancelled_before_model_call; [|reflexivity].
    exists []. split; [reflexivity | constructor]. }
  pose proof (chatStream_transport (grokClient a) (messages a)
                (Some (getAllGrokTools E (count is_sdk_call (w ++ l)))) None
                (getSearchOptions a message) (w ++ l)) as Htr.
  destruct (chatStream E (grokClient a) (messages a) _ None _ (w ++ l))
    as [script outcome].
  cbn [fst] in *.
  destruct (consume_effects script outcome EmptyString [] inputTokens tot a (w ++ l) Htr)
    as (new1 & Hw1 & Hc1 & _).
  destruct (consume E script outcome EmptyString [] inputTokens tot a (w ++ l))
    as [[c [[content tcs] tot']] w1] eqn:Hconsume.
  cbn [fst snd] in *. subst w1.
  destruct c; cbn [cancellable] in Hc1.
  - (* the stream ended *)
    destruct (consume_complete _ _ _ _ _ _ _ _ _ _ _ _ Hconsume) as [Hcontent Htcs].
    change (EmptyString +:+ script_text script) with (script_text script) in Hcontent.
    subst content tcs.
    set (tcs := script_tool_calls script []) in *.
    set (w2 := if has_length (Some tcs) then yield _ _ else _).
    assert (Hw2 : exists l2, w2 = ((w ++ l) ++ new1) ++ l2 /\ quiet l2).
    { subst w2. destruct (has_length (Some tcs)).
      - exists [EYield (tool_calls_chunk tcs)]. unfold yield, emit.
        split; [reflexivity | repeat constructor].
      - exists []. rewrite app_nil_r. split; [reflexivity | constructor]. }
    destruct Hw2 as (l2 & Hw2 & Hl2). clearbody w2. subst w2.
    assert (Hpre : quiet (l ++ new1 ++ l2)) by auto using quiet_app.
    destruct (buildAssistantMessage _ _) as [t|m] eqn:Hbuild.
    + exists (Throw t), (inputTokens, tot'), a, (l ++ new1 ++ l2).
      rewrite <- !app_assoc.
      split; [reflexivity|]. split; [|split; [apply extends_refl | reflexivity]].
      now apply round_throws.
    + set (a1 := push_entry _ (push_message m a)).
      assert (Ha1 : extends a a1).
      { eapply extends_trans; [apply extends_push_message | apply extends_push_entry]. }
      destruct (has_length (Some tcs)) eqn:Hhas.
      * destruct (run_tools_stream_appends tcs a1 (((w ++ l) ++ new1) ++ l2))
          as (c & results & a' & new3 & Hrun & Hm & Hh & Hab & Hcfg & Hcases).
        rewrite Hrun.
        assert (Hext : extends a a').
        { eapply extends_trans; [exact Ha1|].
          split; [eauto|]. split; [eauto|]. exact Hcfg. }
        destruct Hcases as [(-> & Hq & Hlen) | (-> & Hq & Hlen)].
        -- eexists Normal, _, a',
             (l ++ new1 ++ l2 ++ new3 ++ [EYield (token_count _)]).
           unfold yield, emit. rewrite <- !app_assoc.
           split; [reflexivity|]. split; [|split; [exact Hext | exact Hab]].
           apply round_continues with (m := m) (results := results).
           ++ rewrite !app_assoc. apply quiet_app; [|repeat constructor].
              rewrite <- !app_assoc. auto using quiet_app.
           ++ unfold stream_assistant_message. cbv zeta. fold tcs.
              rewrite Hhas. exact Hbuild.
           ++ exact Hlen.
           ++ rewrite Hm. subst a1. simpl. now rewrite <- app_assoc.
        -- exists Return, (inputTokens, tot'), a', (l ++ new1 ++ l2 ++ new3).
           rewrite <- !app_assoc.
           split; [reflexivity|]. split; [|split; [exact Hext | exact Hab]].
           apply round_cancelled_before_tool with (m := m) (results := results).
           ++ rewrite !app_assoc. apply ends_cancelled_app; [|exact Hq].
              rewrite <- !app_assoc. exact Hpre.
           ++ unfold stream_assistant_message. cbv zeta. fold tcs.
              rewrite Hhas. exact Hbuild.
           ++ exact Hlen.
           ++ rewrite Hm. subst a1. simpl. now rewrite <- app_assoc.
      * exists Return, (inputTokens, tot'), a1, (l ++ new1 ++ l2 ++ [EYield done]).
        unfold yield, emit. rewrite <- !app_assoc.
        split; [reflexivity|]. split; [|split; [exact Ha1 | reflexivity]].
        apply round_final with (m := m).
        -- exists (l ++ new1 ++ l2). rewrite <- !app_assoc. now split.
        -- unfold stream_assistant_message. cbv zeta. fold tcs.
           rewrite Hhas. exact Hbuild.
        -- clear -Hhas. subst tcs.
           destruct (script_tool_calls script []); [reflexivity | discriminate Hhas].
        -- reflexivity.
  - destruct Hc1.
  - exists Return, (inputTokens, tot'), a, (l ++ new1). rewrite <- app_assoc.
    split; [reflexivity|]. split; [|split; [apply extends_refl | reflexivity]].
    apply round_cancelled_before_stream_event; [|reflexivity].
    now apply ends_cancelled_app.
  - exists (Throw t), (inputTokens, tot'), a, (l ++ new1). rewrite <- app_assoc.
    split; [reflexivity|]. split; [|split; [apply extends_refl | reflexivity]].
    apply round_throws; [|reflexivity]. now apply quiet_app.
Qed.

Lemma RoundOutcome_shape (a a' : GrokAgent) (script : list Action) (new : list Effect)
    (c : Completion) :
  RoundOutcome a a' script new c -> run_shape c new.
Proof. intros H. destruct H; simpl; eauto. Qed.

Lemma run_shape_app (c : Completion) (l1 l2 : list Effect) :
  quiet l1 -> run_shape c l2 -> run_shape c (l1 ++ l2).
Proof.
  intros H1. destruct c; simpl; auto using quiet_app.
  intros [H | [site H]]; [left | right; exists site];
    auto using ends_done_app, ends_cancelled_app.
Qed.

Lemma stream_rounds_outcome (remaining : nat) (inputTokens tot : Z) (message : string)
    (a : GrokAgent) (w : World) :
  exists c a' new,
    stream_rounds E remaining inputTokens tot message a w = (c, a', w ++ new)
    /\ run_shape c new
    /\ extends a a'
    /\ abortController a' = abortController a.
Proof.
  revert inputTokens tot a w.
  induction remaining as [|remaining IH]; intros inputTokens tot a w.
  - exists Normal, a, []. simpl. rewrite app_nil_r.
    repeat split; try constructor; apply extends_refl.
  - cbn [stream_rounds].
    destruct (stream_round_outcome inputTokens tot message a w)
      as (c & [it' tot'] & a1 & new1 & Hround & Hout & Hext & Hab).
    rewrite Hround. apply RoundOutcome_shape in Hout.
    destruct c.
    + destruct (IH it' tot' a1 (w ++ new1))
        as (c & a' & new2 & Hrun & Hshape & Hext2 & Hab2).
      exists c, a', (new1 ++ new2). rewrite Hrun, <- app_assoc.
      split; [reflexivity|]. split; [now apply run_shape_app|].
      split; [eapply extends_trans; eauto | congruence].
    + destruct Hout.
    + exists Return, a1, new1.
      split; [reflexivity|]. split; [exact Hout|]. now split.
    + exists (Throw t), a1, new1.
      split; [reflexivity|]. split; [exact Hout|]. now split.
Qed.

Lemma processUserMessageStream_outcome (message : string) (a : GrokAgent) (w : World) :
  exists c a' new,
    processUserMessageStream E message a w = (c, a', w ++ new)
    /\ (c = Normal \/ c = Return)
    /\ (ends_done new \/ exists site, ends_cancelled site new)
    /\ extends (push_message {| role := "user"; content := Text message |} a) a'.
Proof.
  unfold processUserMessageStream.
  set (a0 := push_message _ (push_entry _ (set_abortController true a))).
  assert (Ha0 : extends (push_message {| role := "user"; content := Text message |} a) a0).
  { split; [exists []; simpl; now rewrite app_nil_r|].
    split; [eexists [_]; reflexivity | now repeat split]. }
  set (w0 := yield _ w).
  destruct (stream_rounds_outcome (Z.to_nat (maxToolRounds a0))
              (countMessageTokens E (messages a0)) 0 message a0 w0)
    as (c & a1 & new & Hrun & Hshape & Hext & Hab).
  rewrite Hrun. subst w0. unfold yield, emit.
  assert (Htok : quiet [EYield (token_count (countMessageTokens E (messages a0)))])
    by repeat constructor.
  assert (Hext1 : forall a2, extends a1 a2 ->
            extends (push_message {| role := "user"; content := Text message |} a)
                    (set_abortController false a2)).
  { intros a2 H2. eapply extends_trans; [exact Ha0|].
    eapply extends_trans; [exact Hext|].
    eapply extends_trans; [exact H2 | apply extends_set_abortController]. }
  destruct c; simpl in Hshape.
  - eexists Normal, _, ([_] ++ new ++ [_; EYield done]).
    unfold yield, emit. rewrite <- !app_assoc.
    split; [reflexivity|]. split; [now left|].
    split; [|apply Hext1, extends_refl].
    left. eexists ([_] ++ new ++ [_]). rewrite <- !app_assoc.
    split; [reflexivity|].
    apply quiet_app; [exact Htok|]. apply quiet_app; [exact Hshape | repeat constructor].
  - destruct Hshape.
  - eexists Return, _, ([_] ++ new). rewrite <- !app_assoc.
    split; [reflexivity|]. split; [now right|].
    split; [|apply Hext1, extends_refl].
    destruct Hshape as [H | [site H]]; [left | right; exists site];
      auto using ends_done_app, ends_cancelled_app.
  - unfold stream_catch.
    destruct (check_aborted_cases InCatch a1
                ((w ++ [EYield (token_count (countMessageTokens E (messages a0)))])
                 ++ new))
      as [Hchk | (l & Hchk & Hl)]; rewrite Hchk.
    + eexists Return, _, ([_] ++ new ++ cancellation InCatch).
      unfold cancel, yield, emit. rewrite <- !app_assoc.
      split; [reflexivity|]. split; [now right|].
      split; [|apply Hext1, extends_refl].
      right. exists InCatch. eexists ([_] ++ new). rewrite <- !app_assoc.
      split; [reflexivity | now apply quiet_app].
    + eexists Normal, _, ([_] ++ new ++ l ++ [_; _; EYield done]).
      unfold yield, emit, Logger.error, Logger.appendLine. rewrite <- !app_assoc.
      split; [reflexivity|]. split; [now left|].
      split; [|apply Hext1, extends_push_entry].
      left. eexists ([_] ++ new ++ l ++ [_; _]). rewrite <- !app_assoc.
      split; [reflexivity|].
      apply quiet_app; [exact Htok|]. apply quiet_app; [exact Hshape|].
      apply quiet_app; [exact Hl | repeat constructor].
Qed.

End WithEnv.

(** C4, as stated, fails: the consumer aborts after the stream of the first
    round has ended, so that the cancellation is observed before the tool
    [A] is executed. The stream ends with the notice and [done] and no tool
    is run, but the assistant message with the text and the tool call of
    the cancelled round is in the message history. *)
Lemma cancelled_before_tool_keeps_assistant_message :
  let '(c, a', w') :=
    processUserMessageStream (cancelled_at_check 3) "list the files" agent0 [] in
  (exists pre, w' = pre ++ cancellation BeforeTool)
  /\ count is_tool_run w' = 0%nat
  /\ messages a'
     = [{| role := "system"; content := Text "You are Grok CLI." |};
        {| role := "user"; content := Text "list the files" |};
        {| role := "assistant";
           content :=
             Parts [TextPart "Let me look.";
                    ToolCallPart "A" "bash" (JObject [("command", JString "ls")])] |}].
Proof.
  vm_compute. split; [|split; reflexivity].
  eexists. rewrite <- (firstn_skipn 9) at 1. reflexivity.
Qed.

(** C4, amended: whenever [processUserMessageStream] observes the
    cancellation (before the model call, before consuming a stream event,
    before executing a tool, or in its catch block), the event sequence ends
    with the cancellation notice and exactly one [done] with nothing after
    it, and no tool is executed after the observation. When the cancellation
    is observed before the model call or before consuming a stream event,
    the round leaves the agent as it found it: the text and tool calls
    accumulated so far are not stored. When it is observed before executing
    a tool, the assistant message of the round and the results of the tools
    already run have been appended to the message history and stay there.
    A round that throws leaves the agent as it found it. *)
Theorem stream_cancellation (E : Env) :
  (forall message a w, exists new,
      snd (processUserMessageStream E message a w) = w ++ new
      /\ (exists pre, new = pre ++ [EYield done] /\ ~ In (EYield done) pre)
      /\ forall site before after,
           new = before ++ EAbortCheck site true :: after ->
           after = [EYield (content_chunk cancelled_notice); EYield done]
           /\ count is_tool_run after = 0%nat
           /\ Forall (fun e => is_observed e = false) before)
  /\ (forall inputTokens totalOutputTokens message a w site before after,
      snd (stream_round E inputTokens totalOutputTokens message a w)
      = w ++ before ++ EAbortCheck site true :: after ->
      let a' := snd (fst (stream_round E inputTokens totalOutputTokens message a w)) in
      let tcs := script_tool_calls (round_script E message a w) [] in
      fst (fst (fst (stream_round E inputTokens totalOutputTokens message a w))) = Return
      /\ site <> InCatch
      /\ (site = BeforeModelCall \/ site = BeforeStreamEvent -> a' = a)
      /\ (site = BeforeTool ->
          exists m results,
            stream_assistant_message (round_script E message a w) = inr m
            /\ (List.length results < List.length tcs)%nat
            /\ messages a' = messages a ++ m :: tool_messages tcs results))
  /\ (forall inputTokens totalOutputTokens message a w t,
      fst (fst (fst (stream_round E inputTokens totalOutputTokens message a w))) = Throw t ->
      snd (fst (stream_round E inputTokens totalOutputTokens message a w)) = a).
Proof.
  split; [|split].
  - intros message a w.
    destruct (processUserMessageStream_outcome E message a w)
      as (c & a' & new & Hrun & _ & Hshape & _).
    exists new. rewrite Hrun. split; [reflexivity|].
    destruct Hshape as [(pre & -> & Hq) | (site0 & pre & -> & Hq)].
    + split.
      * exists pre. split; [reflexivity | now apply quiet_not_done].
      * intros site before after Heq. exfalso.
        eapply (ends_done_not_observed (pre ++ [EYield done])); [|exact Heq].
        exists pre. now split.
    + split.
      * exists (pre ++ [EAbortCheck site0 true; EYield (content_chunk cancelled_notice)]).
        split; [unfold cancellation; now rewrite <- app_assoc|].
        intros Hin. apply in_app_or in Hin.
        destruct Hin as [Hin | [Hin | [Hin | []]]]; try discriminate Hin.
        exact (quiet_not_done _ Hq Hin).
      * intros site before after Heq.
        destruct (observed_unique pre before after site0 site Hq Heq) as (-> & -> & ->).
        split; [reflexivity|]. split; [reflexivity|].
        unfold quiet in Hq. eapply List.Forall_impl; [|exact Hq]. now intros e [He _].
  - intros inputTokens tot message a w site before after Heq.
    destruct (stream_round_outcome E inputTokens tot message a w)
      as (c & st & a' & new & Hround & Hout & _ & _).
    rewrite Hround in *. cbn [fst snd] in *.
    apply app_inv_head in Heq. subst new.
    destruct Hout as [m results Hq | t Hq | Hc Ha | Hc Ha | m results Hc Hm Hlen Hms
                      | m Hd Hm Htcs Hms].
    + exfalso. exact (quiet_no_observation _ _ _ _ Hq eq_refl).
    + exfalso. exact (quiet_no_observation _ _ _ _ Hq eq_refl).
    + destruct Hc as (pre & Heq & Hq).
      destruct (observed_unique pre before after _ site Hq (eq_sym Heq)) as (_ & -> & _).
      repeat split; try discriminate; auto.
    + destruct Hc as (pre & Heq & Hq).
      destruct (observed_unique pre before after _ site Hq (eq_sym Heq)) as (_ & -> & _).
      repeat split; try discriminate; auto.
    + destruct Hc as (pre & Heq & Hq).
      destruct (observed_unique pre before after _ site Hq (eq_sym Heq)) as (_ & -> & _).
      split; [reflexivity|]. split; [discriminate|].
      split; [intros [H | H]; discriminate H|].
      intros _. exists m, results. now repeat split.
    + exfalso. exact (ends_done_not_observed _ _ _ _ Hd eq_refl).
  - intros inputTokens tot message a w t Hthrow.
    destruct (stream_round_outcome E inputTokens tot message a w)
      as (c & st & a' & new & Hround & Hout & _ & _).
    rewrite Hround in *. cbn [fst snd] in *. subst c.
    inversion Hout; subst. reflexivity.
Qed.

Lemma stream_cancellation_witness :
  let a := set_abortController true
             (push_message {| role := "user"; content := Text "list the files" |} agent0) in
  snd (fst (stream_round (cancelled_at_check 2) 2 0 "list the files" a [])) = a.
Proof.
  intros a.
  destruct (stream_cancellation (cancelled_at_check 2)) as (_ & Hround & _).
  apply (Hround 2 0 "list the files" a [] BeforeStreamEvent
           (firstn 5 (snd (stream_round (cancelled_at_check 2) 2 0 "list the files" a [])))
           (skipn 6 (snd (stream_round (cancelled_at_check 2) 2 0 "list the files" a [])))).
  - reflexivity.
  - right. reflexivity.
Defined.

(** C8: the message history is append-only. [processUserMessage] and
    [processUserMessageStream] leave the messages they find in place and
    in order, and append the user message, then further messages. A
    round of the stream appends nothing, or the assistant message built
    from the whole stream of the round (all its text and tool calls, after
    the stream has ended) followed by tool results; a buffered round
    appends nothing, or the assistant message of the reply followed by
    tool results. No partial message is stored. *)
Theorem history_append_only (E : Env) :
  (forall message a w, exists appended,
      messages (snd (fst (processUserMessage E message a w)))
      = messages a ++ {| role := "user"; content := Text message |} :: appended)
  /\ (forall message a w, exists appended,
      messages (snd (fst (processUserMessageStream E message a w)))
      = messages a ++ {| role := "user"; content := Text message |} :: appended)
  /\ (forall inputTokens totalOutputTokens message a w,
      let a' := snd (fst (stream_round E inputTokens totalOutputTokens message a w)) in
      let script := round_script E message a w in
      messages a' = messages a
      \/ exists m results,
           stream_assistant_message script = inr m
           /\ messages a'
              = messages a ++ m :: tool_messages (script_tool_calls script []) results)
  /\ (forall toolRounds currentResponse message tools a w,
      let a' := snd (fst (round E toolRounds currentResponse message tools a w)) in
      messages a' = messages a
      \/ exists response choice others m results,
           fst (chat E (grokClient a) (messages a) (Some tools) None
                     (getSearchOptions a message) w) = inr response
           /\ choices response = choice :: others
           /\ buildAssistantMessage (rm_content (choice_message choice))
                                     (rm_tool_calls (choice_message choice)) = inr m
           /\ messages a'
              = messages a
                ++ m :: tool_messages (default [] (rm_tool_calls (choice_message choice)))
                                      results).
Proof.
  split; [|split; [|split]].
  - intros message a w.
    destruct (processUserMessage_extends E message a w) as ([ms Hms] & _).
    exists ms. rewrite Hms. simpl. now rewrite <- app_assoc.
  - intros message a w.
    destruct (processUserMessageStream_outcome E message a w)
      as (c & a' & new & Hrun & _ & _ & [ms Hms] & _).
    exists ms. rewrite Hrun. cbn [fst snd]. rewrite Hms. simpl. now rewrite <- app_assoc.
  - intros inputTokens tot message a w.
    destruct (stream_round_outcome E inputTokens tot message a w)
      as (c & st & a' & new & Hround & Hout & _ & _).
    rewrite Hround. cbn [fst snd].
    destruct Hout as [m results Hq Hm Hlen Hms | t Hq Ha | Hc Ha | Hc Ha
                      | m results Hc Hm Hlen Hms | m Hd Hm Htcs Hms];
      try (left; now subst); right.
    + exists m, results. now split.
    + exists m, results. now split.
    + exists m, []. split; [exact Hm|]. rewrite Hms, Htcs. reflexivity.
  - intros toolRounds currentResponse message tools a w. unfold round.
    destruct (chat E _ _ _ _ _ w) as [[t|response] w1]; [now left|].
    destruct (choices response) as [|choice others] eqn:Hchoices; [now left|].
    destruct (buildAssistantMessage _ _) as [t|m] eqn:Hbuild; [now left|].
    right. exists response, choice, others, m.
    set (a1 := push_entry _ (push_message m a)).
    destruct (has_length (rm_tool_calls (choice_message choice))) eqn:Hhas.
    + destruct (run_tools_appends E (default [] (rm_tool_calls (choice_message choice)))
                                  a1 w1)
        as (results & a' & w' & Hrun & _ & Hm & _).
      exists results. rewrite Hrun. cbn [fst snd]. rewrite Hm. subst a1. simpl.
      rewrite <- app_assoc. repeat split; assumption || reflexivity.
    + exists []. cbn [fst snd]. subst a1. simpl.
      destruct (rm_tool_calls (choice_message choice)) as [[|tc tcs]|];
        try discriminate Hhas; repeat split; assumption || reflexivity.
Qed.

End StreamFacts.

(** * Further properties *)

(** ** [JSON.parse] reads back what [JSON.stringify] prints *)

Module JsonFacts.
Import Json JsonText.

Lemma stringify_JArray (items : list JSONValue) :
  stringify (JArray items) = "[" +:+ elements_text items.
Proof. reflexivity. Qed.

Lemma stringify_JObject (members : list (string * JSONValue)) :
  stringify (JObject members) = "{" +:+ members_text members.
Proof. reflexivity. Qed.

Lemma jsize_JArray (items : list JSONValue) :
  jsize (JArray items) = (2 + items_size items)%nat.
Proof. simpl. induction items as [|x r IH]; simpl in *; [reflexivity | lia]. Qed.

Lemma jsize_JObject (members : list (string * JSONValue)) :
  jsize (JObject members) = (2 + members_size members)%nat.
Proof.
  simpl. induction members as [|[k x] r IH]; simpl in *; [reflexivity | lia].
Qed.

Lemma jsize_pos (v : JSONValue) : (1 <= jsize v)%nat.
Proof. destruct v; simpl; lia. Qed.

Lemma chars_app (a b : string) :
  list_ascii_of_string (a +:+ b) = list_ascii_of_string a ++ list_ascii_of_string b.
Proof.
  induction a as [|c a IH]; [reflexivity|].
  change (c :: list_ascii_of_string (a +:+ b) = c :: (list_ascii_of_string a ++ list_ascii_of_string b)).
  now rewrite IH.
Qed.

(** *** Strings *)

Lemma quote_chars_String (c : ascii) (s : string) :
  quote_chars (String c s) = escape c +:+ quote_chars s.
Proof.
  unfold escape. cbn [quote_chars].
  destruct (Ascii.eqb c dquote); [reflexivity|].
  destruct (Ascii.eqb c backslash); [reflexivity|].
  destruct (Z.of_N (N_of_ascii c) <? 32); reflexivity.
Qed.

Lemma parse_chars_escape (c : ascii) (X : list ascii) :
  parse_chars (list_ascii_of_string (escape c) ++ X)
  = match parse_chars X with
    | Some (str, rest) => Some (String c str, rest)
    | None => None
    end.
Proof.
  destruct c as [[] [] [] [] [] [] [] []]; reflexivity.
Qed.

Lemma parse_chars_quote_chars (s : string) (rest : list ascii) :
  parse_chars (list_ascii_of_string (quote_chars s) ++ rest) = Some (s, rest).
Proof.
  induction s as [|c s IH].
  - reflexivity.
  - rewrite quote_chars_String, chars_app, <- app_assoc, parse_chars_escape, IH.
    reflexivity.
Qed.


(** *** Numbers *)



Lemma value_end_no_digit (rest : list ascii) : value_end rest -> no_digit rest.
Proof. destruct rest as [|c r]; simpl; [auto|]. intros [-> | [-> | ->]]; reflexivity. Qed.

Lemma parse_digits_uint (d : Decimal.uint) (rest : list ascii) (acc n : Z) :
  no_digit rest ->
  parse_digits (list_ascii_of_string (NilEmpty.string_of_uint d) ++ rest) acc n
  = (uint_value d acc, n + Z.of_nat (Decimal.nb_digits d), rest).
Proof.
  intros Hrest. revert acc n.
  induction d; intros acc n; cbn [NilEmpty.string_of_uint list_ascii_of_string app].
  1: { cbn [uint_value Decimal.nb_digits]. rewrite Z.add_0_r.
       destruct rest as [|c r]; [reflexivity|]. simpl in Hrest. simpl. now rewrite Hrest. }
  all: cbn [parse_digits];
    match goal with
    | |- context [Js.is_digit ?c] => change (Js.is_digit c) with true
    end; cbv iota; rewrite IHd; cbn [uint_value Decimal.nb_digits];
    f_equal; f_equal; lia.
Qed.

Lemma uint_value_acc (d : Decimal.uint) (acc : positive) :
  uint_value d (Z.pos acc) = Z.pos (Pos.of_uint_acc d acc).
Proof.
  revert acc. induction d; intros acc; cbn [uint_value Pos.of_uint_acc];
    [reflexivity | | | | | | | | | |];
    match goal with
    | |- uint_value _ ?z = _ =>
      match goal with
      | |- _ = Z.pos (Pos.of_uint_acc _ ?q) =>
        replace z with (Z.pos q) by lia; apply IHd
      end
    end.
Qed.

Lemma uint_value_of_uint (d : Decimal.uint) :
  uint_value d 0 = Z.of_N (Pos.of_uint d).
Proof.
  induction d; cbn [uint_value Pos.of_uint]; [reflexivity | exact IHd | | | | | | | | |];
    cbn [Z.mul Z.add Z.of_N]; apply uint_value_acc.
Qed.

Lemma uint_value_to_uint (p : positive) : uint_value (Pos.to_uint p) 0 = Z.pos p.
Proof. now rewrite uint_value_of_uint, DecimalPos.Unsigned.of_to. Qed.

(** A positive number is printed without a leading zero. *)
Lemma to_uint_head (p : positive) :
  exists c s,
    NilEmpty.string_of_uint (Pos.to_uint p) = String c s
    /\ Js.is_digit c = true /\ Ascii.eqb c "0" = false.
Proof.
  assert (Hn : Decimal.unorm (Pos.to_uint p) = Pos.to_uint p).
  { rewrite <- DecimalPos.Unsigned.to_of, DecimalPos.Unsigned.of_to. reflexivity. }
  pose proof (Unsigned.to_uint_nonzero p) as Hz.
  assert (Hh : Decimal.nzhead (Pos.to_uint p) = Pos.to_uint p).
  { rewrite <- Hn at 2. symmetry. apply unorm_nzhead.
    intros H. apply Hz. rewrite <- Hn. now apply unorm_0. }
  pose proof (nzhead_nonzero (Pos.to_uint p)) as Hnz. rewrite Hh in Hnz.
  pose proof (Unsigned.to_uint_nonnil p) as Hnil.
  destruct (Pos.to_uint p); try (eexists _, _; repeat split; reflexivity).
  - now elim Hnil.
  - now elim (Hnz u).
Qed.

Lemma nb_digits_to_uint (p : positive) : (1 <= Decimal.nb_digits (Pos.to_uint p))%nat.
Proof.
  pose proof (Unsigned.to_uint_nonnil p). destruct (Pos.to_uint p); simpl; try lia.
  contradiction.
Qed.

(** An unsigned integer at the head of a text. *)
Lemma parse_digits_natural (z : Z) (rest : list ascii) :
  0 <= z -> no_digit rest ->
  exists n c s,
    list_ascii_of_string (Js.string_of_Z z) = c :: s
    /\ Js.is_digit c = true
    /\ (Ascii.eqb c "0" && negb (n =? 1) = false)
    /\ 1 <= n
    /\ parse_digits (list_ascii_of_string (Js.string_of_Z z) ++ rest) 0 0 = (z, n, rest).
Proof.
  intros Hz Hrest. destruct z as [|p|p]; [| |lia].
  - exists 1, "0"%char, []. repeat split; try reflexivity; try lia.
    destruct rest as [|c r]; [reflexivity|]. simpl in *. now rewrite Hrest.
  - destruct (to_uint_head p) as (c & s & Hs & Hd & H0).
    pose proof (Unsigned.to_uint_nonnil p) as Hnil.
    assert (Htext : Js.string_of_Z (Z.pos p) = NilEmpty.string_of_uint (Pos.to_uint p)).
    { unfold Js.string_of_Z. simpl. destruct (Pos.to_uint p); try reflexivity. contradiction. }
    exists (Z.of_nat (Decimal.nb_digits (Pos.to_uint p))), c, (list_ascii_of_string s).
    rewrite Htext.
    split; [now rewrite Hs|]. split; [exact Hd|]. split; [now rewrite H0|].
    split; [pose proof (nb_digits_to_uint p); lia|].
    rewrite parse_digits_uint by exact Hrest. now rewrite uint_value_to_uint.
Qed.


Lemma string_of_Z_neg (p : positive) :
  Js.string_of_Z (Z.neg p) = String "-" (Js.string_of_Z (Z.pos p)).
Proof.
  unfold Js.string_of_Z. simpl.
  pose proof (Unsigned.to_uint_nonnil p). destruct (Pos.to_uint p); reflexivity.
Qed.

Lemma digit_differs (c x : ascii) :
  Js.is_digit c = true -> Js.is_digit x = false -> Ascii.eqb c x = false.
Proof.
  intros Hc Hx. destruct (Ascii.eqb c x) eqn:Heq; [|reflexivity].
  apply Ascii.eqb_eq in Heq. congruence.
Qed.

Lemma parse_fraction_none (ip : Z) (T : list ascii) :
  match T with [] => True | c :: _ => Ascii.eqb c "." = false end ->
  parse_fraction T ip = Some (ip, 0, T).
Proof. destruct T as [|c r]; simpl; [reflexivity|]. now intros ->. Qed.

Lemma parse_exponent_none (T : list ascii) :
  match T with [] => True | c :: _ => Ascii.eqb c "e" || Ascii.eqb c "E" = false end ->
  parse_exponent T = Some (0, T).
Proof. destruct T as [|c r]; simpl; [reflexivity|]. now intros ->. Qed.

Lemma parse_exponent_text (e : Z) (rest : list ascii) :
  e <> 0 -> no_digit rest ->
  parse_exponent ("e"%char :: list_ascii_of_string (Js.string_of_Z e) ++ rest)
  = Some (e, rest).
Proof.
  intros He Hrest. cbn [parse_exponent]. change (Ascii.eqb "e" "e" || Ascii.eqb "e" "E") with true.
  cbv iota. destruct e as [|p|p]; [congruence| |].
  - destruct (parse_digits_natural (Z.pos p) rest) as (n & c & s & Hs & Hd & _ & Hn & Hp);
      [lia | exact Hrest |].
    rewrite Hs in *. cbn [app].
    rewrite (digit_differs c "-" Hd eq_refl), (digit_differs c "+" Hd eq_refl).
    change (c :: s ++ rest) with ((c :: s) ++ rest). rewrite Hp.
    replace (n =? 0) with false by (symmetry; apply Z.eqb_neq; lia). reflexivity.
  - rewrite string_of_Z_neg. cbn [list_ascii_of_string app].
    change (Ascii.eqb "-" "-") with true. cbv iota.
    destruct (parse_digits_natural (Z.pos p) rest) as (n & c & s & Hs & Hd & _ & Hn & Hp);
      [lia | exact Hrest |].
    rewrite Hp.
    replace (n =? 0) with false by (symmetry; apply Z.eqb_neq; lia). reflexivity.
Qed.

Lemma value_end_no_point (rest : list ascii) :
  value_end rest -> match rest with [] => True | c :: _ => Ascii.eqb c "." = false end.
Proof. destruct rest as [|c r]; simpl; [auto|]. intros [-> | [-> | ->]]; reflexivity. Qed.

Lemma value_end_no_exponent (rest : list ascii) :
  value_end rest ->
  match rest with [] => True | c :: _ => Ascii.eqb c "e" || Ascii.eqb c "E" = false end.
Proof. destruct rest as [|c r]; simpl; [auto|]. intros [-> | [-> | ->]]; reflexivity. Qed.

(** The rest of a number after its sign. *)
Lemma parse_number_natural (z e : Z) (rest : list ascii) :
  0 <= z -> value_end rest ->
  let tail := if e =? 0 then rest
              else "e"%char :: list_ascii_of_string (Js.string_of_Z e) ++ rest in
  exists n c s,
    list_ascii_of_string (Js.string_of_Z z) = c :: s
    /\ Js.is_digit c = true
    /\ (Ascii.eqb c "0" && negb (n =? 1) = false)
    /\ parse_digits (list_ascii_of_string (Js.string_of_Z z) ++ tail) 0 0 = (z, n, tail)
    /\ parse_fraction tail z = Some (z, 0, tail)
    /\ parse_exponent tail = Some (e, rest).
Proof.
  intros Hz Hrest tail.
  assert (Htail : no_digit tail).
  { subst tail. destruct (e =? 0); [now apply value_end_no_digit | reflexivity]. }
  destruct (parse_digits_natural z tail Hz Htail) as (n & c & s & Hs & Hd & H0 & Hn & Hp).
  exists n, c, s. repeat split; try assumption; subst tail.
  - destruct (e =? 0); [now apply parse_fraction_none, value_end_no_point | reflexivity].
  - destruct (e =? 0) eqn:He.
    + apply Z.eqb_eq in He. subst e. now apply parse_exponent_none, value_end_no_exponent.
    + apply parse_exponent_text; [now apply Z.eqb_neq | now apply value_end_no_digit].
Qed.

Lemma number_text_app (m e : Z) (rest : list ascii) :
  list_ascii_of_string (number_text m e) ++ rest
  = list_ascii_of_string (Js.string_of_Z m)
    ++ (if e =? 0 then rest
        else "e"%char :: list_ascii_of_string (Js.string_of_Z e) ++ rest).
Proof.
  unfold number_text. destruct (e =? 0); [reflexivity|].
  rewrite !chars_app, <- !app_assoc. reflexivity.
Qed.

Lemma parse_number_text (m e : Z) (rest : list ascii) :
  value_end rest ->
  parse_number (list_ascii_of_string (number_text m e) ++ rest) = Some (JNumber m e, rest).
Proof.
  intros Hrest. rewrite number_text_app.
  destruct (Z_lt_le_dec m 0) as [Hneg | Hpos].
  - destruct m as [|p|p]; try lia.
    rewrite string_of_Z_neg. cbn [list_ascii_of_string app].
    destruct (parse_number_natural (Z.pos p) e rest) as (n & c & s & Hs & Hd & H0 & Hp & Hf & He);
      [lia | exact Hrest |].
    unfold parse_number. change (Ascii.eqb "-" "-") with true. cbv iota beta.
    rewrite Hs in *. cbn [app]. rewrite Hd.
    change (c :: s ++ ?t) with ((c :: s) ++ t). rewrite Hp, H0, Hf, He.
    repeat f_equal. lia.
  - destruct (parse_number_natural m e rest) as (n & c & s & Hs & Hd & H0 & Hp & Hf & He);
      [lia | exact Hrest |].
    unfold parse_number. rewrite Hs in *. cbn [app].
    rewrite (digit_differs c "-" Hd eq_refl). cbv iota beta. rewrite Hd.
    change (c :: s ++ ?t) with ((c :: s) ++ t). rewrite Hp, H0, Hf, He.
    repeat f_equal. lia.
Qed.


(** *** Values *)

Lemma number_head (m e : Z) :
  exists c s,
    list_ascii_of_string (number_text m e) = c :: s
    /\ (c = "-"%char \/ Js.is_digit c = true).
Proof.
  pose proof (number_text_app m e []) as H. rewrite app_nil_r in H. rewrite H. clear H.
  destruct m as [|p|p].
  - eexists _, _. split; [reflexivity | now right].
  - destruct (parse_digits_natural (Z.pos p) []) as (n & c & s & Hs & Hd & _);
      [lia | exact I |].
    rewrite Hs. eexists _, _. split; [reflexivity | now right].
  - rewrite string_of_Z_neg. eexists _, _. split; [reflexivity | now left].
Qed.

Lemma digit_facts (c : ascii) :
  c = "-"%char \/ Js.is_digit c = true ->
  is_ws c = false
  /\ Ascii.eqb c "n" = false /\ Ascii.eqb c "t" = false /\ Ascii.eqb c "f" = false
  /\ Ascii.eqb c dquote = false /\ Ascii.eqb c "[" = false /\ Ascii.eqb c "{" = false
  /\ Ascii.eqb c "]" = false /\ Ascii.eqb c "}" = false.
Proof.
  intros [-> | Hd]; [repeat split; reflexivity|].
  split.
  { destruct (is_ws c) eqn:Hw; [|reflexivity]. exfalso.
    unfold is_ws in Hw. unfold Js.is_digit in Hd. cbv zeta in *.
    apply andb_prop in Hd as [H1 H2]. apply N.leb_le in H1.
    repeat (apply orb_prop in Hw as [Hw | Hw]); apply N.eqb_eq in Hw; lia. }
  repeat split; apply digit_differs; (exact Hd || reflexivity).
Qed.

Lemma stringify_head (v : JSONValue) :
  exists c s, list_ascii_of_string (stringify v) = c :: s /\ value_start c.
Proof.
  destruct v as [|[|]|m e|str|items|members];
    try (eexists _, _; split; [reflexivity | repeat split; reflexivity]).
  destruct (number_head m e) as (c & s & Hs & Hc).
  exists c, s. split; [exact Hs|].
  destruct (digit_facts c Hc) as (? & _ & _ & _ & _ & _ & _ & ? & ?). now repeat split.
Qed.

Lemma skip_ws_start (c : ascii) (s : list ascii) : is_ws c = false -> skip_ws (c :: s) = c :: s.
Proof. intros H. simpl. now rewrite H. Qed.

Lemma elements_text_one (x : JSONValue) : elements_text [x] = stringify x +:+ "]".
Proof. reflexivity. Qed.

Lemma elements_text_more (x y : JSONValue) (r : list JSONValue) :
  elements_text (x :: y :: r) = stringify x +:+ "," +:+ elements_text (y :: r).
Proof. reflexivity. Qed.

Lemma members_text_one (k : string) (x : JSONValue) :
  members_text [(k, x)] = quote k +:+ ":" +:+ stringify x +:+ "}".
Proof. reflexivity. Qed.

Lemma members_text_more (k : string) (x : JSONValue) (p : string * JSONValue)
    (r : list (string * JSONValue)) :
  members_text ((k, x) :: p :: r)
  = quote k +:+ ":" +:+ stringify x +:+ "," +:+ members_text (p :: r).
Proof. reflexivity. Qed.

Section Step.
Variable n : nat.
Hypothesis parse_smaller :
  forall v, (jsize v <= n)%nat ->
  forall fuel rest, (jsize v <= fuel)%nat -> value_end rest ->
  parse_value fuel (list_ascii_of_string (stringify v) ++ rest) = Some (v, rest).

Lemma parse_elements_text (items : list JSONValue) :
  items <> [] -> (items_size items <= n)%nat ->
  forall fuel rest, (1 + items_size items <= fuel)%nat -> value_end rest ->
  parse_elements fuel (list_ascii_of_string (elements_text items) ++ rest)
  = Some (items, rest).
Proof using parse_smaller.
  induction items as [|x items IH]; [congruence|].
  intros _ Hn fuel rest Hfuel Hrest. cbn [items_size fold_right] in *.
  fold (items_size items) in *.
  destruct fuel as [|f]; [lia|]. cbn [parse_elements].
  destruct items as [|y items].
  - rewrite elements_text_one, chars_app, <- app_assoc.
    rewrite parse_smaller; [| lia | simpl in *; lia | simpl; auto].
    reflexivity.
  - rewrite elements_text_more, !chars_app, <- !app_assoc.
    pose proof (jsize_pos x).
    rewrite parse_smaller; [| lia | lia | simpl; auto].
    cbn [list_ascii_of_string app skip_ws]. change (is_ws ",") with false. cbv iota.
    change (Ascii.eqb "," ",") with true. cbv iota.
    rewrite IH; [reflexivity | discriminate | lia | lia | exact Hrest].
Qed.

Lemma parse_members_text (members : list (string * JSONValue)) :
  members <> [] -> (members_size members <= n)%nat ->
  forall fuel rest, (1 + members_size members <= fuel)%nat -> value_end rest ->
  parse_members fuel (list_ascii_of_string (members_text members) ++ rest)
  = Some (members, rest).
Proof using parse_smaller.
  induction members as [|[k x] members IH]; [congruence|].
  intros _ Hn fuel rest Hfuel Hrest. cbn [members_size fold_right snd] in *.
  fold (members_size members) in *.
  destruct fuel as [|f]; [lia|]. cbn [parse_members].
  destruct members as [|p members].
  - rewrite members_text_one. unfold quote. rewrite !chars_app, <- !app_assoc.
    cbn [list_ascii_of_string app skip_ws]. change (is_ws dquote) with false. cbv iota.
    rewrite Ascii.eqb_refl, parse_chars_quote_chars.
    cbn [list_ascii_of_string app skip_ws]. change (is_ws ":") with false. cbv iota.
    change (Ascii.eqb ":" ":") with true. cbv iota.
    rewrite parse_smaller; [| lia | simpl in *; lia | simpl; auto].
    reflexivity.
  - rewrite members_text_more. unfold quote. rewrite !chars_app, <- !app_assoc.
    cbn [list_ascii_of_string app skip_ws]. change (is_ws dquote) with false. cbv iota.
    rewrite Ascii.eqb_refl, parse_chars_quote_chars.
    cbn [list_ascii_of_string app skip_ws]. change (is_ws ":") with false. cbv iota.
    change (Ascii.eqb ":" ":") with true. cbv iota.
    pose proof (jsize_pos x).
    rewrite parse_smaller; [| lia | lia | simpl; auto].
    cbn [list_ascii_of_string app skip_ws]. change (is_ws ",") with false. cbv iota.
    change (Ascii.eqb "," ",") with true. cbv iota.
    rewrite IH; [reflexivity | discriminate | lia | lia | exact Hrest].
Qed.

End Step.

Lemma parse_value_stringify (n : nat) :
  forall v, (jsize v <= n)%nat ->
  forall fuel rest, (jsize v <= fuel)%nat -> value_end rest ->
  parse_value fuel (list_ascii_of_string (stringify v) ++ rest) = Some (v, rest).
Proof.
  induction n as [|n IH]; intros v Hn fuel rest Hfuel Hrest.
  { pose proof (jsize_pos v). lia. }
  destruct fuel as [|f]; [pose proof (jsize_pos v); lia|].
  destruct v as [|[|]|m e|str|items|members].
  - reflexivity.
  - reflexivity.
  - reflexivity.
  - change (stringify (JNumber m e)) with (number_text m e).
    destruct (number_head m e) as (c & s & Hs & Hc).
    destruct (digit_facts c Hc) as (Hw & H1 & H2 & H3 & H4 & H5 & H6 & _).
    cbn [parse_value]. pose proof (parse_number_text m e rest Hrest) as Hp.
    rewrite Hs in *. cbn [app] in *. rewrite skip_ws_start by exact Hw.
    now rewrite H1, H2, H3, H4, H5, H6.
  - change (stringify (JString str)) with (String dquote (quote_chars str)).
    cbn [parse_value list_ascii_of_string app skip_ws].
    change (is_ws dquote) with false. cbv iota.
    change (Ascii.eqb dquote "n") with false. change (Ascii.eqb dquote "t") with false.
    change (Ascii.eqb dquote "f") with false. cbv iota. rewrite Ascii.eqb_refl.
    now rewrite parse_chars_quote_chars.
  - rewrite jsize_JArray in *. rewrite stringify_JArray, chars_app, <- app_assoc.
    cbn [parse_value list_ascii_of_string app skip_ws].
    change (is_ws "[") with false. cbv iota.
    change (Ascii.eqb "[" "n") with false. change (Ascii.eqb "[" "t") with false.
    change (Ascii.eqb "[" "f") with false. change (Ascii.eqb "[" dquote) with false.
    change (Ascii.eqb "[" "[") with true. cbv iota.
    destruct items as [|x items]; [reflexivity|].
    rewrite (parse_elements_text n IH); [| discriminate | lia | lia | exact Hrest].
    destruct (stringify_head x) as (c & s & Hs & Hw & Hb & _).
    assert (Hhead : exists s', list_ascii_of_string (elements_text (x :: items)) ++ rest
                               = c :: s').
    { destruct items as [|y items].
      - rewrite elements_text_one, chars_app, Hs. simpl. eauto.
      - rewrite elements_text_more, chars_app, Hs. simpl. eauto. }
    destruct Hhead as [s' ->]. rewrite skip_ws_start by exact Hw. now rewrite Hb.
  - rewrite jsize_JObject in *. rewrite stringify_JObject, chars_app, <- app_assoc.
    cbn [parse_value list_ascii_of_string app skip_ws].
    change (is_ws "{") with false. cbv iota.
    change (Ascii.eqb "{" "n") with false. change (Ascii.eqb "{" "t") with false.
    change (Ascii.eqb "{" "f") with false. change (Ascii.eqb "{" dquote) with false.
    change (Ascii.eqb "{" "[") with false. change (Ascii.eqb "{" "{") with true. cbv iota.
    destruct members as [|[k x] members]; [reflexivity|].
    rewrite (parse_members_text n IH); [| discriminate | lia | lia | exact Hrest].
    assert (Hhead : exists s', list_ascii_of_string (members_text ((k, x) :: members)) ++ rest
                               = dquote :: s').
    { destruct members as [|p members].
      - rewrite members_text_one. simpl. eauto.
      - rewrite members_text_more. simpl. eauto. }
    destruct Hhead as [s' ->]. reflexivity.
Qed.

Lemma length_chars_app (a b : string) :
  List.length (list_ascii_of_string (a +:+ b))
  = (List.length (list_ascii_of_string a) + List.length (list_ascii_of_string b))%nat.
Proof. now rewrite chars_app, List.length_app. Qed.

(** A value is printed with at least as many characters as it has nodes. *)
Lemma jsize_length (n : nat) :
  forall v, (jsize v <= n)%nat ->
  (jsize v <= List.length (list_ascii_of_string (stringify v)))%nat.
Proof.
  induction n as [|n IH]; intros v Hn; [pose proof (jsize_pos v); lia|].
  destruct v as [|[|]|m e|str|items|members]; try (simpl; lia).
  - change (stringify (JNumber m e)) with (number_text m e).
    destruct (number_head m e) as (c & s & -> & _). simpl. lia.
  - rewrite jsize_JArray in *. rewrite stringify_JArray, length_chars_app.
    change (List.length (list_ascii_of_string "[")) with 1%nat.
    enough (1 + items_size items
            <= List.length (list_ascii_of_string (elements_text items)))%nat by lia.
    assert (Hn' : (items_size items <= n)%nat) by lia. clear Hn.
    induction items as [|x items IHi]; [simpl; lia|].
    cbn [items_size fold_right] in *. fold (items_size items) in *.
    pose proof (IH x ltac:(lia)).
    destruct items as [|y items].
    + rewrite elements_text_one, length_chars_app. simpl. lia.
    + rewrite elements_text_more, !length_chars_app.
      specialize (IHi ltac:(lia)). simpl (List.length (list_ascii_of_string ",")). lia.
  - rewrite jsize_JObject in *. rewrite stringify_JObject, length_chars_app.
    change (List.length (list_ascii_of_string "{")) with 1%nat.
    enough (1 + members_size members
            <= List.length (list_ascii_of_string (members_text members)))%nat by lia.
    assert (Hn' : (members_size members <= n)%nat) by lia. clear Hn.
    induction members as [|[k x] members IHm]; [simpl; lia|].
    cbn [members_size fold_right snd] in *. fold (members_size members) in *.
    pose proof (IH x ltac:(lia)).
    destruct members as [|p members].
    + rewrite members_text_one, !length_chars_app.
      change (members_size []) with 0%nat. simpl (List.length (list_ascii_of_string "}")).
      lia.
    + rewrite members_text_more, !length_chars_app.
      specialize (IHm ltac:(lia)). lia.
Qed.

(** [JSON.parse(JSON.stringify(v))] is [v]. *)
Lemma parse_stringify (v : JSONValue) : Json.parse (Json.stringify v) = Some v.
Proof.
  unfold Json.parse.
  pose proof (jsize_length (jsize v) v (le_n _)) as Hlen.
  pose proof (parse_value_stringify (jsize v) v (le_n _)
                (2 * List.length (list_ascii_of_string (stringify v)) + 2) []
                ltac:(lia) I) as Hp.
  rewrite app_nil_r in Hp. now rewrite Hp.
Qed.

End JsonFacts.

Module TransportProtocol.
Import Json Classifier Data Client Traces Scenarios Shapes.
Import TransportFacts.

Section OneCall.
Variable E : Env.
Variables (c : GrokClient) (endpoint modelId : string) (messages : list GrokMessage).
Variables (tools : option (list GrokTool)) (searchOptions : option SearchOptions).

Let rq : SdkRequest := request c messages tools modelId searchOptions.

(** The loop of [chat] from [attempt] on: it makes [k + 1] requests, the
    first [k] fail with a retryable error, and the last one decides. *)
Lemma chat_attempts_protocol (remaining attempt : nat) (lastError : option RawError)
    (w : World) :
  (0 < remaining)%nat ->
  (attempt + remaining = MAX_RETRIES + 1)%nat ->
  exists k new,
    (k < remaining)%nat
    /\ snd (chat_attempts E remaining attempt lastError c endpoint modelId messages tools
                          searchOptions w) = w ++ new
    /\ List.filter is_attempt_or_sleep new
       = retry_schedule E (EGenerateText rq) (S k) attempt (count is_random w)
    /\ count is_random new = k
    /\ (forall i, (i < k)%nat ->
        exists err, generateText E (count is_sdk_call w + i) rq = inl err
                    /\ info_retryable (classifyError err) = true)
    /\ match generateText E (count is_sdk_call w + k) rq with
       | inr result =>
         exists now,
           fst (chat_attempts E remaining attempt lastError c endpoint modelId messages
                              tools searchOptions w) = inr (response_of now result)
       | inl err =>
         (info_retryable (classifyError err) = false \/ (attempt + k = MAX_RETRIES)%nat)
         /\ fst (chat_attempts E remaining attempt lastError c endpoint modelId messages
                               tools searchOptions w)
            = inl (GrokApiError (classifyError err))
       end.
Proof.
  revert attempt lastError w.
  induction remaining as [|remaining IH]; intros attempt lastError w Hpos Hsum; [lia|].
  cbn [chat_attempts]. fold rq.
  destruct (generateText E (count is_sdk_call w) rq) as [err|result] eqn:Hgen.
  - destruct (info_retryable (classifyError err)) eqn:Hretry; cbn [andb].
    + destruct (attempt <? MAX_RETRIES)%nat eqn:Hlt.
      * apply Nat.ltb_lt in Hlt.
        match goal with
        | |- context [chat_attempts E _ _ _ _ _ _ _ _ _ ?w'] => set (w1 := w')
        end.
        destruct (IH (S attempt) (Some err) w1) as (k & new & Hk & Hrun & Hsched & Hrnd & Hfail & Hlast);
          [lia | lia |].
        assert (Hsdk : count is_sdk_call w1 = S (count is_sdk_call w)).
        { subst w1. unfold emit. rewrite !count_app, count_info by reflexivity.
          unfold count. simpl. lia. }
        assert (Hrnd1 : count is_random w1 = S (count is_random w)).
        { subst w1. unfold emit. rewrite !count_app, count_info by reflexivity.
          unfold count. simpl. lia. }
        exists (S k). eexists. split; [lia|]. split; [|split; [|split; [|split]]].
        -- rewrite Hrun. subst w1.
           unfold emit, Logger.logApiError, Logger.error, Logger.appendLine.
           rewrite <- !app_assoc. reflexivity.
        -- rewrite !List.filter_app, filter_info by reflexivity.
           rewrite Hsched, Hrnd1. cbn [List.filter app]. unfold is_attempt_or_sleep. simpl.
           rewrite count_app. unfold count at 2. simpl. rewrite Nat.add_0_r.
           reflexivity.
        -- rewrite !count_app, count_info by reflexivity. rewrite Hrnd.
           unfold count. simpl. lia.
        -- intros i Hi. destruct i as [|i].
           ++ exists err. rewrite Nat.add_0_r. now split.
           ++ destruct (Hfail i) as (err' & Herr' & Hr'); [lia|].
              exists err'. rewrite Hsdk in Herr'. split; [|exact Hr'].
              rewrite <- Herr'. f_equal. lia.
        -- rewrite Hsdk in Hlast.
           replace (count is_sdk_call w + S k)%nat with (S (count is_sdk_call w) + k)%nat
             by lia.
           destruct (generateText E (S (count is_sdk_call w) + k) rq) as [err'|result'].
           ++ destruct Hlast as [Hwhy Hres]. split; [|exact Hres].
              destruct Hwhy as [Hwhy | Hwhy]; [now left | right; lia].
           ++ exact Hlast.
      * apply Nat.ltb_ge in Hlt.
        exists 0%nat. eexists. split; [lia|]. split; [|split; [|split; [|split]]].
        -- unfold emit, Logger.logApiError, Logger.error, Logger.appendLine. cbn [snd].
           rewrite <- !app_assoc. reflexivity.
        -- reflexivity.
        -- reflexivity.
        -- intros i Hi. lia.
        -- rewrite Nat.add_0_r, Hgen. split; [right; unfold MAX_RETRIES in *; lia|].
           reflexivity.
    + exists 0%nat. eexists. split; [lia|]. split; [|split; [|split; [|split]]].
      * unfold emit, Logger.logApiError, Logger.error, Logger.appendLine. cbn [snd].
        rewrite <- !app_assoc. reflexivity.
      * reflexivity.
      * reflexivity.
      * intros i Hi. lia.
      * rewrite Nat.add_0_r, Hgen. split; [now left | reflexivity].
  - exists 0%nat. eexists. split; [lia|]. split; [|split; [|split; [|split]]].
    + cbn [snd]. unfold emit. rewrite <- app_assoc. reflexivity.
    + cbn [app List.filter]. unfold is_attempt_or_sleep at 1. simpl.
      unfold Logger.logApiResponse, Logger.appendLine. now destruct (debug E).
    + cbn [app]. unfold count, Logger.logApiResponse, Logger.appendLine.
      now destruct (debug E).
    + intros i Hi. lia.
    + rewrite Nat.add_0_r, Hgen. eexists. reflexivity.
Qed.


Lemma script_chunks_app (s1 s2 : list Action) :
  script_chunks (s1 ++ s2) = script_chunks s1 ++ script_chunks s2.
Proof.
  induction s1 as [|[e|chunk] s1 IH]; simpl; [reflexivity | exact IH | now rewrite IH].
Qed.

Lemma script_chunks_Act (l : list Effect) : script_chunks (List.map Act l) = [].
Proof. induction l as [|e l IH]; simpl; [reflexivity | exact IH]. Qed.

Lemma concat_map_seq_S {A : Type} (f : nat -> list A) (k : nat) :
  concat (List.map f (seq 0 (S k)))
  = f 0%nat ++ concat (List.map (fun i => f (S i)) (seq 0 k)).
Proof. cbn [seq List.map concat]. now rewrite <- seq_shift, List.map_map. Qed.

(** The loop of [chatStream] from [attempt] on. *)
Lemma chatStream_attempts_protocol (remaining attempt : nat) (lastError : option RawError)
    (n_sdk n_random : nat) :
  (0 < remaining)%nat ->
  (attempt + remaining = MAX_RETRIES + 1)%nat ->
  let run := chatStream_attempts E remaining attempt lastError c endpoint modelId messages
                                 tools searchOptions n_sdk n_random in
  exists k,
    (k < remaining)%nat
    /\ List.filter is_attempt_or_sleep (script_effects (fst run))
       = retry_schedule E (EStreamText rq) (S k) attempt n_random
    /\ script_chunks (fst run)
       = concat (List.map (fun i => converted (fst (streamText E (n_sdk + i) rq)))
                          (seq 0 (S k)))
    /\ (forall i, (i < k)%nat ->
        exists err, snd (streamText E (n_sdk + i) rq) = Some err
                    /\ info_retryable (classifyError err) = true)
    /\ match snd (streamText E (n_sdk + k) rq) with
       | None => snd run = None
       | Some err =>
         (info_retryable (classifyError err) = false \/ (attempt + k = MAX_RETRIES)%nat)
         /\ snd run = Some (GrokApiError (classifyError err))
       end.
Proof.
  revert attempt lastError n_sdk n_random.
  induction remaining as [|remaining IH]; intros attempt lastError n_sdk n_random Hpos Hsum;
    [lia|].
  cbn [chatStream_attempts]. fold rq.
  destruct (streamText E n_sdk rq) as [chunks [err|]] eqn:Hst.
  - destruct (info_retryable (classifyError err)) eqn:Hretry; cbn [andb].
    + destruct (attempt <? MAX_RETRIES)%nat eqn:Hlt.
      * apply Nat.ltb_lt in Hlt.
        destruct (IH (S attempt) (Some err) (S n_sdk) (S n_random))
          as (k & Hk & Hsched & Hchunks & Hfail & Hlast); [lia | lia |].
        destruct (chatStream_attempts E remaining _ _ _ _ _ _ _ _ _ _) as [rest outcome].
        cbn [fst snd] in *.
        exists (S k). split; [lia|]. split; [|split; [|split]].
        -- rewrite !script_effects_app, script_effects_Act. simpl.
           rewrite script_effects_chunks, script_effects_app, script_effects_Act. simpl.
           rewrite !List.filter_app, filter_info by reflexivity.
           cbn [List.filter app]. unfold is_attempt_or_sleep at 1. simpl.
           rewrite Hsched. reflexivity.
        -- rewrite !script_chunks_app, script_chunks_Act. cbn [script_chunks app].
           rewrite script_chunks_app, script_chunks_Act. cbn [script_chunks app].
           rewrite Hchunks, (concat_map_seq_S _ (S k)), Nat.add_0_r, Hst. cbn [fst].
           change (script_chunks (concat (List.map convert_chunk chunks)))
             with (converted chunks).
           f_equal. f_equal. apply List.map_ext. intros i.
           replace (n_sdk + S i)%nat with (S n_sdk + i)%nat by lia. reflexivity.
        -- intros i Hi. destruct i as [|i].
           ++ exists err. rewrite Nat.add_0_r, Hst. now split.
           ++ destruct (Hfail i) as (err' & Herr' & Hr'); [lia|].
              exists err'. split; [|exact Hr'].
              replace (n_sdk + S i)%nat with (S n_sdk + i)%nat by lia. exact Herr'.
        -- replace (n_sdk + S k)%nat with (S n_sdk + k)%nat by lia.
           destruct (snd (streamText E (S n_sdk + k) rq)) as [err'|].
           ++ destruct Hlast as [Hwhy Hres]. split; [|exact Hres].
              destruct Hwhy as [Hwhy | Hwhy]; [now left | right; lia].
           ++ exact Hlast.
      * apply Nat.ltb_ge in Hlt. cbn [fst snd].
        exists 0%nat. split; [lia|]. split; [|split; [|split]].
        -- rewrite !script_effects_app, script_effects_Act. simpl.
           now rewrite script_effects_chunks.
        -- rewrite !script_chunks_app, script_chunks_Act. cbn [script_chunks app seq List.map concat].
           rewrite Nat.add_0_r, Hst, !app_nil_r. reflexivity.
        -- intros i Hi. lia.
        -- rewrite Nat.add_0_r, Hst. cbn [snd].
           split; [right; unfold MAX_RETRIES in *; lia | reflexivity].
    + cbn [fst snd].
      exists 0%nat. split; [lia|]. split; [|split; [|split]].
      * rewrite !script_effects_app, script_effects_Act. simpl.
        now rewrite script_effects_chunks.
      * rewrite !script_chunks_app, script_chunks_Act. cbn [script_chunks app seq List.map concat].
        rewrite Nat.add_0_r, Hst, !app_nil_r. reflexivity.
      * intros i Hi. lia.
      * rewrite Nat.add_0_r, Hst. cbn [snd]. split; [now left | reflexivity].
  - cbn [fst snd].
    exists 0%nat. split; [lia|]. split; [|split; [|split]].
    + rewrite !script_effects_app, script_effects_Act. simpl.
      rewrite script_effects_chunks. cbn [app List.filter]. unfold is_attempt_or_sleep at 1.
      simpl. unfold Logger.logApiResponse, Logger.appendLine. now destruct (debug E).
    + rewrite !script_chunks_app, script_chunks_Act. cbn [script_chunks app seq List.map concat].
      rewrite Nat.add_0_r, Hst, !app_nil_r. reflexivity.
    + intros i Hi. lia.
    + rewrite Nat.add_0_r, Hst. reflexivity.
Qed.

End OneCall.

Lemma count_sdk_retry_schedule (E : Env) (issue : Effect) (k attempt n_random : nat) :
  is_sdk_call issue = true ->
  count is_sdk_call (retry_schedule E issue (S k) attempt n_random) = S k.
Proof.
  intros Hissue. revert attempt n_random.
  induction k as [|k IH]; intros attempt n_random.
  - unfold count. simpl. now rewrite Hissue.
  - change (retry_schedule E issue (S (S k)) attempt n_random)
      with (issue :: ESleep (backoff attempt (Math_random E n_random))
                  :: retry_schedule E issue (S k) (S attempt) (S n_random)).
    specialize (IH (S attempt) (S n_random)). unfold count in *.
    cbn [List.filter]. rewrite Hissue. cbn [is_sdk_call List.length]. now rewrite IH.
Qed.

Lemma chat_protocol (E : Env) (c : GrokClient) (messages : list GrokMessage)
    (tools : option (list GrokTool)) (model : option string)
    (searchOptions : option SearchOptions) (w : World) :
  let rq := request c messages tools (Js.or_string model (currentModel c)) searchOptions in
  let n0 := count is_sdk_call w in
  exists k new,
    (k <= MAX_RETRIES)%nat
    /\ snd (chat E c messages tools model searchOptions w) = w ++ new
    /\ List.filter is_attempt_or_sleep new
       = retry_schedule E (EGenerateText rq) (S k) 0 (count is_random w)
    /\ count is_sdk_call new = S k
    /\ count is_random new = k
    /\ (forall i, (i < k)%nat ->
        exists err, generateText E (n0 + i) rq = inl err
                    /\ info_retryable (classifyError err) = true)
    /\ match generateText E (n0 + k) rq with
       | inr result =>
         exists now,
           fst (chat E c messages tools model searchOptions w)
           = inr (response_of now result)
       | inl err =>
         (info_retryable (classifyError err) = false \/ k = MAX_RETRIES)
         /\ fst (chat E c messages tools model searchOptions w)
            = inl (GrokApiError (classifyError err))
       end.
Proof.
  intros rq n0. unfold chat.
  match goal with
  | |- context [chat_attempts E _ _ _ _ _ _ _ _ _ ?w'] => set (w0 := w')
  end.
  destruct (chat_attempts_protocol E c
              (Js.or_string (baseURL c) "https://api.x.ai/v1")
              (Js.or_string model (currentModel c)) messages tools searchOptions
              (MAX_RETRIES + 1) 0 None w0)
    as (k & new & Hk & Hrun & Hsched & Hrnd & Hfail & Hlast);
    [unfold MAX_RETRIES; lia | reflexivity |].
  assert (Hsdk : count is_sdk_call w0 = n0).
  { subst w0 n0. rewrite count_app, count_logApiRequest by reflexivity. lia. }
  assert (Hrnd0 : count is_random w0 = count is_random w).
  { subst w0. rewrite count_app, count_logApiRequest by reflexivity. lia. }
  rewrite Hsdk, Hrnd0 in *. fold rq in Hsched, Hfail, Hlast.
  exists k. eexists. split; [unfold MAX_RETRIES in *; lia|].
  split; [rewrite Hrun; subst w0; rewrite <- app_assoc; reflexivity|].
  assert (Hfilter : List.filter is_attempt_or_sleep
                      (Logger.logApiRequest E "POST"
                         (Js.or_string (baseURL c) "https://api.x.ai/v1"
                          +:+ "/chat (model=" +:+ Js.or_string model (currentModel c)
                          +:+ ")")
                         (List.length messages) (has_length tools) ++ new)
                    = retry_schedule E (EGenerateText rq) (S k) 0 (count is_random w)).
  { rewrite List.filter_app, filter_attempts_request_line. exact Hsched. }
  split; [exact Hfilter|].
  split; [rewrite sdk_calls_of_attempts, Hfilter; now apply count_sdk_retry_schedule|].
  split; [rewrite count_app, count_logApiRequest by reflexivity; exact Hrnd|].
  split; [exact Hfail|].
  destruct (generateText E (n0 + k) rq) as [err|result]; [|exact Hlast].
  destruct Hlast as [Hwhy Hres]. split; [|exact Hres].
  destruct Hwhy as [Hwhy | Hwhy]; [now left | right; lia].
Qed.

Lemma chatStream_protocol (E : Env) (c : GrokClient)
    (messages : list GrokMessage) (tools : option (list GrokTool))
    (model : option string) (searchOptions : option SearchOptions) (w : World) :
  let rq := request c messages tools (Js.or_string model (currentModel c)) searchOptions in
  let n0 := count is_sdk_call w in
  let script := fst (chatStream E c messages tools model searchOptions w) in
  let outcome := snd (chatStream E c messages tools model searchOptions w) in
  exists k,
    (k <= MAX_RETRIES)%nat
    /\ List.filter is_attempt_or_sleep (script_effects script)
       = retry_schedule E (EStreamText rq) (S k) 0 (count is_random w)
    /\ count is_sdk_call (script_effects script) = S k
    /\ script_chunks script
       = concat (List.map (fun i => converted (fst (streamText E (n0 + i) rq)))
                          (seq 0 (S k)))
    /\ (forall i, (i < k)%nat ->
        exists err, snd (streamText E (n0 + i) rq) = Some err
                    /\ info_retryable (classifyError err) = true)
    /\ match snd (streamText E (n0 + k) rq) with
       | None => outcome = None
       | Some err =>
         (info_retryable (classifyError err) = false \/ k = MAX_RETRIES)
         /\ outcome = Some (GrokApiError (classifyError err))
       end.
Proof.
  intros rq n0 script outcome. subst script outcome. unfold chatStream.
  destruct (chatStream_attempts_protocol E c
              (Js.or_string (baseURL c) "https://api.x.ai/v1")
              (Js.or_string model (currentModel c)) messages tools searchOptions
              (MAX_RETRIES + 1) 0 None (count is_sdk_call w) (count is_random w))
    as (k & Hk & Hsched & Hchunks & Hfail & Hlast);
    [unfold MAX_RETRIES; lia | reflexivity |].
  destruct (chatStream_attempts E _ _ _ _ _ _ _ _ _ _ _) as [script outcome].
  cbn [fst snd] in *. fold rq n0 in Hsched, Hchunks, Hfail, Hlast.
  assert (Hfilter : List.filter is_attempt_or_sleep
                      (script_effects
                         (List.map Act
                            (Logger.logApiRequest E "POST"
                               (Js.or_string (baseURL c) "https://api.x.ai/v1"
                                +:+ "/chat/stream (model="
                                +:+ Js.or_string model (currentModel c) +:+ ")")
                               (List.length messages) (has_length tools)) ++ script))
                    = retry_schedule E (EStreamText rq) (S k) 0 (count is_random w)).
  { rewrite script_effects_app, script_effects_Act, List.filter_app,
      filter_attempts_request_line. exact Hsched. }
  exists k. split; [unfold MAX_RETRIES in *; lia|].
  split; [exact Hfilter|].
  split; [rewrite sdk_calls_of_attempts, Hfilter; now apply count_sdk_retry_schedule|].
  split; [rewrite script_chunks_app, script_chunks_Act; exact Hchunks|].
  split; [exact Hfail|].
  destruct (snd (streamText E (n0 + k) rq)) as [err|]; [|exact Hlast].
  destruct Hlast as [Hwhy Hres]. split; [|exact Hres].
  destruct Hwhy as [Hwhy | Hwhy]; [now left | right; lia].
Qed.


Lemma sdk_calls_filter (l : list Effect) :
  List.filter is_sdk_call l = List.filter is_sdk_call (List.filter is_attempt_or_sleep l).
Proof.
  induction l as [|e l IH]; [reflexivity|].
  destruct e; cbn [List.filter is_attempt_or_sleep is_sdk_call is_sleep orb]; auto;
    now rewrite IH.
Qed.

Lemma sdk_calls_retry_schedule (E : Env) (issue : Effect) (k attempt n_random : nat) :
  is_sdk_call issue = true ->
  List.filter is_sdk_call (retry_schedule E issue (S k) attempt n_random)
  = repeat issue (S k).
Proof.
  intros Hissue. revert attempt n_random.
  induction k as [|k IH]; intros attempt n_random.
  - cbn [retry_schedule List.filter repeat]. now rewrite Hissue.
  - change (retry_schedule E issue (S (S k)) attempt n_random)
      with (issue :: ESleep (backoff attempt (Math_random E n_random))
                  :: retry_schedule E issue (S k) (S attempt) (S n_random)).
    cbn [List.filter]. rewrite Hissue. cbn [is_sdk_call]. rewrite IH. reflexivity.
Qed.

(** X1: The retry protocol of [chat]. A call issues [k + 1] requests, all the
    same, for some [k <= MAX_RETRIES], and sleeps the backoff delay between
    two of them, drawing one random number per sleep. The first [k] requests
    fail with an error classified as retryable. If the last request
    succeeds, the call returns the response built from its result; if it
    fails, its error is not retryable or it was the request number
    [MAX_RETRIES + 1], and the call throws the [GrokApiError] of that
    error's classification. *)
Theorem chat_retry_protocol (E : Env) (c : GrokClient) (messages : list GrokMessage)
    (tools : option (list GrokTool)) (model : option string)
    (searchOptions : option SearchOptions) (w : World) :
  let rq := request c messages tools (Js.or_string model (currentModel c)) searchOptions in
  let n0 := count is_sdk_call w in
  exists k new,
    (k <= MAX_RETRIES)%nat
    /\ snd (chat E c messages tools model searchOptions w) = w ++ new
    /\ List.filter is_attempt_or_sleep new
       = retry_schedule E (EGenerateText rq) (S k) 0 (count is_random w)
    /\ count is_sdk_call new = S k
    /\ count is_random new = k
    /\ (forall i, (i < k)%nat ->
        exists err, generateText E (n0 + i) rq = inl err
                    /\ info_retryable (classifyError err) = true)
    /\ match generateText E (n0 + k) rq with
       | inr result =>
         exists now,
           fst (chat E c messages tools model searchOptions w)
           = inr (response_of now result)
       | inl err =>
         (info_retryable (classifyError err) = false \/ k = MAX_RETRIES)
         /\ fst (chat E c messages tools model searchOptions w)
            = inl (GrokApiError (classifyError err))
       end.
Proof. apply chat_protocol. Qed.

(** X2: The retry protocol of [chatStream], run to its end. As for [chat]; and
    the chunks it yields are those of every attempt it made, in order: what
    a failed attempt had delivered before it failed is yielded, and the
    next attempt starts the stream again from its beginning. *)
Theorem chatStream_retry_protocol (E : Env) (c : GrokClient)
    (messages : list GrokMessage) (tools : option (list GrokTool))
    (model : option string) (searchOptions : option SearchOptions) (w : World) :
  let rq := request c messages tools (Js.or_string model (currentModel c)) searchOptions in
  let n0 := count is_sdk_call w in
  let script := fst (chatStream E c messages tools model searchOptions w) in
  let outcome := snd (chatStream E c messages tools model searchOptions w) in
  exists k,
    (k <= MAX_RETRIES)%nat
    /\ List.filter is_attempt_or_sleep (script_effects script)
       = retry_schedule E (EStreamText rq) (S k) 0 (count is_random w)
    /\ count is_sdk_call (script_effects script) = S k
    /\ script_chunks script
       = concat (List.map (fun i => converted (fst (streamText E (n0 + i) rq)))
                          (seq 0 (S k)))
    /\ (forall i, (i < k)%nat ->
        exists err, snd (streamText E (n0 + i) rq) = Some err
                    /\ info_retryable (classifyError err) = true)
    /\ match snd (streamText E (n0 + k) rq) with
       | None => outcome = None
       | Some err =>
         (info_retryable (classifyError err) = false \/ k = MAX_RETRIES)
         /\ outcome = Some (GrokApiError (classifyError err))
       end.
Proof. apply chatStream_protocol. Qed.

End TransportProtocol.

Module ClassifierTable.
Import Classifier Scenarios.

(** X3: The classes of [classifyError]: the code is one of nine, and the error
    is retryable exactly when the code is [timeout], [network],
    [rate_limit], [server] or [malformed]. The status of the class is the
    status read from the error, except for [timeout] and [network], which
    carry none. *)
Theorem classifyError_retryable_by_code (error : RawError) :
  (info_retryable (classifyError error) = true
   /\ In (info_code (classifyError error))
         ["timeout"; "network"; "rate_limit"; "server"; "malformed"]
   \/ info_retryable (classifyError error) = false
      /\ In (info_code (classifyError error))
            ["bad_request"; "auth"; "not_found"; "unknown"])
  /\ info_status (classifyError error)
     = (if timeout_signature error || network_signature error then None
        else error_status error)
  /\ (info_code (classifyError error) = "timeout"
      \/ info_code (classifyError error) = "network" <->
      timeout_signature error || network_signature error = true).
Proof.
  unfold classifyError.
  destruct (timeout_signature error); [simpl; intuition|].
  destruct (network_signature error); [simpl; intuition|].
  cbn [orb]. cbv iota.
  repeat match goal with
         | |- context [if ?b then _ else _] => destruct b
         end; simpl; (split; [intuition | split; [reflexivity|]]);
    split; try discriminate; intros [H | H]; discriminate H.
Qed.

(** X4: A status without a class of its own (415 and 422, which the comment of
    [classifyError] lists, are such): with neither signature and a status
    that is absent, or below 500 and none of 400, 401, 403, 404 and 429, the
    error is [malformed], retryable, when its message mentions JSON, an
    unexpected token or parsing, and otherwise [unknown], not retryable,
    with the raw message as the message for the user. *)
Theorem classifyError_unlisted_status (error : RawError) :
  timeout_signature error = false ->
  network_signature error = false ->
  (forall s, error_status error = Some s ->
             s < 500 /\ ~ In s [400; 401; 403; 404; 429]) ->
  classifyError error
  = if malformed_signature error
    then {| info_status := error_status error; info_code := "malformed";
            info_message := "Received a malformed response from the Grok API.";
            info_retryable := true |}
    else {| info_status := error_status error; info_code := "unknown";
            info_message := error_msg error; info_retryable := false |}.
Proof.
  intros Ht Hn Hs. unfold classifyError. rewrite Ht, Hn.
  destruct (error_status error) as [s|] eqn:Hstatus.
  - destruct (Hs s eq_refl) as [Hlt Hnot]. simpl in Hnot.
    rewrite !ClassifierFacts.status_is_other by (intros ->; apply Hnot; auto 10).
    replace (500 <=? s) with false by (symmetry; apply Z.leb_gt; lia).
    reflexivity.
  - simpl. reflexivity.
Qed.

Lemma classifyError_unlisted_status_witness :
  classifyError (http_error 422 "Invalid field format")
  = {| info_status := Some 422; info_code := "unknown";
       info_message := "Invalid field format"; info_retryable := false |}.
Proof.
  apply (classifyError_unlisted_status (http_error 422 "Invalid field format")).
  - reflexivity.
  - reflexivity.
  - intros s [= <-]. split; [lia|]. simpl. intros H.
    repeat (destruct H as [H|H]; [discriminate H|]). exact H.
Defined.

End ClassifierTable.

Module RequestFacts.
Import Json Classifier Data Client Traces Scenarios Shapes.
Import TransportFacts TransportProtocol.

Lemma find_app_l {A : Type} (f : A -> bool) (l1 l2 : list A) :
  List.find f (l1 ++ l2)
  = match List.find f l1 with
    | Some x => Some x
    | None => List.find f l2
    end.
Proof.
  induction l1 as [|x l1 IH]; [reflexivity|]. cbn [app List.find].
  now destruct (f x).
Qed.

Lemma convertTools_fold (tools : list GrokTool) (acc : gmap string ConvertedTool)
    (name : string) :
  fold_left (fun result tool => <[tool_name tool := converted_tool tool]> result) tools acc
  !! name
  = match List.find (fun tool => String.eqb (tool_name tool) name) (rev tools) with
    | Some tool => Some (converted_tool tool)
    | None => acc !! name
    end.
Proof.
  revert acc. induction tools as [|tool tools IH]; intros acc; [reflexivity|].
  cbn [fold_left rev]. rewrite IH, find_app_l.
  destruct (List.find _ (rev tools)) as [t|]; [reflexivity|].
  cbn [List.find]. destruct (String.eqb (tool_name tool) name) eqn:Heq.
  - apply String.eqb_eq in Heq. subst name. apply lookup_insert_eq.
  - apply String.eqb_neq in Heq. now apply lookup_insert_ne.
Qed.

Lemma convertTools_size (tools : list GrokTool) (acc : gmap string ConvertedTool) :
  (size acc
   <= size (fold_left (fun result tool => <[tool_name tool := converted_tool tool]> result)
                      tools acc))%nat.
Proof.
  revert acc. induction tools as [|tool tools IH]; intros acc; [reflexivity|].
  cbn [fold_left]. etransitivity; [|apply IH].
  rewrite map_size_insert. destruct (acc !! tool_name tool); simpl; lia.
Qed.

Lemma convertTools_has_tools (tools : option (list GrokTool)) :
  (0 <? size (convertTools tools))%nat = has_length tools.
Proof.
  destruct tools as [[|t tools]|]; [reflexivity | | reflexivity].
  cbn [has_length]. apply Nat.ltb_lt. unfold convertTools. cbn [fold_left].
  eapply Nat.lt_le_trans; [|apply (convertTools_size tools)].
  rewrite map_size_insert, lookup_empty. simpl. lia.
Qed.

(** X5: [convertTools]: the record built for the SDK holds, under each tool
    name, the description and the schema of the last tool of that name, and
    nothing under any other name. The request carries the record, with the
    tool choice [auto], exactly when at least one tool is given; otherwise
    it carries neither. *)
Theorem convertTools_lookup (tools : option (list GrokTool)) (name : string)
    (c : GrokClient) (messages : list GrokMessage) (modelId : string)
    (searchOptions : option SearchOptions) :
  convertTools tools !! name
  = option_map
      (fun tool => {| ct_description := tool_description tool;
                      ct_inputSchema := tool_parameters tool |})
      (List.find (fun tool => String.eqb (tool_name tool) name) (rev (default [] tools)))
  /\ rq_tools (request c messages tools modelId searchOptions)
     = (if has_length tools then Some (convertTools tools) else None)
  /\ rq_toolChoice (request c messages tools modelId searchOptions)
     = (if has_length tools then Some "auto" else None).
Proof.
  split.
  - destruct tools as [tools|]; [|reflexivity].
    unfold convertTools. cbn [default id].
    pose proof (convertTools_fold tools ∅ name) as H. unfold converted_tool in H.
    rewrite H. now destruct (List.find _ _).
  - unfold request. cbn [rq_tools rq_toolChoice].
    now rewrite convertTools_has_tools.
Qed.

(** X6: [search]: every request of the call carries the one user message with
    the query, no tools and no tool choice, the client's current model, and
    search parameters: those given, or else the mode [on]. The call makes
    between one and [MAX_RETRIES + 1] such requests. *)
Theorem search_requests (E : Env) (c : GrokClient) (query : string)
    (searchParameters : option SearchParameters) (w : World) :
  let rq :=
    {| rq_baseURL := nonempty (baseURL c);
       rq_model := currentModel c;
       rq_messages := [{| role := "user"; content := Text query |}];
       rq_tools := None;
       rq_toolChoice := None;
       rq_maxOutputTokens := defaultMaxTokens c;
       rq_searchParameters := Some (default {| mode := Some "on" |} searchParameters) |} in
  exists k new,
    (k <= MAX_RETRIES)%nat
    /\ snd (search E c query searchParameters w) = w ++ new
    /\ List.filter is_sdk_call new = repeat (EGenerateText rq) (S k).
Proof.
  intros rq. unfold search.
  destruct (chat_protocol E c [{| role := "user"; content := Text query |}] (Some []) None
              (Some {| search_parameters :=
                         Some (default {| mode := Some "on" |} searchParameters) |}) w)
    as (k & new & Hk & Hrun & Hsched & _).
  exists k, new. split; [exact Hk|]. split; [exact Hrun|].
  rewrite (sdk_calls_filter new), Hsched. apply sdk_calls_retry_schedule. reflexivity.
Qed.

End RequestFacts.

Module MessageFacts.
Import Json Classifier Data Client Agent Traces Scenarios Shapes.
Import JsonFacts.

Lemma tool_call_parts_parsed (tcs : list GrokToolCall) :
  tool_call_parts tcs
  = match parsed_inputs tcs with
    | Some inputs =>
      inr (List.map (fun p => tool_call_part (fst p) (snd p)) (combine tcs inputs))
    | None => inl SyntaxError
    end.
Proof.
  induction tcs as [|tc tcs IH]; [reflexivity|].
  cbn [tool_call_parts parsed_inputs]. unfold JSON_parse.
  destruct (Json.parse (tc_arguments tc)) as [v|]; [|reflexivity].
  rewrite IH. now destruct (parsed_inputs tcs).
Qed.

Lemma parsed_inputs_None (tcs : list GrokToolCall) :
  parsed_inputs tcs = None
  <-> exists tc, In tc tcs /\ Json.parse (tc_arguments tc) = None.
Proof.
  induction tcs as [|tc tcs IH]; cbn [parsed_inputs].
  - split; [discriminate | intros (tc & [] & _)].
  - destruct (Json.parse (tc_arguments tc)) as [v|] eqn:Hp.
    + destruct (parsed_inputs tcs) as [vs|].
      * split; [discriminate|]. intros (tc' & [<- | Hin] & Hnone); [congruence|].
        assert (H : Some vs = None) by (apply IH; eauto). discriminate H.
      * split; [|reflexivity]. intros _.
        destruct (proj1 IH eq_refl) as (tc' & Hin & Hnone). exists tc'. split; [now right | exact Hnone].
    + split; [|reflexivity]. intros _. exists tc. split; [now left | exact Hp].
Qed.

Lemma buildAssistantMessage_closed (content : option string)
    (tool_calls : option (list GrokToolCall)) :
  buildAssistantMessage content tool_calls
  = match tool_calls with
    | Some (tc :: rest) =>
      match parsed_inputs (tc :: rest) with
      | Some inputs => inr (tool_call_message content (tc :: rest) inputs)
      | None => inl SyntaxError
      end
    | _ => inr {| role := "assistant"; content := Text (Js.or_string content EmptyString) |}
    end
  /\ ((exists t, buildAssistantMessage content tool_calls = inl t)
      <-> exists tc, In tc (default [] tool_calls)
                     /\ Json.parse (tc_arguments tc) = None).
Proof.
  assert (Hcases :
    buildAssistantMessage content tool_calls
    = match tool_calls with
      | Some (tc :: rest) =>
        match parsed_inputs (tc :: rest) with
        | Some inputs => inr (tool_call_message content (tc :: rest) inputs)
        | None => inl SyntaxError
        end
      | _ => inr {| role := "assistant"; content := Text (Js.or_string content EmptyString) |}
      end).
  { unfold buildAssistantMessage.
    destruct tool_calls as [[|tc rest]|]; [reflexivity | | reflexivity].
    cbn [has_length negb default id]. rewrite tool_call_parts_parsed.
    now destruct (parsed_inputs (tc :: rest)). }
  split; [exact Hcases|]. rewrite Hcases.
  destruct tool_calls as [[|tc rest]|]; cbn [default id].
  - split; [intros [t Ht]; discriminate Ht | intros (tc & [] & _)].
  - rewrite <- parsed_inputs_None.
    destruct (parsed_inputs (tc :: rest)); split; try discriminate; eauto.
    intros [t Ht]. discriminate Ht.
  - split; [intros [t Ht]; discriminate Ht | intros (tc & [] & _)].
Qed.

(** X7: [buildAssistantMessage] in closed form. Without tool calls the message
    is the text of the reply (the empty string for none). With tool calls
    it is built exactly when the arguments of every call are valid JSON: it
    then holds the text, if there is one, followed by one tool-call part per
    call, in order, with the parsed arguments as input. If the arguments of
    some call are not valid JSON, the [SyntaxError] of [JSON.parse] is
    thrown and no message is built. *)
Theorem buildAssistantMessage_cases (content : option string)
    (tool_calls : option (list GrokToolCall)) :
  buildAssistantMessage content tool_calls
  = match tool_calls with
    | Some (tc :: rest) =>
      match parsed_inputs (tc :: rest) with
      | Some inputs => inr (tool_call_message content (tc :: rest) inputs)
      | None => inl SyntaxError
      end
    | _ => inr {| role := "assistant"; content := Text (Js.or_string content EmptyString) |}
    end
  /\ ((exists t, buildAssistantMessage content tool_calls = inl t)
      <-> exists tc, In tc (default [] tool_calls)
                     /\ Json.parse (tc_arguments tc) = None).
Proof. apply buildAssistantMessage_closed. Qed.

Lemma parsed_inputs_convertToolCalls (now : Z) (calls : list SdkToolCall) :
  parsed_inputs (convertToolCalls now (Some calls)) = sdk_inputs calls.
Proof.
  induction calls as [|tc calls IH]; [reflexivity|].
  cbn [convertToolCalls List.map parsed_inputs sdk_inputs tc_arguments] in *.
  rewrite IH. destruct (sdk_input tc) as [s|v|]; cbn [input_value];
    [reflexivity | |]; now rewrite parse_stringify.
Qed.

(** X8: The tool calls of a reply of [generateText], through [convertToolCalls]
    and [buildAssistantMessage]: an input that is a structured value (or is
    missing) is printed and parsed back to itself (to the empty object), so
    the assistant message is built, with the inputs the SDK gave, unless
    some input is a string that is not valid JSON. *)
Theorem structured_tool_calls_build (now : Z) (content : option string)
    (tc : SdkToolCall) (calls : list SdkToolCall) :
  buildAssistantMessage content (Some (convertToolCalls now (Some (tc :: calls))))
  = match sdk_inputs (tc :: calls) with
    | Some inputs =>
      inr (tool_call_message content (convertToolCalls now (Some (tc :: calls))) inputs)
    | None => inl SyntaxError
    end
  /\ (sdk_inputs (tc :: calls) = None
      <-> exists c s, In c (tc :: calls) /\ sdk_input c = InputString s
                      /\ Json.parse s = None).
Proof.
  split.
  - unfold buildAssistantMessage.
    change (has_length (Some (convertToolCalls now (Some (tc :: calls))))) with true.
    cbn [negb default id]. rewrite tool_call_parts_parsed, parsed_inputs_convertToolCalls.
    now destruct (sdk_inputs (tc :: calls)).
  - generalize (tc :: calls). clear. intros calls.
    induction calls as [|c calls IH]; cbn [sdk_inputs].
    + split; [discriminate | intros (c & s & [] & _)].
    + destruct (input_value (sdk_input c)) as [v|] eqn:Hv.
      * destruct (sdk_inputs calls) as [vs|].
        -- split; [discriminate|].
           intros (c' & s & [<- | Hin] & Hs & Hnone).
           ++ rewrite Hs in Hv. simpl in Hv. congruence.
           ++ assert (H : Some vs = None) by (apply IH; eauto). discriminate H.
        -- split; [|reflexivity]. intros _.
           destruct (proj1 IH eq_refl) as (c' & s & Hin & Hs & Hnone).
           exists c', s. split; [now right | now split].
      * split; [|reflexivity]. intros _.
        destruct (sdk_input c) as [s|v|] eqn:Hs; try discriminate Hv.
        exists c, s. split; [now left | now split].
Qed.

(** X9: The text recorded for a tool result. The tool message holds one
    tool-result part with the id and name of the call; its value and the
    content of the chat entry are never empty, and they are the same text
    (the output of a success, the error of a failure) unless the text is
    missing or empty, where the defaults differ for a failure: [Error] in
    the message, [Error occurred] in the entry. *)
Theorem tool_result_texts (toolCall : GrokToolCall) (result : ToolResult) :
  exists value,
    buildToolResultMessage toolCall result
    = {| role := "tool";
         content := Parts [ToolResultPart (tc_id toolCall) (tc_name toolCall)
                             (if success result then OutText value
                              else OutErrorText value)] |}
    /\ value <> EmptyString
    /\ entry_content (tool_result_entry toolCall result) <> EmptyString
    /\ (entry_content (tool_result_entry toolCall result) = value
        \/ success result = false
           /\ nonempty (error result) = None
           /\ value = "Error"
           /\ entry_content (tool_result_entry toolCall result) = "Error occurred").
Proof.
  unfold buildToolResultMessage, tool_result_entry. cbn [entry_content].
  destruct (success result).
  - exists (Js.or_string (output result) "Success"). split; [reflexivity|].
    destruct (output result) as [[|ch s]|]; simpl; repeat split; try discriminate; auto.
  - exists (Js.or_string (error result) "Error"). split; [reflexivity|].
    destruct (error result) as [[|ch s]|]; simpl; repeat split; try discriminate; auto.
Qed.

End MessageFacts.

Module DispatchShape.
Import Json Classifier Data Client Agent Traces Scenarios Shapes.

Section WithEnv.
Variable E : Env.

Lemma executeMCPTool_parsed (toolCall : GrokToolCall) (args : JSONValue) (w : World) :
  Json.parse (tc_arguments toolCall) = Some args ->
  exists r,
    executeMCPTool E toolCall w = (inr r, w ++ [EMcp (tc_name toolCall) args])
    /\ well_formed r
    /\ match mcp_callTool E (count is_mcp w) (tc_name toolCall) args with
       | inl t =>
         r = failure ("MCP tool execution error: " +:+ Js.template (thrown_message t))
       | inr result => success r = negb (isError result)
       end.
Proof.
  intros Hp. unfold executeMCPTool, JSON_parse. rewrite Hp. unfold emit.
  destruct (mcp_callTool E (count is_mcp w) (tc_name toolCall) args) as [t|result].
  - eexists. split; [reflexivity|]. split; [|reflexivity].
    split; [|reflexivity]. eexists. split; [reflexivity | discriminate].
  - destruct (isError result); cbn [try_catch].
    + eexists. split; [reflexivity|]. split; [|reflexivity].
      split; [|reflexivity]. eexists. split; [reflexivity|].
      destruct (mcp_content result) as [|[[[|ch s]|]|uri|other] items]; discriminate.
    + eexists. split; [reflexivity|]. split; [|reflexivity].
      split; [|reflexivity]. eexists. split; [reflexivity|].
      destruct (String.concat _ _); discriminate.
Qed.

(** X10: [executeMCPTool] never throws and its result is well formed: a success
    with a non-empty output (the texts of the items joined by newlines, or
    [Success]), or a failure with a non-empty error. The MCP manager is
    called, once, exactly when the arguments are valid JSON; the result is a
    success exactly when that call returns without [isError]. *)
Theorem executeMCPTool_result (toolCall : GrokToolCall) (w : World) :
  exists r,
    well_formed r
    /\ match Json.parse (tc_arguments toolCall) with
       | None =>
         executeMCPTool E toolCall w = (inr r, w)
         /\ r = failure ("MCP tool execution error: "
                         +:+ Js.template (thrown_message SyntaxError))
       | Some args =>
         executeMCPTool E toolCall w = (inr r, w ++ [EMcp (tc_name toolCall) args])
         /\ match mcp_callTool E (count is_mcp w) (tc_name toolCall) args with
            | inl t =>
              r = failure ("MCP tool execution error: "
                           +:+ Js.template (thrown_message t))
            | inr result => success r = negb (isError result)
            end
       end.
Proof.
  destruct (Json.parse (tc_arguments toolCall)) as [args|] eqn:Hp.
  - destruct (executeMCPTool_parsed toolCall args w Hp) as (r & Hrun & Hwf & Hres).
    exists r. now repeat split.
  - unfold executeMCPTool, JSON_parse. rewrite Hp. eexists.
    split; [|split; reflexivity].
    split; [|reflexivity]. eexists. split; [reflexivity | discriminate].
Qed.

Lemma dispatched_thrown (toolCall : GrokToolCall) (t : Thrown) (w : World) :
  Dispatched E toolCall w (executeTool_catch toolCall t w).
Proof. apply threw_before. Qed.

Lemma dispatched_call (toolCall : GrokToolCall) (args : JSONValue) (w : World)
    (rq : (string -> option JSONValue) -> CollabRequest) :
  tc_name toolCall <> "bash" ->
  Dispatched E toolCall w
    (try_catch (with_args args w (fun get => call E (rq get) w))
               (executeTool_catch toolCall)).
Proof.
  intros Hname.
  assert (H : forall get,
             Dispatched E toolCall w
               (try_catch (call E (rq get) w) (executeTool_catch toolCall))).
  { intros get. unfold call, emit.
    destruct (collaborator E (count is_collab w) (rq get)) as [t|r] eqn:Hc;
      cbn [try_catch].
    - unfold executeTool_catch, Logger.error, Logger.appendLine. rewrite <- app_assoc.
      now apply collaborator_threw.
    - now apply collaborator_returned. }
  destruct args; cbn [with_args]; try apply H.
  cbn [try_catch]. apply dispatched_thrown.
Qed.

Lemma executeTool_shape (a : GrokAgent) (toolCall : GrokToolCall) (w : World) :
  Dispatched E toolCall w (executeTool E a toolCall w).
Proof.
  unfold executeTool, executeTool_try, JSON_parse.
  destruct (Json.parse (tc_arguments toolCall)) as [args|] eqn:Hp;
    [|cbn [try_catch]; apply dispatched_thrown].
  unfold dispatch.
  repeat match goal with
         | |- Dispatched _ _ _ (try_catch (if String.eqb ?n ?s then _ else _) _) =>
           let H := fresh "Hname" in
           destruct (String.eqb n s) eqn:H;
           [apply String.eqb_eq in H | apply String.eqb_neq in H]
         end;
    try (apply dispatched_call;
         match goal with H : tc_name _ = _ |- _ => rewrite H; discriminate end).
  - (* edit_file *)
    destruct (morphEditor a); cbn [negb].
    + apply dispatched_call.
      match goal with H : tc_name _ = _ |- _ => rewrite H; discriminate end.
    + cbn [try_catch]. now apply refused.
  - (* bash *)
    destruct args; cbn [with_args try_catch]; try apply dispatched_thrown;
      unfold call, emit;
      match goal with
      | |- context [collaborator E ?n ?rq] =>
        destruct (collaborator E n rq) as [t|r] eqn:Hc
      end; cbn [try_catch];
      try (unfold executeTool_catch, Logger.error, Logger.appendLine;
           rewrite <- app_assoc; now apply collaborator_threw);
      rewrite <- app_assoc; now apply bash_returned.
  - (* the default case *)
    destruct (Js.startsWith "mcp__" (tc_name toolCall)) eqn:Hm.
    + destruct (executeMCPTool_parsed toolCall args w Hp) as (r & Hrun & _).
      rewrite Hrun. cbn [try_catch]. now apply remote.
    + cbn [try_catch]. now apply refused.
Qed.

(** X11: What a call of [executeTool] does, exhaustively. It returns a result
    and never throws. It runs at most one thing: a tool collaborator, or
    the MCP manager for a name that starts with [mcp__]. It writes one
    [ERROR] line exactly when a value was thrown (by [JSON.parse], by a
    property read on [null], or by the collaborator), and then returns the
    failure [Tool execution error: <message>]. The directories are
    synchronised exactly after a [bash] collaborator that returned. *)
Theorem executeTool_dispatched (a : GrokAgent) (toolCall : GrokToolCall) (w : World) :
  Dispatched E toolCall w (executeTool E a toolCall w).
Proof. apply executeTool_shape. Qed.

End WithEnv.
End DispatchShape.

Module RunFacts.
Import Json Classifier Data Client Agent Traces Scenarios Shapes.
Import TransportFacts DispatcherFacts BufferedFacts StreamFacts TransportProtocol.

(** *** What holds of every effect of a run

    A property of effects that holds of what the transport, the dispatcher
    and the loops themselves do, holds of every effect of a run. *)

Section Traversal.
Variable E : Env.
Variable message : string.
Variable a0 : GrokAgent.
Variable Q : Effect -> Prop.

Hypothesis Q_chat :
  forall a tools w new,
    extends a0 a ->
    snd (chat E (grokClient a) (messages a) (Some tools) None
              (getSearchOptions a message) w) = w ++ new ->
    Forall Q new.
Hypothesis Q_chatStream :
  forall a tools w,
    extends a0 a ->
    Forall Q (script_effects
                (fst (chatStream E (grokClient a) (messages a) (Some tools) None
                                 (getSearchOptions a message) w))).
Hypothesis Q_tool :
  forall a tc w new, snd (executeTool E a tc w) = w ++ new -> Forall Q new.
Hypothesis Q_yield : forall chunk, Q (EYield chunk).
Hypothesis Q_check : forall site b, Q (EAbortCheck site b).
Hypothesis Q_error : forall what t, Q (ELog (ERROR what t)).

Lemma executeTool_world (a : GrokAgent) (tc : GrokToolCall) (w : World) :
  exists r new, executeTool E a tc w = (inr r, w ++ new) /\ Forall Q new.
Proof using Q_tool.
  destruct (executeTool_returns E a tc w) as (r & w1 & Hr).
  destruct (executeTool_effects E a tc w) as (new & Hw & _).
  rewrite Hr in Hw. simpl in Hw. subst w1.
  exists r, new. split; [exact Hr|]. apply (Q_tool a tc w). now rewrite Hr.
Qed.

Lemma run_tools_forall (tcs : list GrokToolCall) (a : GrokAgent) (w : World) :
  exists new, snd (run_tools E tcs a w) = w ++ new /\ Forall Q new.
Proof using Q_tool.
  revert a w. induction tcs as [|tc tcs IH]; intros a w.
  - exists []. simpl. now rewrite app_nil_r.
  - cbn [run_tools].
    destruct (executeTool_world a tc w) as (r & new1 & Hr & Hq1). rewrite Hr.
    match goal with
    | |- context [run_tools E tcs ?a1 ?w1] => destruct (IH a1 w1) as (new2 & Hw2 & Hq2)
    end.
    exists (new1 ++ new2). rewrite Hw2, <- app_assoc. split; [reflexivity|].
    now apply Forall_app.
Qed.

Lemma round_forall (toolRounds : Z) (currentResponse : option GrokResponse)
    (tools : list GrokTool) (a : GrokAgent) (w : World) :
  extends a0 a ->
  exists new,
    snd (round E toolRounds currentResponse message tools a w) = w ++ new
    /\ Forall Q new.
Proof using Q_chat Q_tool.
  intros Hext. unfold round.
  destruct (chat_protocol E (grokClient a) (messages a) (Some tools) None
              (getSearchOptions a message) w) as (k & new1 & _ & Hw1 & _).
  pose proof (Q_chat a tools w new1 Hext Hw1) as Hq1.
  destruct (chat E _ _ _ _ _ w) as [[t|response] w1]; cbn [snd] in Hw1; subst w1;
    [exists new1; now split|].
  destruct (choices response) as [|choice others]; [exists new1; now split|].
  destruct (buildAssistantMessage _ _) as [t|m]; [exists new1; now split|].
  destruct (has_length _); [|exists new1; now split].
  match goal with
  | |- context [run_tools E ?tcs ?a1 ?w1] =>
    destruct (run_tools_forall tcs a1 w1) as (new2 & Hw2 & Hq2);
    destruct (run_tools E tcs a1 w1) as [[c a2] w2]
  end.
  cbn [snd] in *. subst w2. exists (new1 ++ new2). rewrite <- app_assoc.
  split; [reflexivity | now apply Forall_app].
Qed.

Lemma rounds_forall (remaining : nat) (toolRounds : Z)
    (currentResponse : option GrokResponse) (tools : list GrokTool) (a : GrokAgent)
    (w : World) :
  extends a0 a ->
  exists new,
    snd (rounds E remaining toolRounds currentResponse message tools a w) = w ++ new
    /\ Forall Q new.
Proof using Q_chat Q_tool.
  revert toolRounds currentResponse a w.
  induction remaining as [|remaining IH]; intros toolRounds currentResponse a w Hext.
  - exists []. simpl. now rewrite app_nil_r.
  - cbn [rounds].
    destruct (round_forall toolRounds currentResponse tools a w Hext) as (new1 & Hw1 & Hq1).
    pose proof (round_extends E toolRounds currentResponse message tools a w) as Hext1.
    destruct (round E toolRounds currentResponse message tools a w)
      as [[[c [tr cr]] a1] w1].
    cbn [fst snd] in *. subst w1.
    destruct c; try (exists new1; now split).
    destruct (IH tr cr a1 (w ++ new1)) as (new2 & Hw2 & Hq2);
      [eapply extends_trans; eauto|].
    exists (new1 ++ new2). rewrite Hw2, <- app_assoc.
    split; [reflexivity | now apply Forall_app].
Qed.

Lemma consume_forall (script : list Action) (outcome : option Thrown)
    (content : string) (tcs : list GrokToolCall) (inputTokens tot : Z)
    (a : GrokAgent) (w : World) :
  Forall Q (script_effects script) ->
  exists new,
    snd (consume E script outcome content tcs inputTokens tot a w) = w ++ new
    /\ Forall Q new.
Proof using Q_yield Q_check.
  revert content tcs tot w.
  induction script as [|[e|chunk] script IH]; intros content tcs tot w Hs.
  - exists []. simpl. now rewrite app_nil_r.
  - simpl in Hs. inversion Hs as [|? ? He Hrest]; subst.
    destruct (IH content tcs tot (emit e w) Hrest) as (new & Hw & Hq).
    exists (e :: new). cbn [consume]. rewrite Hw. unfold emit. rewrite <- app_assoc.
    split; [reflexivity | now constructor].
  - simpl in Hs. cbn [consume]. unfold check_aborted.
    assert (Hcheck : exists l b,
               (if abortController a
                then (aborted E (count is_abort_check w),
                      emit (EAbortCheck BeforeStreamEvent
                              (aborted E (count is_abort_check w))) w)
                else (false, w)) = (b, w ++ l) /\ Forall Q l).
    { destruct (abortController a).
      - eexists [_], _. split; [reflexivity|]. constructor; [apply Q_check | constructor].
      - exists [], false. rewrite app_nil_r. split; [reflexivity | constructor]. }
    destruct Hcheck as (l & b & -> & Hl).
    destruct b.
    + eexists (l ++ [_; _]). unfold cancel, yield, emit. cbn [snd].
      rewrite <- !app_assoc. split; [reflexivity|].
      apply Forall_app. split; [exact Hl|]. repeat constructor; apply Q_yield.
    + destruct (chunk_choices chunk) as [|delta others].
      * destruct (IH content tcs tot (w ++ l) Hs) as (new & Hw & Hq).
        exists (l ++ new). rewrite Hw, <- app_assoc.
        split; [reflexivity | now apply Forall_app].
      * destruct (nonempty (delta_content delta)) as [text|].
        -- match goal with
           | |- context [consume E script outcome ?c' ?t' inputTokens ?n' a ?w'] =>
             destruct (IH c' t' n' w' Hs) as (new & Hw & Hq)
           end.
           eexists (l ++ [_; _] ++ new).
           split; [rewrite Hw; unfold yield, emit; rewrite <- !app_assoc; reflexivity|].
           apply Forall_app. split; [exact Hl|].
           repeat (constructor; [apply Q_yield|]). exact Hq.
        -- match goal with
           | |- context [consume E script outcome ?c' ?t' inputTokens ?n' a ?w'] =>
             destruct (IH c' t' n' w' Hs) as (new & Hw & Hq)
           end.
           eexists (l ++ [_] ++ new).
           split; [rewrite Hw; unfold yield, emit; rewrite <- !app_assoc; reflexivity|].
           apply Forall_app. split; [exact Hl|].
           repeat (constructor; [apply Q_yield|]). exact Hq.
Qed.

Lemma check_aborted_forall (site : CheckSite) (a : GrokAgent) (w : World) :
  exists l, snd (check_aborted E site a w) = w ++ l /\ Forall Q l.
Proof using Q_check.
  unfold check_aborted. destruct (abortController a).
  - eexists [_]. split; [reflexivity|]. constructor; [apply Q_check | constructor].
  - exists []. simpl. rewrite app_nil_r. split; [reflexivity | constructor].
Qed.

Lemma run_tools_stream_forall (tcs : list GrokToolCall) (a : GrokAgent) (w : World) :
  exists new, snd (run_tools_stream E tcs a w) = w ++ new /\ Forall Q new.
Proof using Q_tool Q_yield Q_check.
  revert a w. induction tcs as [|tc tcs IH]; intros a w.
  - exists []. simpl. now rewrite app_nil_r.
  - cbn [run_tools_stream].
    destruct (check_aborted_forall BeforeTool a w) as (l & Hl & Hql).
    destruct (check_aborted E BeforeTool a w) as [b w1]. cbn [snd] in Hl. subst w1.
    destruct b.
    + eexists (l ++ [_; _]). unfold cancel, yield, emit. cbn [snd].
      rewrite <- !app_assoc. split; [reflexivity|].
      apply Forall_app. split; [exact Hql|]. repeat constructor; apply Q_yield.
    + destruct (executeTool_world a tc (w ++ l)) as (r & new1 & Hr & Hq1). rewrite Hr.
      match goal with
      | |- context [run_tools_stream E tcs ?a1 ?w1] =>
        destruct (IH a1 w1) as (new2 & Hw2 & Hq2)
      end.
      eexists (l ++ new1 ++ [_] ++ new2). rewrite Hw2. unfold yield, emit.
      rewrite <- !app_assoc. split; [reflexivity|].
      apply Forall_app. split; [exact Hql|].
      apply Forall_app. split; [exact Hq1|].
      constructor; [apply Q_yield | exact Hq2].
Qed.

Lemma stream_round_forall (inputTokens tot : Z) (a : GrokAgent) (w : World) :
  extends a0 a ->
  exists new,
    snd (stream_round E inputTokens tot message a w) = w ++ new /\ Forall Q new.
Proof using Q_chatStream Q_tool Q_yield Q_check.
  intros Hext. unfold stream_round.
  destruct (check_aborted_forall BeforeModelCall a w) as (l & Hl & Hql).
  destruct (check_aborted E BeforeModelCall a w) as [b w1]. cbn [snd] in Hl. subst w1.
  destruct b.
  { eexists (l ++ [_; _]). unfold cancel, yield, emit. cbn [snd].
    rewrite <- !app_assoc. split; [reflexivity|].
    apply Forall_app. split; [exact Hql|]. repeat constructor; apply Q_yield. }
  pose proof (Q_chatStream a (getAllGrokTools E (count is_sdk_call (w ++ l))) (w ++ l) Hext)
    as Hs.
  destruct (chatStream E _ _ _ _ _ (w ++ l)) as [script outcome]. cbn [fst] in Hs.
  destruct (consume_forall script outcome EmptyString [] inputTokens tot a (w ++ l) Hs)
    as (new1 & Hw1 & Hq1).
  destruct (consume E script outcome EmptyString [] inputTokens tot a (w ++ l))
    as [[c [[content tcs] tot']] w1].
  cbn [snd] in Hw1. subst w1.
  assert (Hpre : Forall Q (l ++ new1)) by now apply Forall_app.
  destruct c; try (exists (l ++ new1); cbn [snd]; rewrite <- app_assoc; now split).
  set (w2 := if has_length (Some tcs) then yield _ _ else _).
  assert (Hw2 : exists l2, w2 = ((w ++ l) ++ new1) ++ l2 /\ Forall Q l2).
  { subst w2. destruct (has_length (Some tcs)).
    - eexists [_]. unfold yield, emit. split; [reflexivity|].
      constructor; [apply Q_yield | constructor].
    - exists []. rewrite app_nil_r. split; [reflexivity | constructor]. }
  destruct Hw2 as (l2 & Hw2 & Hl2). clearbody w2. subst w2.
  destruct (buildAssistantMessage _ _) as [t|m].
  { exists (l ++ new1 ++ l2). cbn [snd]. rewrite <- !app_assoc.
    split; [reflexivity|]. rewrite app_assoc. now apply Forall_app. }
  destruct (has_length (Some tcs)).
  - match goal with
    | |- context [run_tools_stream E tcs ?a1 ?w1] =>
      destruct (run_tools_stream_forall tcs a1 w1) as (new3 & Hw3 & Hq3);
      destruct (run_tools_stream E tcs a1 w1) as [[c a2] w3]
    end.
    cbn [snd] in Hw3. subst w3.
    assert (Hall : Forall Q (l ++ new1 ++ l2 ++ new3)).
    { rewrite !app_assoc. apply Forall_app. split; [|exact Hq3].
      apply Forall_app. split; [exact Hpre | exact Hl2]. }
    destruct c; try (exists (l ++ new1 ++ l2 ++ new3); cbn [snd];
                     rewrite <- !app_assoc; now split).
    eexists (l ++ new1 ++ l2 ++ new3 ++ [_]). cbn [snd]. unfold yield, emit.
    rewrite <- !app_assoc. split; [reflexivity|].
    rewrite !app_assoc. apply Forall_app.
    split; [rewrite <- !app_assoc; exact Hall|].
    constructor; [apply Q_yield | constructor].
  - eexists (l ++ new1 ++ l2 ++ [_]). cbn [snd]. unfold yield, emit.
    rewrite <- !app_assoc. split; [reflexivity|].
    rewrite !app_assoc. apply Forall_app. split.
    + apply Forall_app. split; [exact Hpre | exact Hl2].
    + constructor; [apply Q_yield | constructor].
Qed.

Lemma stream_rounds_forall (remaining : nat) (inputTokens tot : Z) (a : GrokAgent)
    (w : World) :
  extends a0 a ->
  exists new,
    snd (stream_rounds E remaining inputTokens tot message a w) = w ++ new
    /\ Forall Q new.
Proof using Q_chatStream Q_tool Q_yield Q_check.
  revert inputTokens tot a w.
  induction remaining as [|remaining IH]; intros inputTokens tot a w Hext.
  - exists []. simpl. now rewrite app_nil_r.
  - cbn [stream_rounds].
    destruct (stream_round_forall inputTokens tot a w Hext) as (new1 & Hw1 & Hq1).
    destruct (stream_round_outcome E inputTokens tot message a w)
      as (c & st & a1 & new1' & Hround & _ & Hext1 & _).
    rewrite Hround in *. cbn [snd] in Hw1. apply app_inv_head in Hw1. subst new1'.
    destruct st as [it' tot'].
    destruct c; try (exists new1; now split).
    destruct (IH it' tot' a1 (w ++ new1)) as (new2 & Hw2 & Hq2);
      [eapply extends_trans; eauto|].
    exists (new1 ++ new2). rewrite Hw2, <- app_assoc.
    split; [reflexivity | now apply Forall_app].
Qed.

End Traversal.

(** *** The requests of a run *)



Lemma tool_effect_no_sdk_call (e : Effect) : is_tool_effect e = true -> is_sdk_call e = false.
Proof. destruct e; simpl; congruence. Qed.



Section WholeRun.
Variable E : Env.
Variable message : string.
Variable a : GrokAgent.
Variable Q : Effect -> Prop.

Let user : GrokMessage := {| role := "user"; content := Text message |}.

Hypothesis Q_chat :
  forall a1 tools w new,
    extends (push_message user a) a1 ->
    snd (chat E (grokClient a1) (messages a1) (Some tools) None
              (getSearchOptions a1 message) w) = w ++ new ->
    Forall Q new.
Hypothesis Q_chatStream :
  forall a1 tools w,
    extends (push_message user a) a1 ->
    Forall Q (script_effects
                (fst (chatStream E (grokClient a1) (messages a1) (Some tools) None
                                 (getSearchOptions a1 message) w))).
Hypothesis Q_tool :
  forall a1 tc w new, snd (executeTool E a1 tc w) = w ++ new -> Forall Q new.
Hypothesis Q_yield : forall chunk, Q (EYield chunk).
Hypothesis Q_check : forall site b, Q (EAbortCheck site b).
Hypothesis Q_error : forall what t, Q (ELog (ERROR what t)).

Lemma processUserMessage_forall (w : World) :
  exists new, snd (processUserMessage E message a w) = w ++ new /\ Forall Q new.
Proof using Q_chat Q_tool.
  unfold processUserMessage. fold user.
  destruct (rounds_forall E message (push_message user a) Q Q_chat Q_tool
              (Z.to_nat (maxToolRounds (push_message user a))) 0 None
              (getAllGrokTools E (count is_sdk_call w)) (push_message user a) w)
    as (new & Hw & Hq); [apply extends_refl|].
  destruct (rounds E _ _ _ _ _ _ w) as [[[c [tr cr]] a1] w1].
  cbn [snd] in Hw. subst w1. exists new. split; [|exact Hq].
  destruct c; reflexivity.
Qed.

Lemma processUserMessageStream_forall (w : World) :
  exists new, snd (processUserMessageStream E message a w) = w ++ new /\ Forall Q new.
Proof using Q_chatStream Q_tool Q_yield Q_check Q_error.
  unfold processUserMessageStream. fold user.
  set (a0 := push_message user (push_entry _ (set_abortController true a))).
  assert (Ha0 : extends (push_message user a) a0).
  { split; [exists []; simpl; now rewrite app_nil_r|].
    split; [eexists [_]; reflexivity | now repeat split]. }
  set (w0 := yield _ w).
  destruct (stream_rounds_forall E message (push_message user a) Q Q_chatStream Q_tool
              Q_yield Q_check
              (Z.to_nat (maxToolRounds a0)) (countMessageTokens E (messages a0)) 0 a0 w0 Ha0)
    as (new & Hw & Hq).
  destruct (stream_rounds E _ _ _ _ a0 w0) as [[c a1] w1].
  cbn [snd] in Hw. subst w1 w0. unfold yield, emit.
  destruct c.
  - eexists ([_] ++ new ++ [_; _]). cbn [snd]. unfold yield, emit.
    rewrite <- !app_assoc. split; [reflexivity|].
    constructor; [apply Q_yield|]. apply Forall_app. split; [exact Hq|].
    repeat constructor; apply Q_yield.
  - eexists ([_] ++ new). cbn [snd]. rewrite <- !app_assoc. split; [reflexivity|].
    constructor; [apply Q_yield | exact Hq].
  - eexists ([_] ++ new). cbn [snd]. rewrite <- !app_assoc. split; [reflexivity|].
    constructor; [apply Q_yield | exact Hq].
  - unfold stream_catch.
    destruct (check_aborted_forall E Q Q_check InCatch a1 ((w ++ [EYield (token_count (countMessageTokens E (messages a0)))]) ++ new))
      as (l & Hl & Hql).
    destruct (check_aborted E InCatch a1 _) as [b w1]. cbn [snd] in Hl. subst w1.
    destruct b.
    + eexists ([_] ++ new ++ l ++ [_; _]). cbn [snd]. unfold cancel, yield, emit.
      rewrite <- !app_assoc. split; [reflexivity|].
      constructor; [apply Q_yield|]. apply Forall_app. split; [exact Hq|].
      apply Forall_app. split; [exact Hql|]. repeat constructor; apply Q_yield.
    + eexists ([_] ++ new ++ l ++ [_; _; _]). cbn [snd].
      unfold yield, emit, Logger.error, Logger.appendLine.
      rewrite <- !app_assoc. split; [reflexivity|].
      constructor; [apply Q_yield|]. apply Forall_app. split; [exact Hq|].
      apply Forall_app. split; [exact Hql|].
      constructor; [apply Q_error|]. repeat constructor; apply Q_yield.
Qed.

End WholeRun.



(** *** What is logged only under debug *)

Section Gated.
Variable E : Env.

Let gated (e : Effect) : Prop := debug_only e = true -> debug E = true.

Lemma gated_info (msg : string) : Forall gated (Logger.info E msg).
Proof.
  unfold Logger.info, Logger.appendLine.
  destruct (debug E) eqn:Hd; repeat constructor.
Qed.

Lemma gated_logApiResponse (status : Z) (body : ResponseBody) :
  Forall gated (Logger.logApiResponse E status body).
Proof.
  unfold Logger.logApiResponse, Logger.appendLine.
  destruct (debug E) eqn:Hd; repeat constructor.
Qed.

Lemma gated_logApiRequest (method endpoint : string) (n : nat) (hasTools : bool) :
  Forall gated (Logger.logApiRequest E method endpoint n hasTools).
Proof.
  unfold Logger.logApiRequest, Logger.appendLine.
  destruct (debug E) eqn:Hd; repeat constructor.
Qed.

Lemma gated_other (e : Effect) : debug_only e = false -> gated e.
Proof. intros H. unfold gated. congruence. Qed.

Lemma chat_attempts_gated (remaining attempt : nat) (lastError : option RawError)
    (c : GrokClient) (endpoint modelId : string) (messages : list GrokMessage)
    (tools : option (list GrokTool)) (searchOptions : option SearchOptions) (w : World) :
  exists new,
    snd (chat_attempts E remaining attempt lastError c endpoint modelId messages tools
                       searchOptions w) = w ++ new
    /\ Forall gated new.
Proof.
  revert attempt lastError w.
  induction remaining as [|remaining IH]; intros attempt lastError w.
  - exists []. simpl. now rewrite app_nil_r.
  - cbn [chat_attempts].
    destruct (generateText E _ _) as [err|result].
    + destruct (info_retryable (classifyError err) && (attempt <? MAX_RETRIES)%nat).
      * match goal with
        | |- context [chat_attempts E _ _ _ _ _ _ _ _ _ ?w'] =>
          destruct (IH (S attempt) (Some err) w') as (new & Hw & Hq)
        end.
        rewrite Hw. unfold emit, Logger.logApiError, Logger.error, Logger.appendLine.
        rewrite <- !app_assoc. eexists. split; [reflexivity|].
        repeat (constructor; [now apply gated_other|]).
        apply Forall_app. split; [apply gated_info|].
        constructor; [now apply gated_other | exact Hq].
      * unfold emit, Logger.logApiError, Logger.error, Logger.appendLine. cbn [snd].
        rewrite <- !app_assoc. eexists. split; [reflexivity|].
        repeat (constructor; [now apply gated_other|]). constructor.
    + cbn [snd]. unfold emit. rewrite <- app_assoc. eexists. split; [reflexivity|].
      constructor; [now apply gated_other | apply gated_logApiResponse].
Qed.

Lemma chat_gated (c : GrokClient) (messages : list GrokMessage)
    (tools : option (list GrokTool)) (model : option string)
    (searchOptions : option SearchOptions) (w : World) :
  exists new,
    snd (chat E c messages tools model searchOptions w) = w ++ new /\ Forall gated new.
Proof.
  unfold chat.
  match goal with
  | |- context [chat_attempts E ?r ?at' ?le ?c' ?ep ?m ?ms ?t ?so ?w'] =>
    destruct (chat_attempts_gated r at' le c' ep m ms t so w') as (new & Hw & Hq)
  end.
  rewrite Hw, <- app_assoc. eexists. split; [reflexivity|].
  apply Forall_app. split; [apply gated_logApiRequest | exact Hq].
Qed.

Lemma gated_Act (l : list Effect) : Forall gated l -> Forall gated (script_effects (List.map Act l)).
Proof. now rewrite script_effects_Act. Qed.

Lemma chatStream_attempts_gated (remaining attempt : nat) (lastError : option RawError)
    (c : GrokClient) (endpoint modelId : string) (messages : list GrokMessage)
    (tools : option (list GrokTool)) (searchOptions : option SearchOptions)
    (n_sdk n_random : nat) :
  Forall gated
         (script_effects
            (fst (chatStream_attempts E remaining attempt lastError c endpoint modelId
                                      messages tools searchOptions n_sdk n_random))).
Proof.
  revert attempt lastError n_sdk n_random.
  induction remaining as [|remaining IH]; intros attempt lastError n_sdk n_random;
    [constructor|].
  cbn [chatStream_attempts].
  destruct (streamText E n_sdk _) as [chunks [err|]].
  - destruct (info_retryable (classifyError err) && (attempt <? MAX_RETRIES)%nat).
    + specialize (IH (S attempt) (Some err) (S n_sdk) (S n_random)).
      destruct (chatStream_attempts E remaining _ _ _ _ _ _ _ _ _ _) as [rest outcome].
      cbn [fst] in *. rewrite !script_effects_app, script_effects_Act. simpl.
      rewrite script_effects_chunks, script_effects_app, script_effects_Act. simpl.
      repeat (constructor; [now apply gated_other|]).
      apply Forall_app. split; [apply gated_info|].
      constructor; [now apply gated_other | exact IH].
    + cbn [fst]. rewrite !script_effects_app, script_effects_Act. simpl.
      rewrite script_effects_chunks.
      repeat (constructor; [now apply gated_other|]). constructor.
  - cbn [fst]. rewrite script_effects_app, script_effects_Act. simpl.
    rewrite script_effects_chunks. constructor; [now apply gated_other|].
    apply gated_logApiResponse.
Qed.

Lemma chatStream_gated (c : GrokClient) (messages : list GrokMessage)
    (tools : option (list GrokTool)) (model : option string)
    (searchOptions : option SearchOptions) (w : World) :
  Forall gated
         (script_effects (fst (chatStream E c messages tools model searchOptions w))).
Proof.
  unfold chatStream.
  match goal with
  | |- context [chatStream_attempts E ?r ?at' ?le ?c' ?ep ?m ?ms ?t ?so ?n1 ?n2] =>
    pose proof (chatStream_attempts_gated r at' le c' ep m ms t so n1 n2) as H;
    destruct (chatStream_attempts E r at' le c' ep m ms t so n1 n2) as [script outcome]
  end.
  cbn [fst] in *. rewrite script_effects_app, script_effects_Act.
  apply Forall_app. split; [apply gated_logApiRequest | exact H].
Qed.

Lemma executeTool_gated (a : GrokAgent) (tc : GrokToolCall) (w : World)
    (new : list Effect) :
  snd (executeTool E a tc w) = w ++ new -> Forall gated new.
Proof.
  intros Hw. pose proof (DispatchShape.executeTool_shape E a tc w) as Hd.
  inversion Hd as [r Hs Heq | t Heq | rq r Hc Hn Heq | cmd tm r Hc Hn Heq | rq t Hc Heq
                   | args r Hm Hp Hrun Heq];
    rewrite <- Heq in Hw; cbn [snd] in Hw;
    [rewrite <- (app_nil_r w) in Hw at 1| | | | |];
    apply app_inv_head in Hw; subst new;
    repeat (constructor; [now apply gated_other|]); constructor.
Qed.

(** X13: Nothing but failures is logged unless debug logging is on: every
    request line, response line and info line that the transport, a buffered
    run or a streamed run writes is written with [GROK_DEBUG=1]. *)
Theorem debug_gated_logging :
  (forall c messages tools model searchOptions w,
      exists new,
        snd (chat E c messages tools model searchOptions w) = w ++ new
        /\ Forall (fun e => debug_only e = true -> debug E = true) new)
  /\ (forall c messages tools model searchOptions w,
      Forall (fun e => debug_only e = true -> debug E = true)
             (script_effects (fst (chatStream E c messages tools model searchOptions w))))
  /\ (forall message a w,
      exists new,
        snd (processUserMessage E message a w) = w ++ new
        /\ Forall (fun e => debug_only e = true -> debug E = true) new)
  /\ (forall message a w,
      exists new,
        snd (processUserMessageStream E message a w) = w ++ new
        /\ Forall (fun e => debug_only e = true -> debug E = true) new).
Proof.
  split; [exact chat_gated|]. split; [exact chatStream_gated|]. split.
  - intros message a w. apply processUserMessage_forall.
    + intros a1 tools w1 new _ Hw.
      destruct (chat_gated (grokClient a1) (messages a1) (Some tools) None
                  (getSearchOptions a1 message) w1) as (new' & Hw' & Hq).
      rewrite Hw in Hw'. apply app_inv_head in Hw'. now subst new'.
    + apply executeTool_gated.
  - intros message a w. apply processUserMessageStream_forall;
      try (intros; discriminate).
    + intros a1 tools w1 _. apply chatStream_gated.
    + apply executeTool_gated.
Qed.

End Gated.

End RunFacts.

Module BufferedRun.
Import Json Classifier Data Client Agent Traces Scenarios Shapes.
Import TransportFacts DispatcherFacts BufferedFacts TransportProtocol.

Section WithEnv.
Variable E : Env.

(** What [chat] returns is built from a result of [generateText]. *)
Lemma chat_attempts_response_of (remaining attempt : nat) (lastError : option RawError)
    (c : GrokClient) (endpoint modelId : string) (msgs : list GrokMessage)
    (tools : option (list GrokTool)) (searchOptions : option SearchOptions)
    (w : World) (response : GrokResponse) :
  fst (chat_attempts E remaining attempt lastError c endpoint modelId msgs tools
                     searchOptions w) = inr response ->
  exists now result, response = response_of now result.
Proof.
  revert attempt lastError w.
  induction remaining as [|remaining IH]; intros attempt lastError w; simpl;
    [discriminate|].
  destruct (generateText E _ _) as [err|result]; simpl.
  - destruct (info_retryable (classifyError err) && (attempt <? MAX_RETRIES)%nat);
      [apply IH | discriminate].
  - intros [= <-]. eexists _, result. reflexivity.
Qed.

Lemma chat_response_of (c : GrokClient) (msgs : list GrokMessage)
    (tools : option (list GrokTool)) (model : option string)
    (searchOptions : option SearchOptions) (w : World) (response : GrokResponse) :
  fst (chat E c msgs tools model searchOptions w) = inr response ->
  exists now result, response = response_of now result.
Proof. unfold chat. apply chat_attempts_response_of. Qed.

Lemma tool_entries_not_max_rounds (tcs : list GrokToolCall) (results : list ToolResult) :
  ~ In max_rounds_entry (tool_entries tcs results).
Proof.
  unfold tool_entries. intros Hin. apply in_map_iff in Hin.
  destruct Hin as ([tc r] & Heq & _). discriminate Heq.
Qed.

(** One round: how it leaves the round counter and the response, and what
    it appends to the chat log. *)
Lemma round_cases (toolRounds : Z) (currentResponse : option GrokResponse)
    (message : string) (tools : list GrokTool) (a : GrokAgent) (w : World) :
  exists c tr cr a' w' es,
    round E toolRounds currentResponse message tools a w = (c, (tr, cr), a', w')
    /\ chatHistory a' = chatHistory a ++ es
    /\ ~ In max_rounds_entry es
    /\ match c with
       | Normal => tr = toolRounds + 1 /\ pending cr = true
       | Break => tr = toolRounds /\ pending cr = false /\ cr <> None
       | Return => False
       | Throw _ => True
       end.
Proof.
  unfold round.
  pose proof (chat_response_of (grokClient a) (messages a) (Some tools) None
                (getSearchOptions a message) w) as Hshape.
  destruct (chat E _ _ _ _ _ w) as [[t|response] w1].
  { eexists _, _, _, _, _, []. rewrite app_nil_r. split; [reflexivity|]. now repeat split. }
  destruct (Hshape response eq_refl) as (now & result & ->).
  cbn [choices response_of choice_message rm_content rm_tool_calls].
  destruct (buildAssistantMessage _ _) as [t|m].
  { eexists _, _, _, _, _, []. rewrite app_nil_r. split; [reflexivity|]. now repeat split. }
  destruct (has_length (Some (convertToolCalls now (sdk_toolCalls result)))) eqn:Hhas.
  - match goal with
    | |- context [run_tools E ?tcs ?a1 ?w0] =>
      destruct (run_tools_appends E tcs a1 w0)
        as (results & a' & w' & Hrun & _ & _ & Hh & _)
    end.
    rewrite Hrun. eexists _, _, _, _, _, (_ :: tool_entries _ results).
    split; [reflexivity|]. split; [rewrite Hh; cbn [chatHistory push_entry push_message];
                                   now rewrite <- app_assoc|].
    split.
    + intros [Heq | Hin]; [discriminate Heq|]. now apply tool_entries_not_max_rounds in Hin.
    + split; [reflexivity | exact Hhas].
  - eexists _, _, _, _, _, [_]. split; [reflexivity|].
    split; [reflexivity|]. split.
    + intros [Heq | []]. discriminate Heq.
    + split; [reflexivity|]. split; [exact Hhas | discriminate].
Qed.

Lemma rounds_cases (remaining : nat) (toolRounds : Z)
    (currentResponse : option GrokResponse) (message : string) (tools : list GrokTool)
    (a : GrokAgent) (w : World) :
  exists c tr cr a' w' es,
    rounds E remaining toolRounds currentResponse message tools a w
    = (c, (tr, cr), a', w')
    /\ chatHistory a' = chatHistory a ++ es
    /\ ~ In max_rounds_entry es
    /\ match c with
       | Normal =>
         tr = toolRounds + Z.of_nat remaining
         /\ (remaining = 0%nat -> cr = currentResponse)
         /\ (remaining <> 0%nat -> pending cr = true)
         \/ toolRounds <= tr < toolRounds + Z.of_nat remaining
            /\ pending cr = false /\ cr <> None
       | Break | Return => False
       | Throw _ => True
       end.
Proof.
  revert toolRounds currentResponse a w.
  induction remaining as [|remaining IH]; intros toolRounds currentResponse a w.
  - eexists _, _, _, _, _, []. rewrite app_nil_r. split; [reflexivity|].
    split; [reflexivity|]. split; [auto|]. left. simpl. split; [lia|]. now split.
  - cbn [rounds].
    destruct (round_cases toolRounds currentResponse message tools a w)
      as (c & tr & cr & a1 & w1 & es1 & Hround & Hh1 & Hno1 & Hc).
    rewrite Hround. destruct c.
    + destruct Hc as [-> Hpend].
      destruct (IH (toolRounds + 1) cr a1 w1)
        as (c & tr' & cr' & a' & w' & es2 & Hrun & Hh2 & Hno2 & Hc').
      rewrite Hrun. eexists c, tr', cr', a', w', (es1 ++ es2).
      split; [reflexivity|]. split; [rewrite Hh2, Hh1; now rewrite app_assoc|].
      split; [intros Hin; apply in_app_or in Hin; tauto|].
      destruct c; try exact Hc'.
      destruct Hc' as [(-> & Hzero & Hpos) | (Hlt & Hp & Hn)].
      * left. split; [lia|]. split; [discriminate|]. intros _.
        destruct remaining as [|remaining]; [now rewrite Hzero | now apply Hpos].
      * right. split; [lia | now split].
    + destruct Hc as (-> & Hp & Hn).
      eexists _, _, _, _, _, es1. split; [reflexivity|]. split; [exact Hh1|].
      split; [exact Hno1|]. right. split; [lia | now split].
    + destruct Hc.
    + eexists _, _, _, _, _, es1. split; [reflexivity|]. now repeat split.
Qed.

End WithEnv.

(** X14: The round limit of [processUserMessage]. When the call returns, the
    response it returns still asks for tools exactly when the loop was cut
    by the round limit; the limit notice is then the last entry appended to
    the chat log, and it is appended in no other case and nowhere else. The
    call returns [null] exactly when the limit is not positive (no round is
    run). *)
Theorem processUserMessage_terminal_entry (E : Env) (message : string) (a : GrokAgent)
    (w : World) :
  match processUserMessage E message a w with
  | (inr r, a', _) =>
    (exists es,
        chatHistory a'
        = chatHistory a ++ es
          ++ (if pending r || (maxToolRounds a <=? 0) then [max_rounds_entry] else [])
        /\ ~ In max_rounds_entry es)
    /\ (r = None <-> maxToolRounds a <= 0)
  | (inl _, a', _) =>
    exists es, chatHistory a' = chatHistory a ++ es /\ ~ In max_rounds_entry es
  end.
Proof.
  unfold processUserMessage.
  set (a0 := push_message _ a).
  destruct (rounds_cases E (Z.to_nat (maxToolRounds a0)) 0 None message
              (getAllGrokTools E (count is_sdk_call w)) a0 w)
    as (c & tr & cr & a1 & w1 & es & Hrun & Hh & Hno & Hc).
  rewrite Hrun.
  assert (Hcfg : maxToolRounds a1 = maxToolRounds a).
  { pose proof (rounds_extends E (Z.to_nat (maxToolRounds a0)) 0 None message
                  (getAllGrokTools E (count is_sdk_call w)) a0 w) as Hext.
    rewrite Hrun in Hext. destruct Hext as (_ & _ & _ & _ & Hm). exact Hm. }
  change (maxToolRounds a0) with (maxToolRounds a) in *.
  change (chatHistory a0) with (chatHistory a) in *.
  destruct c; [| destruct Hc | destruct Hc |].
  - rewrite Hcfg.
    destruct Hc as [(-> & Hzero & Hpos) | (Hlt & Hp & Hn)].
    + replace (0 + Z.of_nat (Z.to_nat (maxToolRounds a)) >=? maxToolRounds a) with true
        by (symmetry; apply Z.geb_le; lia).
      destruct (Z.to_nat (maxToolRounds a)) as [|n] eqn:Hnat.
      * rewrite Hzero by reflexivity. cbn [pending orb].
        replace (maxToolRounds a <=? 0) with true by (symmetry; apply Z.leb_le; lia).
        split.
        -- exists es. cbn [chatHistory push_entry]. rewrite Hh, <- app_assoc.
           split; [reflexivity | exact Hno].
        -- split; [lia | reflexivity].
      * rewrite Hpos by discriminate. cbn [orb]. split.
        -- exists es. cbn [chatHistory push_entry]. rewrite Hh. now rewrite <- app_assoc.
        -- split; [intros ->; discriminate (Hpos ltac:(discriminate)) | lia].
    + replace (tr >=? maxToolRounds a) with false
        by (symmetry; rewrite Z.geb_leb; apply Z.leb_gt; lia).
      rewrite Hp. cbn [orb].
      replace (maxToolRounds a <=? 0) with false by (symmetry; apply Z.leb_gt; lia).
      split.
      * exists es. rewrite Hh, app_nil_r. now split.
      * split; [intros ->; congruence | lia].
  - exists es. now split.
Qed.


(** X15: A reply without tool calls ends a buffered run at once:
    [processUserMessage] returns that reply after the one call of the
    transport, having appended to the messages the user message and the
    assistant message with the text of the reply (the empty string for
    none), and to the chat log the assistant entry only: the buffered mode
    records no entry for the user message, and no limit notice here. *)
Theorem processUserMessage_plain_reply (E : Env) (message : string) (a : GrokAgent)
    (w w1 : World) (response : GrokResponse) (choice : Choice) (others : list Choice) :
  0 < maxToolRounds a ->
  chat E (grokClient a)
       (messages a ++ [{| role := "user"; content := Text message |}])
       (Some (getAllGrokTools E (count is_sdk_call w))) None
       (getSearchOptions a message) w
  = (inr response, w1) ->
  choices response = choice :: others ->
  has_length (rm_tool_calls (choice_message choice)) = false ->
  exists a',
    processUserMessage E message a w = (inr (Some response), a', w1)
    /\ messages a'
       = messages a
         ++ [{| role := "user"; content := Text message |};
             {| role := "assistant";
                content := Text (Js.or_string (rm_content (choice_message choice))
                                              EmptyString) |}]
    /\ chatHistory a'
       = chatHistory a
         ++ [assistant_entry (rm_content (choice_message choice))
                             (rm_tool_calls (choice_message choice))].
Proof.
  intros Hmax Hchat Hchoices Hhas.
  unfold processUserMessage. cbn [maxToolRounds push_message].
  destruct (Z.to_nat (maxToolRounds a)) as [|n] eqn:Hn; [lia|].
  cbn [rounds]. unfold round.
  change (getSearchOptions (push_message _ a) message) with (getSearchOptions a message).
  cbn [grokClient messages push_message]. rewrite Hchat, Hchoices.
  unfold buildAssistantMessage. rewrite Hhas. cbn [negb].
  cbn [maxToolRounds push_entry push_message].
  replace (0 >=? maxToolRounds a) with false
    by (symmetry; rewrite Z.geb_leb; apply Z.leb_gt; lia).
  eexists. split; [reflexivity|].
  cbn [messages chatHistory push_entry push_message].
  rewrite <- app_assoc. split; reflexivity.
Qed.

Lemma processUserMessage_plain_reply_witness :
  messages (snd (fst (processUserMessage flaky "hi" agent0 [])))
  = [{| role := "system"; content := Text "You are Grok CLI." |};
     {| role := "user"; content := Text "hi" |};
     {| role := "assistant"; content := Text "Hello." |}]
  /\ List.map entry_type (chatHistory (snd (fst (processUserMessage flaky "hi" agent0 []))))
     = [assistant].
Proof.
  destruct (processUserMessage_plain_reply flaky "hi" agent0 []
              (snd (chat flaky client0
                         (messages agent0 ++ [{| role := "user"; content := Text "hi" |}])
                         (Some []) None None []))
              (response_of 1700000000000 hello)
              {| choice_message :=
                   {| rm_role := "assistant"; rm_content := Some "Hello.";
                      rm_tool_calls := Some [] |};
                 finish_reason := "stop" |} [])
    as (a' & Hrun & Hm & Hh); [reflexivity | reflexivity | reflexivity | reflexivity |].
  rewrite Hrun. cbn [fst snd]. rewrite Hm, Hh. split; reflexivity.
Defined.

(** X16: A round limit that is not positive: [processUserMessage] calls no
    model, appends the user message and the limit notice, and returns [null];
    [processUserMessageStream] yields the token count, the limit notice and
    [done], and appends the entry and the message of the user only. *)
Theorem nonpositive_round_limit (E : Env) (message : string) (a : GrokAgent) (w : World) :
  maxToolRounds a <= 0 ->
  let user := {| role := "user"; content := Text message |} in
  let user_entry :=
    {| entry_type := Data.user; entry_content := message; entry_toolCalls := None;
       entry_toolCall := None; entry_toolResult := None; entry_isStreaming := None |} in
  processUserMessage E message a w
  = (inr None, push_entry max_rounds_entry (push_message user a), w)
  /\ processUserMessageStream E message a w
     = (Normal,
        set_abortController false
          (push_message user (push_entry user_entry (set_abortController true a))),
        w ++ [EYield (token_count (countMessageTokens E (messages a ++ [user])));
              EYield (content_chunk max_rounds_notice);
              EYield done]).
Proof.
  intros Hmax user user_entry. split.
  - unfold processUserMessage. cbn [maxToolRounds push_message].
    replace (Z.to_nat (maxToolRounds a)) with 0%nat by lia. cbn [rounds].
    cbn [maxToolRounds push_message].
    replace (0 >=? maxToolRounds a) with true by (symmetry; apply Z.geb_le; lia).
    reflexivity.
  - unfold processUserMessageStream.
    cbn [maxToolRounds push_message push_entry set_abortController].
    replace (Z.to_nat (maxToolRounds a)) with 0%nat by lia. cbn [stream_rounds].
    unfold yield, emit. rewrite <- !app_assoc. reflexivity.
Qed.

Lemma nonpositive_round_limit_witness :
  fst (fst (processUserMessage backend_down "hi"
              (new_GrokAgent client0 false (Some (-1)) "You are Grok CLI.") []))
  = inr None
  /\ count is_sdk_call
       (snd (processUserMessageStream backend_down "hi"
               (new_GrokAgent client0 false (Some (-1)) "You are Grok CLI.") []))
     = 0%nat.
Proof.
  destruct (nonpositive_round_limit backend_down "hi"
              (new_GrokAgent client0 false (Some (-1)) "You are Grok CLI.") [])
    as [Hb Hs]; [simpl; lia|].
  rewrite Hb, Hs. split; reflexivity.
Defined.

End BufferedRun.

Module StreamedCalls.
Import Json Classifier Data Client Agent Traces Scenarios Shapes.
Import StreamFacts JsonFacts MessageFacts.

Lemma script_tool_calls_deltas (script : list Action) (acc : list GrokToolCall) :
  script_tool_calls script acc = merge_tool_calls (script_deltas script) acc.
Proof.
  revert acc. induction script as [|[e|chunk] script IH]; intros acc;
    cbn [script_tool_calls script_deltas]; [reflexivity | apply IH |].
  rewrite IH. unfold merge_tool_calls. rewrite fold_left_app.
  destruct (chunk_choices chunk) as [|delta others]; [reflexivity|].
  now destruct (delta_tool_calls delta).
Qed.

Lemma merge_tool_call_ids (d : DeltaToolCall) (acc : list GrokToolCall) :
  (In (d_id d) (List.map tc_id acc) ->
   List.map tc_id (merge_tool_call d acc) = List.map tc_id acc)
  /\ (~ In (d_id d) (List.map tc_id acc) ->
      merge_tool_call d acc = acc ++ [new_tool_call d]).
Proof.
  induction acc as [|atc acc [IH1 IH2]]; cbn [merge_tool_call List.map].
  - split; [intros [] | reflexivity].
  - destruct (String.eqb (tc_id atc) (d_id d)) eqn:Heq.
    + apply String.eqb_eq in Heq. split; [reflexivity|].
      intros Hn. exfalso. apply Hn. now left.
    + apply String.eqb_neq in Heq. split.
      * intros [H | H]; [congruence|]. cbn [List.map]. now rewrite IH1.
      * intros Hn. cbn [app]. rewrite IH2; [reflexivity|]. intros H. apply Hn. now right.
Qed.

Lemma merge_tool_call_NoDup (d : DeltaToolCall) (acc : list GrokToolCall) :
  NoDup (List.map tc_id acc) -> NoDup (List.map tc_id (merge_tool_call d acc)).
Proof.
  intros Hnd. destruct (merge_tool_call_ids d acc) as [H1 H2].
  destruct (in_dec string_dec (d_id d) (List.map tc_id acc)) as [Hin | Hn].
  - now rewrite H1.
  - rewrite H2, List.map_app by exact Hn. cbn [List.map new_tool_call tc_id].
    apply NoDup_app. split; [exact Hnd|]. split.
    + intros x Hx Hin. apply list_elem_of_singleton in Hin. subst x.
      apply Hn. now apply list_elem_of_In.
    + apply NoDup_singleton.
Qed.

Lemma merge_tool_call_In (d : DeltaToolCall) (acc : list GrokToolCall) (id : string) :
  In id (List.map tc_id (merge_tool_call d acc))
  <-> In id (List.map tc_id acc) \/ id = d_id d.
Proof.
  destruct (merge_tool_call_ids d acc) as [H1 H2].
  destruct (in_dec string_dec (d_id d) (List.map tc_id acc)) as [Hin | Hn].
  - rewrite H1 by exact Hin. split; [now left | intros [H | ->]; assumption].
  - rewrite H2, List.map_app, in_app_iff by exact Hn. cbn [List.map new_tool_call tc_id In].
    split.
    + intros [H | [<- | []]]; [now left | now right].
    + intros [H | ->]; [now left | right; now left].
Qed.

Lemma merge_tool_call_arguments (d : DeltaToolCall) (acc : list GrokToolCall)
    (id : string) :
  arguments_of id (merge_tool_call d acc)
  = arguments_of id acc
    +:+ (if String.eqb (d_id d) id then Js.or_string (d_arguments d) EmptyString
         else EmptyString).
Proof.
  induction acc as [|atc acc IH]; cbn [merge_tool_call arguments_of].
  - cbn [new_tool_call tc_id tc_arguments]. now destruct (String.eqb (d_id d) id).
  - destruct (String.eqb (tc_id atc) (d_id d)) eqn:Heq; cbn [arguments_of tc_id tc_arguments].
    + apply String.eqb_eq in Heq. rewrite <- Heq.
      destruct (String.eqb (tc_id atc) id); [reflexivity | now rewrite append_nil_r].
    + destruct (String.eqb (tc_id atc) id) eqn:Hid; [|exact IH].
      apply String.eqb_eq in Hid. subst id. rewrite String.eqb_sym, Heq.
      now rewrite append_nil_r.
Qed.

Lemma merge_tool_calls_facts (ds : list DeltaToolCall) (acc : list GrokToolCall) :
  NoDup (List.map tc_id acc) ->
  NoDup (List.map tc_id (merge_tool_calls ds acc))
  /\ (forall id, In id (List.map tc_id (merge_tool_calls ds acc))
                 <-> In id (List.map tc_id acc) \/ In id (List.map d_id ds))
  /\ (forall id, arguments_of id (merge_tool_calls ds acc)
                 = arguments_of id acc +:+ arguments_for id ds).
Proof.
  revert acc. induction ds as [|d ds IH]; intros acc Hnd.
  - cbn. split; [exact Hnd|]. split; [intros id; tauto|].
    intros id. now rewrite append_nil_r.
  - change (merge_tool_calls (d :: ds) acc)
      with (merge_tool_calls ds (merge_tool_call d acc)).
    destruct (IH (merge_tool_call d acc) (merge_tool_call_NoDup d acc Hnd))
      as (H1 & H2 & H3).
    split; [exact H1|]. split.
    + intros id. rewrite H2, merge_tool_call_In. cbn [List.map In].
      split; intros H; intuition.
    + intros id. rewrite H3, merge_tool_call_arguments, append_assoc. reflexivity.
Qed.

Lemma arguments_of_In (tcs : list GrokToolCall) (tc : GrokToolCall) :
  NoDup (List.map tc_id tcs) -> In tc tcs -> arguments_of (tc_id tc) tcs = tc_arguments tc.
Proof.
  induction tcs as [|x tcs IH]; intros Hnd Hin; [destruct Hin|].
  cbn [List.map] in Hnd. inversion Hnd as [|? ? Hx Hnd']; subst.
  cbn [arguments_of]. destruct Hin as [-> | Hin].
  - now rewrite String.eqb_refl.
  - destruct (String.eqb (tc_id x) (tc_id tc)) eqn:Heq; [|now apply IH].
    apply String.eqb_eq in Heq. exfalso. apply Hx. rewrite Heq.
    apply list_elem_of_In. now apply in_map.
Qed.

(** X17: The tool calls that the stream loop accumulates in a round: no two of
    them have the same id; their ids are the ids of the tool-call deltas of
    the stream; and the arguments of each are the argument texts of all the
    deltas with its id, one after the other. *)
Theorem streamed_tool_calls (script : list Action) :
  NoDup (List.map tc_id (script_tool_calls script []))
  /\ (forall id, In id (List.map tc_id (script_tool_calls script []))
                 <-> In id (List.map d_id (script_deltas script)))
  /\ Forall (fun tc => tc_arguments tc = arguments_for (tc_id tc) (script_deltas script))
            (script_tool_calls script []).
Proof.
  rewrite script_tool_calls_deltas.
  destruct (merge_tool_calls_facts (script_deltas script) []) as (H1 & H2 & H3);
    [constructor|].
  split; [exact H1|]. split.
  - intros id. rewrite H2. cbn [List.map In]. tauto.
  - apply List.Forall_forall. intros tc Hin.
    rewrite <- (arguments_of_In _ tc H1 Hin), H3. reflexivity.
Qed.

Lemma merge_tool_calls_fresh (ds : list DeltaToolCall) (acc : list GrokToolCall) :
  NoDup (List.map d_id ds) ->
  (forall d, In d ds -> ~ In (d_id d) (List.map tc_id acc)) ->
  merge_tool_calls ds acc = acc ++ List.map new_tool_call ds.
Proof.
  revert acc. induction ds as [|d ds IH]; intros acc Hnd Hfresh.
  - cbn. now rewrite app_nil_r.
  - change (merge_tool_calls (d :: ds) acc)
      with (merge_tool_calls ds (merge_tool_call d acc)).
    cbn [List.map] in Hnd. inversion Hnd as [|? ? Hd Hnd']; subst.
    destruct (merge_tool_call_ids d acc) as [_ H2].
    rewrite H2 by (apply Hfresh; now left).
    rewrite IH; [cbn [List.map]; now rewrite <- app_assoc | exact Hnd' |].
    intros d' Hin. rewrite List.map_app, in_app_iff. cbn [List.map new_tool_call tc_id In].
    intros [H | [H | []]].
    + eapply Hfresh; [right; exact Hin | exact H].
    + apply Hd. rewrite H. apply list_elem_of_In. now apply in_map.
Qed.

Lemma stringify_nonempty (v : JSONValue) :
  Js.or_string (Some (Json.stringify v)) EmptyString = Json.stringify v.
Proof.
  destruct (stringify_head v) as (c & s & Hs & _).
  destruct (Json.stringify v); [discriminate Hs | reflexivity].
Qed.

Lemma parsed_inputs_printed (ds : list DeltaToolCall) (vs : list JSONValue) :
  List.map d_arguments ds = List.map (fun v => Some (Json.stringify v)) vs ->
  parsed_inputs (List.map new_tool_call ds) = Some vs.
Proof.
  revert vs. induction ds as [|d ds IH]; intros [|v vs] Heq; try discriminate Heq;
    [reflexivity|].
  cbn [List.map] in Heq. injection Heq as Hd Hrest.
  cbn [List.map parsed_inputs new_tool_call tc_arguments].
  rewrite Hd, stringify_nonempty, parse_stringify, (IH vs Hrest). reflexivity.
Qed.

(** X18: A streamed round whose tool calls arrive whole: when the tool-call
    deltas of the stream have pairwise distinct ids and each carries the
    printed form of a JSON value (as [chatStream] yields them), the
    assistant message of the round is built; it holds the text of the
    stream, if any, and one tool-call part per delta, in order, with that
    value as input. *)
Theorem streamed_tool_calls_build (script : list Action) (vs : list JSONValue) :
  NoDup (List.map d_id (script_deltas script)) ->
  List.map d_arguments (script_deltas script)
  = List.map (fun v => Some (Json.stringify v)) vs ->
  script_tool_calls script [] = List.map new_tool_call (script_deltas script)
  /\ stream_assistant_message script
     = inr (match script_deltas script with
            | [] => {| role := "assistant"; content := Text (script_text script) |}
            | _ :: _ =>
              tool_call_message (nonempty (Some (script_text script)))
                                (List.map new_tool_call (script_deltas script)) vs
            end).
Proof.
  intros Hnd Hargs.
  assert (Htcs : script_tool_calls script []
                 = List.map new_tool_call (script_deltas script)).
  { rewrite script_tool_calls_deltas, merge_tool_calls_fresh; [reflexivity | exact Hnd|].
    intros d _ []. }
  split; [exact Htcs|].
  unfold stream_assistant_message. cbv zeta. rewrite Htcs.
  pose proof (parsed_inputs_printed _ _ Hargs) as Hparsed.
  destruct (script_deltas script) as [|d ds].
  - cbn [List.map has_length]. unfold buildAssistantMessage. cbn [has_length negb].
    now destruct (script_text script).
  - cbn [List.map has_length] in *.
    destruct (buildAssistantMessage_closed (nonempty (Some (script_text script)))
                (Some (new_tool_call d :: List.map new_tool_call ds))) as [-> _].
    now rewrite Hparsed.
Qed.

Lemma streamed_tool_calls_build_witness :
  stream_assistant_message (concat (List.map convert_chunk text_then_call))
  = inr {| role := "assistant";
           content := Parts [TextPart "Let me look.";
                             ToolCallPart "A" "bash"
                                          (JObject [("command", JString "ls")])] |}.
Proof.
  destruct (streamed_tool_calls_build (concat (List.map convert_chunk text_then_call))
              [JObject [("command", JString "ls")]]) as [_ H].
  - vm_compute. apply NoDup_singleton.
  - reflexivity.
  - exact H.
Defined.

End StreamedCalls.

Module StreamFailure.
Import Json Classifier Data Client Agent Traces Scenarios Shapes.
Import TransportFacts DispatcherFacts BufferedFacts StreamFacts.

Section WithEnv.
Variable E : Env.
Hypothesis never_aborted : forall n, aborted E n = false.

Lemma transport_no_tool_run (l : list Effect) :
  Forall (fun e => is_transport e = true) l -> count is_tool_run l = 0%nat.
Proof.
  intros H. unfold count. induction H as [|e l He _ IH]; [reflexivity|].
  destruct e; try discriminate He; exact IH.
Qed.

Lemma check_aborted_never (site : CheckSite) (a : GrokAgent) (w : World) :
  exists l, check_aborted E site a w = (false, w ++ l)
            /\ count is_tool_run l = 0%nat
            /\ (abortController a = true -> l = [EAbortCheck site false]).
Proof using never_aborted.
  unfold check_aborted. destruct (abortController a).
  - rewrite never_aborted. eexists [_]. split; [reflexivity|]. now split.
  - exists []. rewrite app_nil_r. split; [reflexivity|]. split; [reflexivity | discriminate].
Qed.

(** Without a cancellation the for-await loop ends as the stream ends. *)
Lemma consume_never_aborted (script : list Action) (outcome : option Thrown)
    (content : string) (tcs : list GrokToolCall) (inputTokens tot : Z)
    (a : GrokAgent) (w : World) :
  Forall (fun e => is_transport e = true) (script_effects script) ->
  exists st new,
    consume E script outcome content tcs inputTokens tot a w
    = (match outcome with None => Normal | Some t => Throw t end, st, w ++ new)
    /\ count is_tool_run new = 0%nat.
Proof using never_aborted.
  revert content tcs tot w.
  induction script as [|[e|chunk] script IH]; intros content tcs tot w Htr.
  - eexists _, []. cbn [consume]. rewrite app_nil_r. split; reflexivity.
  - simpl in Htr. inversion Htr as [|? ? He Hrest]; subst.
    destruct (IH content tcs tot (emit e w) Hrest) as (st & new & Hrun & Hcount).
    exists st, (e :: new). cbn [consume]. rewrite Hrun. unfold emit.
    rewrite <- app_assoc. split; [reflexivity|].
    change (e :: new) with ([e] ++ new). rewrite count_app, Hcount.
    rewrite (transport_no_tool_run [e]); [reflexivity | now constructor].
  - simpl in Htr. cbn [consume].
    destruct (check_aborted_never BeforeStreamEvent a w) as (l & -> & Hl & _).
    destruct (chunk_choices chunk) as [|delta others].
    + destruct (IH content tcs tot (w ++ l) Htr) as (st & new & Hrun & Hcount).
      exists st, (l ++ new). rewrite Hrun, <- app_assoc. split; [reflexivity|].
      rewrite count_app. lia.
    + destruct (nonempty (delta_content delta)) as [text|].
      * match goal with
        | |- context [consume E script outcome ?c' ?t' inputTokens ?n' a ?w'] =>
          destruct (IH c' t' n' w' Htr) as (st & new & Hrun & Hcount)
        end.
        eexists st, (l ++ [_; _] ++ new). rewrite Hrun. unfold yield, emit.
        rewrite <- !app_assoc. split; [reflexivity|].
        rewrite !count_app, Hl, Hcount. reflexivity.
      * match goal with
        | |- context [consume E script outcome ?c' ?t' inputTokens ?n' a ?w'] =>
          destruct (IH c' t' n' w' Htr) as (st & new & Hrun & Hcount)
        end.
        eexists st, (l ++ [_] ++ new). rewrite Hrun. unfold yield, emit.
        rewrite <- !app_assoc. split; [reflexivity|].
        rewrite !count_app, Hl, Hcount. reflexivity.
Qed.

Lemma stream_failure (message : string) (a : GrokAgent) (w : World)
    (info : ApiErrorInfo) :
  0 < maxToolRounds a ->
  let user := {| role := "user"; content := Text message |} in
  let user_entry :=
    {| entry_type := Data.user; entry_content := message; entry_toolCalls := None;
       entry_toolCall := None; entry_toolResult := None; entry_isStreaming := None |} in
  let a0 := push_message user (push_entry user_entry (set_abortController true a)) in
  let w0 := w ++ [EYield (token_count (countMessageTokens E (messages a0)))] in
  round_outcome E message a0 w0 = Some (GrokApiError info) ->
  let text := nl +:+ nl +:+ "API Error: " +:+ info_message info in
  let error_entry :=
    {| entry_type := assistant; entry_content := text; entry_toolCalls := None;
       entry_toolCall := None; entry_toolResult := None; entry_isStreaming := None |} in
  exists pre,
    processUserMessageStream E message a w
    = (Normal,
       set_abortController false (push_entry error_entry a0),
       w0 ++ pre
       ++ [EAbortCheck InCatch false;
           ELog (ERROR "processUserMessageStream failed" (GrokApiError info));
           EYield (content_chunk text);
           EYield done])
    /\ count is_tool_run pre = 0%nat.
Proof using never_aborted.
  intros Hmax user user_entry a0 w0 Hout text error_entry.
  unfold processUserMessageStream. fold user user_entry a0.
  change (yield (token_count (countMessageTokens E (messages a0))) w) with w0.
  change (maxToolRounds a0) with (maxToolRounds a).
  destruct (Z.to_nat (maxToolRounds a)) as [|n] eqn:Hn; [lia|].
  cbn [stream_rounds]. unfold stream_round.
  unfold round_outcome in Hout.
  destruct (check_aborted_never BeforeModelCall a0 w0) as (l & Hchk & Hl & _).
  rewrite Hchk in *. cbn [snd] in Hout.
  pose proof (chatStream_transport E (grokClient a0) (messages a0)
                (Some (getAllGrokTools E (count is_sdk_call (w0 ++ l)))) None
                (getSearchOptions a0 message) (w0 ++ l)) as Htr.
  destruct (chatStream E (grokClient a0) (messages a0) _ None _ (w0 ++ l))
    as [script outcome].
  cbn [fst snd] in *. subst outcome.
  destruct (consume_never_aborted script (Some (GrokApiError info)) EmptyString []
              (countMessageTokens E (messages a0)) 0 a0 (w0 ++ l) Htr)
    as ([[content tcs] tot] & new & Hrun & Hcount).
  rewrite Hrun. unfold stream_catch.
  destruct (check_aborted_never InCatch a0 ((w0 ++ l) ++ new)) as (l' & Hchk' & _ & Hl').
  rewrite Hchk'. rewrite Hl' by reflexivity.
  exists (l ++ new). split.
  - unfold yield, emit, Logger.error, Logger.appendLine. rewrite <- !app_assoc.
    reflexivity.
  - rewrite count_app. lia.
Qed.

End WithEnv.

(** X19: A transport failure in streaming mode. When the stream of the first
    round ends with the [GrokApiError] of the transport, and the consumer
    does not cancel, [processUserMessageStream] runs no tool, logs the
    failure, yields the text [API Error: <message of the classification>]
    and then [done], and records that text as an assistant entry of the chat
    log; to the messages it has appended the user message only, so that no
    assistant message of the failed round is left in the history. *)
Theorem stream_transport_failure (E : Env) (message : string) (a : GrokAgent)
    (w : World) (info : ApiErrorInfo) :
  (forall n, aborted E n = false) ->
  0 < maxToolRounds a ->
  let user := {| role := "user"; content := Text message |} in
  let user_entry :=
    {| entry_type := Data.user; entry_content := message; entry_toolCalls := None;
       entry_toolCall := None; entry_toolResult := None; entry_isStreaming := None |} in
  let a0 := push_message user (push_entry user_entry (set_abortController true a)) in
  let w0 := w ++ [EYield (token_count (countMessageTokens E (messages a0)))] in
  round_outcome E message a0 w0 = Some (GrokApiError info) ->
  let text := nl +:+ nl +:+ "API Error: " +:+ info_message info in
  let error_entry :=
    {| entry_type := assistant; entry_content := text; entry_toolCalls := None;
       entry_toolCall := None; entry_toolResult := None; entry_isStreaming := None |} in
  exists pre,
    processUserMessageStream E message a w
    = (Normal,
       set_abortController false (push_entry error_entry a0),
       w0 ++ pre
       ++ [EAbortCheck InCatch false;
           ELog (ERROR "processUserMessageStream failed" (GrokApiError info));
           EYield (content_chunk text);
           EYield done])
    /\ count is_tool_run pre = 0%nat.
Proof. intros Hnever. now apply stream_failure. Qed.

Lemma stream_transport_failure_witness :
  messages (snd (fst (processUserMessageStream backend_down "hi" agent0 [])))
  = [{| role := "system"; content := Text "You are Grok CLI." |};
     {| role := "user"; content := Text "hi" |}]
  /\ List.map entry_type
              (chatHistory (snd (fst (processUserMessageStream backend_down "hi" agent0 []))))
     = [Data.user; assistant].
Proof.
  destruct (stream_transport_failure backend_down "hi" agent0 []
              (classifyError unavailable)) as (pre & Hrun & _);
    [reflexivity | reflexivity | reflexivity |].
  rewrite Hrun. split; reflexivity.
Defined.

End StreamFailure.

Module SearchTrigger.
Import Json Classifier Data Client Agent Traces Scenarios Shapes.
Import StreamFacts.

Lemma prefix_app (k post : string) : String.prefix k (k +:+ post) = true.
Proof.
  induction k as [|c k IH]; [now destruct post|].
  change (String c k +:+ post) with (String c (k +:+ post)). cbn [String.prefix].
  destruct (ascii_dec c c); [exact IH | congruence].
Qed.

Lemma includes_app (k pre post : string) : Js.includes k (pre +:+ k +:+ post) = true.
Proof.
  induction pre as [|c pre IH].
  - change (EmptyString +:+ k +:+ post) with (k +:+ post).
    destruct (k +:+ post) eqn:Heq; cbn [Js.includes]; rewrite <- Heq, prefix_app;
      reflexivity.
  - change (String c pre +:+ k +:+ post) with (String c (pre +:+ k +:+ post)).
    cbn [Js.includes]. rewrite IH. apply orb_true_r.
Qed.

Lemma toLowerCase_app (a b : string) :
  Js.toLowerCase (a +:+ b) = Js.toLowerCase a +:+ Js.toLowerCase b.
Proof.
  induction a as [|c a IH]; [reflexivity|].
  change (String c a +:+ b) with (String c (a +:+ b)). cbn [Js.toLowerCase].
  now rewrite IH.
Qed.

Lemma lower_digit (c : ascii) : Js.is_digit c = true -> Js.lower_ascii c = c.
Proof.
  unfold Js.is_digit, Js.lower_ascii. cbv zeta. intros H.
  apply andb_prop in H as [_ H]. apply N.leb_le in H.
  replace ((65 <=? N_of_ascii c)%N) with false by (symmetry; apply N.leb_gt; lia).
  reflexivity.
Qed.

Lemma has_year_app (pre post : string) (d1 d2 : ascii) :
  Js.is_digit d1 = true -> Js.is_digit d2 = true ->
  has_year (pre +:+ String "2" (String "0" (String d1 (String d2 post)))) = true.
Proof.
  intros H1 H2. induction pre as [|c pre IH].
  - change (EmptyString +:+ ?s) with s. cbn [has_year]. now rewrite H1, H2.
  - change (String c pre +:+ ?s) with (String c (pre +:+ s)).
    cbn [has_year]. rewrite IH. apply orb_true_r.
Qed.

(** X20: What makes a message call for a search: any of the eighteen keywords,
    in whatever letter case it is written (in ASCII letters), and any
    occurrence of [20] followed by two digits. *)
Theorem shouldUseSearchFor_sufficient (pre post : string) :
  (forall K, In (Js.toLowerCase K) keywords ->
             shouldUseSearchFor (pre +:+ K +:+ post) = true)
  /\ (forall d1 d2, Js.is_digit d1 = true -> Js.is_digit d2 = true ->
                    shouldUseSearchFor
                      (pre +:+ String "2" (String "0" (String d1 (String d2 post))))
                    = true).
Proof.
  split.
  - intros K HK. unfold shouldUseSearchFor. cbv zeta.
    replace (existsb _ keywords) with true; [reflexivity|].
    symmetry. apply existsb_exists. exists (Js.toLowerCase K). split; [exact HK|].
    rewrite !toLowerCase_app. apply includes_app.
  - intros d1 d2 H1 H2. unfold shouldUseSearchFor. cbv zeta.
    destruct (existsb _ keywords); [reflexivity|].
    rewrite toLowerCase_app. cbn [Js.toLowerCase].
    rewrite (lower_digit d1 H1), (lower_digit d2 H2).
    change (Js.lower_ascii "2") with "2"%char. change (Js.lower_ascii "0") with "0"%char.
    now rewrite has_year_app.
Qed.

Lemma shouldUseSearchFor_sufficient_witness :
  shouldUseSearchFor ("What do you k" +:+ "NOW" +:+ " about Rust?") = true
  /\ shouldUseSearchFor ("the " +:+ String "2" (String "0" (String "3" (String "1" " budget"))))
     = true.
Proof.
  split.
  - apply (proj1 (shouldUseSearchFor_sufficient "What do you k" " about Rust?") "NOW").
    vm_compute. tauto.
  - apply (proj2 (shouldUseSearchFor_sufficient "the " " budget") "3"%char "1"%char);
      reflexivity.
Defined.

End SearchTrigger.

Module TextFacts.

Lemma length_app (a b : Utf16.text) :
  Utf16.length (a ++ b) = Utf16.length a + Utf16.length b.
Proof.
  unfold Utf16.length. induction a as [|u a IH]; [reflexivity|].
  cbn [app List.length]. rewrite !Nat2Z.inj_succ. lia.
Qed.

Lemma length_nonneg (s : Utf16.text) : 0 <= Utf16.length s.
Proof. unfold Utf16.length. lia. Qed.

Lemma length_zero (s : Utf16.text) : Utf16.length s <= 0 -> s = [].
Proof. destruct s; [reflexivity|]. unfold Utf16.length. cbn [List.length]. lia. Qed.

Lemma prefix_all (k : nat) (s : Utf16.text) :
  (List.length s <= k)%nat -> firstn k s = s.
Proof.
  revert k. induction s as [|u s IH]; intros [|k] H; try reflexivity.
  - simpl in H. lia.
  - simpl in *. rewrite IH by lia. reflexivity.
Qed.

Lemma prefix_app_l (k : nat) (a b : Utf16.text) :
  (k <= List.length a)%nat -> firstn k (a ++ b) = firstn k a.
Proof.
  revert k. induction a as [|u a IH]; intros [|k] H.
  - reflexivity.
  - simpl in H. lia.
  - reflexivity.
  - simpl in *. rewrite IH by lia. reflexivity.
Qed.

Lemma prefix_app_r (k : nat) (a b : Utf16.text) :
  firstn (List.length a + k) (a ++ b) = a ++ firstn k b.
Proof. induction a as [|u a IH]; [reflexivity|]. simpl. now rewrite IH. Qed.

Lemma prefix_length (k : nat) (s : Utf16.text) :
  (k <= List.length s)%nat -> List.length (firstn k s) = k.
Proof.
  revert k. induction s as [|u s IH]; intros [|k] H; try reflexivity.
  - simpl in H. lia.
  - simpl in *. rewrite IH by lia. reflexivity.
Qed.

Lemma substring_to_all (n : Z) (s : Utf16.text) :
  Utf16.length s <= n -> Utf16.substring_to n s = s.
Proof. unfold Utf16.length, Utf16.substring_to. intros H. apply prefix_all. lia. Qed.

Lemma substring_to_app_l (n : Z) (a b : Utf16.text) :
  n <= Utf16.length a -> Utf16.substring_to n (a ++ b) = Utf16.substring_to n a.
Proof. unfold Utf16.length, Utf16.substring_to. intros H. apply prefix_app_l. lia. Qed.

Lemma substring_to_app_r (n : Z) (a b : Utf16.text) :
  Utf16.length a <= n ->
  Utf16.substring_to n (a ++ b) = a ++ Utf16.substring_to (n - Utf16.length a) b.
Proof.
  unfold Utf16.length, Utf16.substring_to. intros H.
  replace (Z.to_nat n)
    with (List.length a + Z.to_nat (n - Z.of_nat (List.length a)))%nat by lia.
  apply prefix_app_r.
Qed.

Lemma length_substring_to (n : Z) (s : Utf16.text) :
  0 <= n <= Utf16.length s -> Utf16.length (Utf16.substring_to n s) = n.
Proof.
  unfold Utf16.length, Utf16.substring_to. intros H. rewrite prefix_length; lia.
Qed.

Lemma utf8_nonempty (cp : N) (rest : string) : Utf16.utf8 cp rest <> EmptyString.
Proof.
  unfold Utf16.utf8.
  destruct (cp <? 128)%N; [discriminate|].
  destruct (cp <? 2048)%N; [discriminate|].
  destruct (cp <? 65536)%N; discriminate.
Qed.

(** A text that is not empty has bytes. *)
Lemma encode_nonempty (s : Utf16.text) : s <> [] -> Utf16.encode s <> EmptyString.
Proof.
  destruct s as [|u [|v rest]]; [congruence | |]; intros _; cbn [Utf16.encode].
  - apply utf8_nonempty.
  - destruct (Utf16.is_high u && Utf16.is_low v); apply utf8_nonempty.
Qed.

Lemma find_settled {A : Type} (p : A -> bool) (l : list A) :
  find p l = None <-> forallb (fun x => negb (p x)) l = true.
Proof.
  induction l as [|x l IH]; simpl; [tauto|].
  destruct (p x); simpl; [split; discriminate | exact IH].
Qed.

End TextFacts.

Module GrepFacts.
Import Json Data Shapes Grep TextFacts.







(** A child that writes the letter e with an acute accent, U+00E9, 30000
    times: 60000 bytes, but 30000 code units, which the buffer holds whole.
    Written twice, the text is cut after 51200 code units. *)
Example runRipgrep_counts_code_units :
  let text := repeat 233%N (Z.to_nat 30000) in
  let once := fst (listen [stdout_data text] initial) in
  let twice := fst (listen [stdout_data text; stdout_data text] initial) in
  (Utf16.length (stdout once) = 30000 /\ truncated once = false)
  /\ (Utf16.length (stdout twice) = 51200 /\ truncated twice = true).
Proof. vm_compute. repeat split; reflexivity. Qed.

End GrepFacts.

Module BashFacts.
Import Json Data Shapes Bash TextFacts.

Lemma gtb_true (n m : Z) : m < n -> (n >? m) = true.
Proof. intros H. apply Z.gtb_lt. exact H. Qed.

Lemma gtb_false (n m : Z) : n <= m -> (n >? m) = false.
Proof. intros H. rewrite Z.gtb_ltb. apply Z.ltb_ge. exact H. Qed.

Lemma holds_flag (out err : Utf16.text) (s : Capture) :
  holds out err s ->
  if outputTruncated s
  then MAX_OUTPUT_SIZE < Utf16.length out \/ MAX_OUTPUT_SIZE < Utf16.length err
  else stdout s = out /\ stderr s = err
       /\ Utf16.length out <= MAX_OUTPUT_SIZE /\ Utf16.length err <= MAX_OUTPUT_SIZE.
Proof.
  intros (_ & _ & Hflag & Hpe & Hpo). rewrite Hflag.
  destruct (Z.gtb_spec (Utf16.length out) MAX_OUTPUT_SIZE) as [Ho|Ho];
    [left; exact Ho|].
  destruct (Z.gtb_spec (Utf16.length err) MAX_OUTPUT_SIZE) as [He|He];
    [right; exact He|].
  cbn [orb]. destruct (Hpo Ho) as [_ Hout]. destruct (Hpe He) as [_ Herr]. auto.
Qed.

Lemma on_stdout_holds (out err chunk : Utf16.text) (s : Capture) :
  holds out err s -> holds (out ++ chunk) err (on_stdout chunk s).
Proof.
  intros H. pose proof (holds_flag _ _ _ H) as Hf.
  destruct H as (Hbo & Hbe & Hflag & Hpe & Hpo).
  pose proof (length_app out chunk) as Happ.
  pose proof (length_nonneg chunk) as Hc. pose proof (length_nonneg out) as Hout0.
  unfold on_stdout.
  destruct (Z.gtb_spec (Utf16.length (stdout s) + Utf16.length chunk) MAX_OUTPUT_SIZE)
    as [Hover|Hfit];
    destruct (outputTruncated s) eqn:Ht; cbn [negb]; unfold holds;
    cbn [stdout stderr outputTruncated]; rewrite ?Ht.
  - (* a chunk that does not fit, after a truncation *)
    split; [exact Hbo|]. split; [exact Hbe|]. split; [|split].
    + symmetry. destruct Hf as [Ho|He].
      * rewrite (gtb_true (Utf16.length (out ++ chunk))) by lia. reflexivity.
      * rewrite (gtb_true (Utf16.length err)) by lia. apply orb_true_r.
    + intros He. destruct Hf as [Ho|He']; [|lia]. destruct (Hpe He) as [Hso Hse].
      split; [|exact Hse]. rewrite substring_to_app_l by lia. exact Hso.
    + intros Ho. destruct Hpo as [_ Hso]; [lia|]. rewrite Hso in Hover. lia.
  - (* the first chunk that does not fit *)
    destruct Hf as (Hso & Hse & Ho & He). rewrite Hso in *.
    assert (Hcut : Utf16.length
                     (out ++ Utf16.substring_to (MAX_OUTPUT_SIZE - Utf16.length out) chunk)
                   = MAX_OUTPUT_SIZE)
      by (rewrite length_app, length_substring_to; lia).
    split; [lia|]. split; [exact Hbe|]. split; [|split].
    + rewrite (gtb_true (Utf16.length (out ++ chunk))) by lia. reflexivity.
    + intros _. split; [|exact Hse]. now rewrite substring_to_app_r by lia.
    + intros Ho'. lia.
  - (* a chunk that fits, after a truncation *)
    split; [rewrite length_app; lia|]. split; [exact Hbe|]. split; [|split].
    + symmetry. destruct Hf as [Ho|He].
      * rewrite (gtb_true (Utf16.length (out ++ chunk))) by lia. reflexivity.
      * rewrite (gtb_true (Utf16.length err)) by lia. apply orb_true_r.
    + intros He. destruct Hf as [Ho|He']; [|lia]. destruct (Hpe He) as [Hso Hse].
      split; [|exact Hse].
      assert (Hfull : Utf16.length (stdout s) = MAX_OUTPUT_SIZE)
        by (rewrite Hso; apply length_substring_to; unfold MAX_OUTPUT_SIZE in *; lia).
      rewrite (length_zero chunk) by lia. rewrite !app_nil_r. exact Hso.
    + intros Ho. destruct Hpo as [Hse Hso]; [lia|]. split; [exact Hse|].
      now rewrite Hso.
  - (* a chunk that fits *)
    destruct Hf as (Hso & Hse & Ho & He). rewrite Hso in *.
    split; [lia|]. split; [exact Hbe|]. split; [|split].
    + rewrite (gtb_false (Utf16.length (out ++ chunk))) by lia.
      rewrite (gtb_false (Utf16.length err)) by lia. reflexivity.
    + intros _. split; [|exact Hse]. rewrite substring_to_all by lia. reflexivity.
    + intros _. split; [|reflexivity]. rewrite Hse. rewrite substring_to_all by lia.
      reflexivity.
Qed.

Lemma on_stderr_holds (out err chunk : Utf16.text) (s : Capture) :
  holds out err s -> holds out (err ++ chunk) (on_stderr chunk s).
Proof.
  intros H. pose proof (holds_flag _ _ _ H) as Hf.
  destruct H as (Hbo & Hbe & Hflag & Hpe & Hpo).
  pose proof (length_app err chunk) as Happ.
  pose proof (length_nonneg chunk) as Hc. pose proof (length_nonneg err) as Herr0.
  unfold on_stderr.
  destruct (Z.gtb_spec (Utf16.length (stderr s) + Utf16.length chunk) MAX_OUTPUT_SIZE)
    as [Hover|Hfit];
    destruct (outputTruncated s) eqn:Ht; cbn [negb]; unfold holds;
    cbn [stdout stderr outputTruncated]; rewrite ?Ht.
  - split; [exact Hbo|]. split; [exact Hbe|]. split; [|split].
    + symmetry. destruct Hf as [Ho|He].
      * rewrite (gtb_true (Utf16.length out)) by lia. reflexivity.
      * rewrite (gtb_true (Utf16.length (err ++ chunk))) by lia. apply orb_true_r.
    + intros He. destruct Hpe as [_ Hse]; [lia|]. rewrite Hse in Hover. lia.
    + intros Ho. destruct Hf as [Ho'|He]; [lia|]. destruct (Hpo Ho) as [Hse Hso].
      split; [|exact Hso]. rewrite substring_to_app_l by lia. exact Hse.
  - destruct Hf as (Hso & Hse & Ho & He). rewrite Hse in *.
    assert (Hcut : Utf16.length
                     (err ++ Utf16.substring_to (MAX_OUTPUT_SIZE - Utf16.length err) chunk)
                   = MAX_OUTPUT_SIZE)
      by (rewrite length_app, length_substring_to; lia).
    split; [exact Hbo|]. split; [lia|]. split; [|split].
    + rewrite (gtb_true (Utf16.length (err ++ chunk))) by lia.
      symmetry. apply orb_true_r.
    + intros He'. lia.
    + intros _. split; [|exact Hso]. now rewrite substring_to_app_r by lia.
  - split; [exact Hbo|]. split; [rewrite length_app; lia|]. split; [|split].
    + symmetry. destruct Hf as [Ho|He].
      * rewrite (gtb_true (Utf16.length out)) by lia. reflexivity.
      * rewrite (gtb_true (Utf16.length (err ++ chunk))) by lia. apply orb_true_r.
    + intros He. destruct Hpe as [Hso Hse]; [lia|]. split; [exact Hso|].
      now rewrite Hse.
    + intros Ho. destruct Hf as [Ho'|He]; [lia|]. destruct (Hpo Ho) as [Hse Hso].
      split; [|exact Hso].
      assert (Hfull : Utf16.length (stderr s) = MAX_OUTPUT_SIZE)
        by (rewrite Hse; apply length_substring_to; unfold MAX_OUTPUT_SIZE in *; lia).
      rewrite (length_zero chunk) by lia. rewrite !app_nil_r. exact Hse.
  - destruct Hf as (Hso & Hse & Ho & He). rewrite Hse in *.
    split; [exact Hbo|]. split; [lia|]. split; [|split].
    + rewrite (gtb_false (Utf16.length (err ++ chunk))) by lia.
      rewrite (gtb_false (Utf16.length out)) by lia. reflexivity.
    + intros _. split; [|reflexivity]. rewrite Hso. rewrite substring_to_all by lia.
      reflexivity.
    + intros _. split; [|exact Hso]. rewrite substring_to_all by lia. reflexivity.
Qed.

Lemma initial_holds : holds [] [] initial.
Proof. unfold holds, initial, Utf16.length, MAX_OUTPUT_SIZE. cbn. repeat split; lia. Qed.

Lemma listen_capture (timeout : Z) (events : list ChildEvent) (out err : Utf16.text)
    (s : Capture) :
  holds out err s ->
  holds (out ++ written_stdout events) (err ++ written_stderr events)
        (fst (listen timeout events s))
  /\ killed (fst (listen timeout events s)) = killed s || timed_out events.
Proof.
  revert out err s.
  induction events as [|[chunk|chunk| |code signal|error] events IH]; intros out err s H;
    cbn [listen written_stdout written_stderr timed_out fst];
    rewrite ?app_nil_r, ?orb_false_r; auto.
  - destruct (IH _ _ _ (on_stdout_holds out err chunk s H)) as [Hh Hk].
    rewrite <- app_assoc in Hh. split; [exact Hh|]. rewrite Hk. f_equal.
    unfold on_stdout. destruct (_ + _ >? _); [destruct (negb _)|]; reflexivity.
  - destruct (IH _ _ _ (on_stderr_holds out err chunk s H)) as [Hh Hk].
    rewrite <- app_assoc in Hh. split; [exact Hh|]. rewrite Hk. f_equal.
    unfold on_stderr. destruct (_ + _ >? _); [destruct (negb _)|]; reflexivity.
  - assert (Ht : holds out err (on_timer s)) by exact H.
    destruct (IH _ _ _ Ht) as [Hh Hk]. split; [exact Hh|].
    rewrite Hk. cbn [on_timer killed]. now rewrite orb_true_r.
Qed.

Lemma listen_result (timeout : Z) (events : list ChildEvent) (s : Capture) :
  snd (listen timeout events s)
  = match find settles events with
    | Some (close code signal) =>
      Some (on_close timeout code signal (fst (listen timeout events s)))
    | Some (error_event error) => Some (on_error error)
    | _ => None
    end.
Proof.
  revert s. induction events as [|[chunk|chunk| |code signal|error] events IH];
    intros s; cbn [listen find settles]; auto.
Qed.

Lemma capture_bounded (timeout : Z) (events : list ChildEvent) :
  let s := fst (listen timeout events initial) in
  Utf16.length (stdout s) <= MAX_OUTPUT_SIZE
  /\ Utf16.length (stderr s) <= MAX_OUTPUT_SIZE.
Proof.
  destruct (listen_capture timeout events _ _ _ initial_holds)
    as [(Hbo & Hbe & _) _]. split; assumption.
Qed.


(** X22: The two buffers of [spawnCommand] never hold more than 102400 UTF-16
    code units each, whatever the child writes and in whatever order the
    events arrive. (The limit that the source calls 100 KB is compared with
    [length]s: it counts code units, not bytes.) *)
Theorem spawnCommand_buffers_bounded (timeout : Z) (events : list ChildEvent) :
  let s := fst (listen timeout events initial) in
  Utf16.length (stdout s) <= MAX_OUTPUT_SIZE
  /\ Utf16.length (stderr s) <= MAX_OUTPUT_SIZE.
Proof. exact (capture_bounded timeout events). Qed.


(** A child that writes the letter e with an acute accent, U+00E9, 60000
    times: 120000 bytes, but 60000 code units, so that nothing is cut and
    the flag is not set. Written twice, the text is cut after 102400 code
    units. *)
Example spawnCommand_counts_code_units :
  let text := repeat 233%N (Z.to_nat 60000) in
  let once := fst (listen 120000 [stdout_data text] initial) in
  let twice := fst (listen 120000 [stdout_data text; stdout_data text] initial) in
  (Utf16.length (stdout once) = 60000 /\ outputTruncated once = false)
  /\ (Utf16.length (stdout twice) = 102400 /\ outputTruncated twice = true).
Proof. vm_compute. repeat split; reflexivity. Qed.

Lemma or_string_nonempty (text : option string) (fallback : string) :
  fallback <> EmptyString -> Js.or_string text fallback <> EmptyString.
Proof. intros H. destruct text as [[|c text]|]; [exact H | discriminate | exact H]. Qed.

Lemma failure_well_formed (prefix rest : string) (c : ascii) :
  well_formed (failure (String c prefix +:+ rest)).
Proof.
  unfold well_formed, failure. cbn [success error output]. split; [|reflexivity].
  eexists. split; [reflexivity | discriminate].
Qed.

Lemma succeeded_well_formed (text : string) :
  text <> EmptyString -> well_formed (succeeded text).
Proof.
  intros H. unfold well_formed, succeeded. cbn [success error output].
  split; [|reflexivity]. eexists. split; [reflexivity | exact H].
Qed.

Lemma on_close_well_formed (timeout : Z) (code : option Z) (signal : option string)
    (s : Capture) :
  well_formed (on_close timeout code signal s).
Proof.
  unfold on_close. destruct (killed s); [apply failure_well_formed|].
  destruct signal as [[|c sig]|]; try apply failure_well_formed;
    destruct code as [[| |]|]; try apply failure_well_formed;
    apply succeeded_well_formed, or_string_nonempty; discriminate.
Qed.

Lemma on_close_success (timeout : Z) (code : option Z) (signal : option string)
    (s : Capture) :
  success (on_close timeout code signal s) = true
  <-> killed s = false /\ code = Some 0
      /\ (signal = None \/ signal = Some EmptyString).
Proof.
  unfold on_close. destruct (killed s).
  { cbn. split; [discriminate | intros [H _]; discriminate H]. }
  destruct signal as [[|c sig]|]; [| |];
    try (destruct code as [[| |]|]; cbn;
         (split; [try discriminate; auto | try reflexivity;
                  intros (_ & H & _); discriminate H])).
  cbn. split; [discriminate|]. intros (_ & _ & [H|H]); discriminate H.
Qed.

Lemma spawn_outcome (timeout : Z) (events : list ChildEvent) :
  match snd (listen timeout events initial) with
  | None => find settles events = None
  | Some r =>
    well_formed r
    /\ (success r = true <->
        timed_out events = false
        /\ exists signal, find settles events = Some (close (Some 0) signal)
                          /\ (signal = None \/ signal = Some EmptyString))
  end.
Proof.
  rewrite listen_result.
  destruct (listen_capture timeout events _ _ _ initial_holds) as [_ Hk].
  cbn [initial killed orb] in Hk.
  destruct (find settles events) as [[chunk|chunk| |code signal|thrown]|] eqn:Hfind;
    try reflexivity;
    try (exfalso; apply find_some in Hfind as [_ Hs]; discriminate Hs).
  - split; [apply on_close_well_formed|]. rewrite on_close_success, Hk. split.
    + intros (Ht & -> & Hs). split; [exact Ht|]. now exists signal.
    + intros (Ht & sg & Heq & Hs). injection Heq as -> ->. auto.
  - split; [apply failure_well_formed|]. cbn. split; [discriminate|].
    intros (_ & sg & Heq & _). discriminate Heq.
Qed.

(** X24: When the promise of [spawnCommand] settles, and with what. It stays
    pending until the child sends [close] or [error]: the timeout alone
    resolves nothing. The first such event decides: the result is a success
    exactly when it is a [close] with exit code 0 and no signal, and the
    timeout had not expired before. A success carries a non-empty output and
    no error, a failure a non-empty error message and no output. *)
Theorem spawnCommand_outcome (timeout : Z) (events : list ChildEvent) :
  match snd (listen timeout events initial) with
  | None => find settles events = None
  | Some r =>
    well_formed r
    /\ (success r = true <->
        timed_out events = false
        /\ exists signal, find settles events = Some (close (Some 0) signal)
                          /\ (signal = None \/ signal = Some EmptyString))
  end.
Proof. exact (spawn_outcome timeout events). Qed.

End BashFacts.

Module ExecuteFacts.
Import Json Data Shapes Bash TextFacts StreamFacts BashFacts.

Section WithEnv.
Variable E : ToolEnv.

Lemma run_command_cases (tool : BashTool) (c : string) (timeout : Z)
    (w : list ToolEffect) :
  let newDir := Text.trim (Text.substring_from 3 c) in
  exists r tool' e,
    run_command E tool c timeout w = (r, tool', w ++ [e])
    /\ (if Js.startsWith "cd " c
        then e = EChdir newDir
        else e = ESpawn "bash" ["-c"; c] (currentDirectory tool))
    /\ (tool' = tool
        \/ exists directory,
             Js.startsWith "cd " c = true
             /\ process_chdir E newDir = None
             /\ process_cwd E newDir = inr directory
             /\ tool' = {| currentDirectory := directory |}
             /\ r = Some (inr (succeeded ("Changed directory to: " +:+ directory))))
    /\ match r with
       | Some (inl error) =>
         Js.startsWith "cd " c = false
         /\ spawn E "bash" ["-c"; c] (currentDirectory tool) = inl error
       | Some (inr result) => well_formed result
       | None =>
         Js.startsWith "cd " c = false
         /\ exists events,
              spawn E "bash" ["-c"; c] (currentDirectory tool) = inr events
              /\ find settles events = None
       end.
Proof.
  intros newDir. unfold run_command, spawnCommand. fold newDir.
  destruct (Js.startsWith "cd " c).
  - destruct (process_chdir E newDir) as [error|] eqn:Hch.
    + eexists _, _, _. split; [reflexivity|]. split; [reflexivity|].
      split; [now left | apply failure_well_formed].
    + destruct (process_cwd E newDir) as [error|directory] eqn:Hcwd.
      * eexists _, _, _. split; [reflexivity|]. split; [reflexivity|].
        split; [now left | apply failure_well_formed].
      * eexists _, _, _. split; [reflexivity|]. split; [reflexivity|].
        split; [right; exists directory; auto|].
        apply succeeded_well_formed. discriminate.
  - destruct (spawn E "bash" ["-c"; c] (currentDirectory tool)) as [error|events]
      eqn:Hspawn.
    + eexists _, _, _. split; [reflexivity|]. split; [reflexivity|].
      split; [now left | now split].
    + eexists _, _, _. split; [reflexivity|]. split; [reflexivity|].
      split; [now left|].
      pose proof (spawn_outcome timeout events) as Hout.
      destruct (snd (listen timeout events initial)) as [r|]; cbn [option_map].
      * apply Hout.
      * split; [reflexivity|]. now exists events.
Qed.

Lemma execute_cases (tool : BashTool) (command : option JSONValue)
    (timeout : option Z) (w : list ToolEffect) :
  exists r tool' new,
    execute E tool command timeout w = (r, tool', w ++ new)
    /\ match r with
       | Some (inl _) => False
       | Some (inr result) => well_formed result
       | None =>
         exists c,
           command = Some (JString c)
           /\ (requestConfirmation E (confirmation tool c) "bash" = None
               \/ exists events,
                    spawn E "bash" ["-c"; c] (currentDirectory tool) = inr events
                    /\ find settles events = None)
       end
    /\ (forall e, In e new -> is_chdir e || is_spawn e = true ->
        exists c,
          command = Some (JString c) /\ c <> EmptyString /\ allowed E tool c
          /\ if Js.startsWith "cd " c
             then e = EChdir (Text.trim (Text.substring_from 3 c))
             else e = ESpawn "bash" ["-c"; c] (currentDirectory tool))
    /\ (tool' = tool
        \/ exists c directory,
             command = Some (JString c)
             /\ Js.startsWith "cd " c = true
             /\ process_chdir E (Text.trim (Text.substring_from 3 c)) = None
             /\ process_cwd E (Text.trim (Text.substring_from 3 c)) = inr directory
             /\ tool' = {| currentDirectory := directory |}
             /\ r = Some (inr (succeeded ("Changed directory to: " +:+ directory)))).
Proof.
  assert (Hquiet : forall (r : Outcome) (l : list ToolEffect),
             (forall e, In e l -> is_chdir e || is_spawn e = false) ->
             forall e, In e l -> is_chdir e || is_spawn e = true ->
             exists c,
               command = Some (JString c) /\ c <> EmptyString /\ allowed E tool c
               /\ if Js.startsWith "cd " c
                  then e = EChdir (Text.trim (Text.substring_from 3 c))
                  else e = ESpawn "bash" ["-c"; c] (currentDirectory tool)).
  { intros _ l Hl e He Hrun. rewrite (Hl e He) in Hrun. discriminate Hrun. }
  assert (Hnone : forall e, In e (@nil ToolEffect) -> is_chdir e || is_spawn e = false)
    by (intros e []).
  set (missing := failure "No command provided. Please specify a command to execute.").
  assert (Hmissing : well_formed missing).
  { unfold well_formed, missing, failure. cbn [success error output].
    split; [|reflexivity]. eexists. split; [reflexivity | discriminate]. }
  unfold execute, execute_try.
  destruct command as [[| | |[|c0 rest]| |]|];
    try (exists (Some (inr missing)), tool, []; rewrite app_nil_r;
         split; [reflexivity|]; split; [exact Hmissing|];
         split; [now apply (Hquiet None) | now left]).
  set (c := String c0 rest).
  destruct (run_command_cases tool c (default 120000 timeout) w)
    as (r1 & t1 & e1 & Hrun1 & He1 & Htool1 & Hr1).
  destruct (run_command_cases tool c (default 120000 timeout)
              (w ++ [ERequestConfirmation (confirmation tool c) "bash"]))
    as (r2 & t2 & e2 & Hrun2 & He2 & Htool2 & Hr2).
  destruct (getSessionFlags E) as [error|sessionFlags] eqn:Hflags.
  { eexists _, tool, []. rewrite app_nil_r. split; [reflexivity|].
    split; [apply failure_well_formed|]. split; [now apply (Hquiet None) | now left]. }
  assert (Hran : forall (r : Outcome) t e pre,
             (bashCommands sessionFlags = true \/ allOperations sessionFlags = true
              \/ exists answer,
                   requestConfirmation E (confirmation tool c) "bash"
                   = Some (inr answer) /\ confirmed answer = true) ->
             (forall x, In x pre -> is_chdir x || is_spawn x = false) ->
             (if Js.startsWith "cd " c
              then e = EChdir (Text.trim (Text.substring_from 3 c))
              else e = ESpawn "bash" ["-c"; c] (currentDirectory tool)) ->
             (t = tool
              \/ exists directory,
                   Js.startsWith "cd " c = true
                   /\ process_chdir E (Text.trim (Text.substring_from 3 c)) = None
                   /\ process_cwd E (Text.trim (Text.substring_from 3 c))
                      = inr directory
                   /\ t = {| currentDirectory := directory |}
                   /\ r = Some (inr (succeeded ("Changed directory to: "
                                                +:+ directory)))) ->
             match r with
             | Some (inl error) =>
               Js.startsWith "cd " c = false
               /\ spawn E "bash" ["-c"; c] (currentDirectory tool) = inl error
             | Some (inr result) => well_formed result
             | None =>
               Js.startsWith "cd " c = false
               /\ exists events,
                    spawn E "bash" ["-c"; c] (currentDirectory tool) = inr events
                    /\ find settles events = None
             end ->
             exists (r' : Outcome) tool' new,
               match r with
               | Some (inl error) =>
                 (Some (inr (failure ("Command failed: "
                                      +:+ Js.template (thrown_message error)))),
                  t, (w ++ pre) ++ [e])
               | Some (inr result) => (Some (inr result), t, (w ++ pre) ++ [e])
               | None => (None, t, (w ++ pre) ++ [e])
               end = (r', tool', w ++ new)
               /\ match r' with
                  | Some (inl _) => False
                  | Some (inr result) => well_formed result
                  | None =>
                    exists c',
                      Some (JString c) = Some (JString c')
                      /\ (requestConfirmation E (confirmation tool c') "bash" = None
                          \/ exists events,
                               spawn E "bash" ["-c"; c'] (currentDirectory tool)
                               = inr events
                               /\ find settles events = None)
                  end
               /\ (forall x, In x new -> is_chdir x || is_spawn x = true ->
                   exists c',
                     Some (JString c) = Some (JString c') /\ c' <> EmptyString
                     /\ allowed E tool c'
                     /\ if Js.startsWith "cd " c'
                        then x = EChdir (Text.trim (Text.substring_from 3 c'))
                        else x = ESpawn "bash" ["-c"; c'] (currentDirectory tool))
               /\ (tool' = tool
                   \/ exists c' directory,
                        Some (JString c) = Some (JString c')
                        /\ Js.startsWith "cd " c' = true
                        /\ process_chdir E (Text.trim (Text.substring_from 3 c')) = None
                        /\ process_cwd E (Text.trim (Text.substring_from 3 c'))
                           = inr directory
                        /\ tool' = {| currentDirectory := directory |}
                        /\ r' = Some (inr (succeeded ("Changed directory to: "
                                                      +:+ directory))))).
  { intros r t e pre Hallow Hpre He Htool Hr.
    assert (Hnew : forall x, In x (pre ++ [e]) -> is_chdir x || is_spawn x = true ->
               exists c',
                 Some (JString c) = Some (JString c') /\ c' <> EmptyString
                 /\ allowed E tool c'
                 /\ if Js.startsWith "cd " c'
                    then x = EChdir (Text.trim (Text.substring_from 3 c'))
                    else x = ESpawn "bash" ["-c"; c'] (currentDirectory tool)).
    { intros x Hx Hrun. apply in_app_or in Hx as [Hx | [ <- | [] ] ].
      - rewrite (Hpre x Hx) in Hrun. discriminate Hrun.
      - exists c. split; [reflexivity|]. split; [discriminate|].
        split; [now exists sessionFlags | exact He]. }
    destruct r as [[error|result]|].
    - eexists _, t, (pre ++ [e]). rewrite app_assoc. split; [reflexivity|].
      split; [apply failure_well_formed|]. split; [exact Hnew|].
      destruct Htool as [->|(directory & _ & _ & _ & _ & Heq)];
        [now left | discriminate Heq].
    - eexists _, t, (pre ++ [e]). rewrite app_assoc. split; [reflexivity|].
      split; [exact Hr|]. split; [exact Hnew|].
      destruct Htool as [->|(directory & Hcd & Hch & Hcwd & -> & Heq)]; [now left|].
      right. exists c, directory. repeat split; assumption.
    - eexists _, t, (pre ++ [e]). rewrite app_assoc. split; [reflexivity|].
      split; [|split; [exact Hnew|]].
      + exists c. split; [reflexivity|]. right. apply Hr.
      + destruct Htool as [->|(directory & _ & _ & _ & _ & Heq)];
          [now left | discriminate Heq]. }
  destruct (bashCommands sessionFlags) eqn:Hb; cbn [negb andb].
  { rewrite Hrun1. replace (w ++ [e1]) with ((w ++ []) ++ [e1])
      by now rewrite app_nil_r.
    apply (Hran r1 t1 e1 []); auto. }
  destruct (allOperations sessionFlags) eqn:Ha; cbn [negb].
  { rewrite Hrun1. replace (w ++ [e1]) with ((w ++ []) ++ [e1])
      by now rewrite app_nil_r.
    apply (Hran r1 t1 e1 []); auto. }
  fold c.
  assert (Hask : forall x, In x [ERequestConfirmation (confirmation tool c) "bash"] ->
             is_chdir x || is_spawn x = false)
    by (intros x [ <- | [] ]; reflexivity).
  destruct (requestConfirmation E (confirmation tool c) "bash")
    as [[error|answer]|] eqn:Hconfirm.
  - eexists _, tool, [_]. split; [reflexivity|]. split; [apply failure_well_formed|].
    split; [now apply (Hquiet None) | now left].
  - destruct (confirmed answer) eqn:Hyes; cbn [negb].
    + rewrite Hrun2.
      apply (Hran r2 t2 e2 [ERequestConfirmation (confirmation tool c) "bash"]); auto.
      right. right. now exists answer.
    + eexists _, tool, [_]. split; [reflexivity|].
      split; [|split; [now apply (Hquiet None) | now left]].
      unfold well_formed, failure. cbn [success error output]. split; [|reflexivity].
      eexists. split; [reflexivity|]. apply or_string_nonempty. discriminate.
  - eexists _, tool, [_]. split; [reflexivity|]. split.
    + exists c. split; [reflexivity|]. now left.
    + split; [now apply (Hquiet None) | now left].
Qed.

End WithEnv.

(** X25: [execute] never rejects. Whatever the confirmation service, the process
    or the spawned child do, also when one of them throws, its promise
    resolves to a result that says what it has to say: a success with a
    non-empty output, or a failure with a non-empty error message. It stays
    pending only while the user does not answer the request for a
    confirmation, or while the child sends neither [close] nor [error]. *)
Theorem execute_never_rejects (E : ToolEnv) (tool : BashTool)
    (command : option JSONValue) (timeout : option Z) (w : list ToolEffect) :
  match fst (fst (execute E tool command timeout w)) with
  | Some (inl _) => False
  | Some (inr result) => well_formed result
  | None =>
    exists c,
      command = Some (JString c)
      /\ (requestConfirmation E (confirmation tool c) "bash" = None
          \/ exists events,
               spawn E "bash" ["-c"; c] (currentDirectory tool) = inr events
               /\ find settles events = None)
  end.
Proof.
  destruct (execute_cases E tool command timeout w) as (r & tool' & new & -> & H & _).
  exact H.
Qed.



End ExecuteFacts.

Module LogFilesFacts.
Import Data LogFiles.

Section WithEnv.
Variable E : FsEnv.

Lemma prune_extends (cutoff : Z) (files : list string) (w : list FsEffect) :
  exists after, prune E cutoff files w = w ++ after.
Proof.
  revert w. induction files as [|file files IH]; intros w; cbn [prune].
  - exists []. now rewrite app_nil_r.
  - destruct (negb _ || negb _); [apply IH|].
    destruct (statSync E w _) as [error|mtimeMs].
    + destruct (IH (w ++ [EStat (path_join E (LOG_DIR E) file)])) as [after ->].
      eexists. now rewrite <- app_assoc.
    + destruct (Qlt_le_dec _ _).
      * destruct (unlinkSync E _ _);
          destruct (IH ((w ++ [EStat (path_join E (LOG_DIR E) file)])
                        ++ [EUnlink (path_join E (LOG_DIR E) file)])) as [after ->];
          eexists; now rewrite <- !app_assoc.
      * destruct (IH (w ++ [EStat (path_join E (LOG_DIR E) file)])) as [after ->].
        eexists. now rewrite <- app_assoc.
Qed.

Lemma prune_unlinks (cutoff : Z) (files : list string) (w : list FsEffect)
    (full : string) :
  In (EUnlink full) (prune E cutoff files w) ->
  In (EUnlink full) w
  \/ exists file before after mtimeMs,
       In file files
       /\ Js.startsWith "grok-" file = true
       /\ Text.endsWith ".log" file = true
       /\ full = path_join E (LOG_DIR E) file
       /\ prune E cutoff files w = before ++ EStat full :: EUnlink full :: after
       /\ statSync E before full = inr mtimeMs
       /\ (mtimeMs < inject_Z cutoff)%Q.
Proof.
  revert w. induction files as [|file files IH]; intros w Hin; cbn [prune] in *;
    [now left|].
  assert (Hlater : forall w',
             In (EUnlink full) (prune E cutoff files w') ->
             (In (EUnlink full) w' -> In (EUnlink full) w
                \/ exists file0 before after mtimeMs,
                     In file0 (file :: files)
                     /\ Js.startsWith "grok-" file0 = true
                     /\ Text.endsWith ".log" file0 = true
                     /\ full = path_join E (LOG_DIR E) file0
                     /\ prune E cutoff files w'
                        = before ++ EStat full :: EUnlink full :: after
                     /\ statSync E before full = inr mtimeMs
                     /\ (mtimeMs < inject_Z cutoff)%Q) ->
             In (EUnlink full) w
             \/ exists file0 before after mtimeMs,
                  In file0 (file :: files)
                  /\ Js.startsWith "grok-" file0 = true
                  /\ Text.endsWith ".log" file0 = true
                  /\ full = path_join E (LOG_DIR E) file0
                  /\ prune E cutoff files w'
                     = before ++ EStat full :: EUnlink full :: after
                  /\ statSync E before full = inr mtimeMs
                  /\ (mtimeMs < inject_Z cutoff)%Q).
  { intros w' Hin' Hold. destruct (IH w' Hin') as [Hw'|Hfound]; [now apply Hold|].
    right. destruct Hfound as (file0 & before & after & mtimeMs & Hf & Hrest).
    exists file0, before, after, mtimeMs. split; [now right | exact Hrest]. }
  destruct (Js.startsWith "grok-" file) eqn:Hstart; cbn [negb orb] in *;
    [|apply (Hlater w Hin); now left].
  destruct (Text.endsWith ".log" file) eqn:Hend; cbn [negb] in *;
    [|apply (Hlater w Hin); now left].
  destruct (statSync E w (path_join E (LOG_DIR E) file)) as [error|mtimeMs] eqn:Hstat.
  - apply (Hlater _ Hin). intros Hw. apply in_app_or in Hw as [Hw | [Heq | []]];
      [now left | discriminate Heq].
  - destruct (Qlt_le_dec mtimeMs (inject_Z cutoff)) as [Hold|Hnew].
    + assert (Hsame : match unlinkSync E (w ++ [EStat (path_join E (LOG_DIR E) file)])
                              (path_join E (LOG_DIR E) file) with
                      | Some _ | None =>
                        prune E cutoff files
                              ((w ++ [EStat (path_join E (LOG_DIR E) file)])
                               ++ [EUnlink (path_join E (LOG_DIR E) file)])
                      end
                      = prune E cutoff files
                              ((w ++ [EStat (path_join E (LOG_DIR E) file)])
                               ++ [EUnlink (path_join E (LOG_DIR E) file)]))
        by (destruct (unlinkSync E _ _); reflexivity).
      rewrite Hsame in *. clear Hsame.
      apply (Hlater _ Hin). intros Hw.
      apply in_app_or in Hw as [Hw | [Heq | []]].
      * apply in_app_or in Hw as [Hw | [Heq | []]]; [now left | discriminate Heq].
      * injection Heq as Heq. right.
        destruct (prune_extends cutoff files
                    ((w ++ [EStat (path_join E (LOG_DIR E) file)])
                     ++ [EUnlink (path_join E (LOG_DIR E) file)])) as [after Hafter].
        exists file, w, after, mtimeMs. subst full.
        split; [now left|]. split; [exact Hstart|]. split; [exact Hend|].
        split; [reflexivity|]. split; [|split; [exact Hstat | exact Hold]].
        rewrite Hafter, <- !app_assoc. reflexivity.
    + apply (Hlater _ Hin). intros Hw. apply in_app_or in Hw as [Hw | [Heq | []]];
        [now left | discriminate Heq].
Qed.

Lemma pruneOldLogs_unlinks (full : string) :
  In (EUnlink full) (pruneOldLogs E) ->
  exists files file before after mtimeMs,
    readdirSync E (LOG_DIR E) = inr files
    /\ In file files
    /\ Js.startsWith "grok-" file = true
    /\ Text.endsWith ".log" file = true
    /\ full = path_join E (LOG_DIR E) file
    /\ pruneOldLogs E = before ++ EStat full :: EUnlink full :: after
    /\ statSync E before full = inr mtimeMs
    /\ (mtimeMs < inject_Z (Date_now E - 604800000))%Q.
Proof.
  unfold pruneOldLogs. destruct (readdirSync E (LOG_DIR E)) as [error|files];
    [intros []|].
  intros Hin. apply prune_unlinks in Hin as [[]|Hfound].
  destruct Hfound as (file & before & after & mtimeMs & Hrest).
  exists files, file, before, after, mtimeMs. split; [reflexivity | exact Hrest].
Qed.

End WithEnv.

(** X28: [pruneOldLogs] deletes old logs only. A file that it unlinks is an entry
    of the log directory whose name starts with [grok-] and ends with
    [.log]; it was examined with [statSync] just before, and its
    modification time was more than seven days (604800000 ms) before
    [Date.now()]. *)
Theorem pruneOldLogs_only_old_logs (E : FsEnv) (full : string) :
  In (EUnlink full) (pruneOldLogs E) ->
  exists files file before after mtimeMs,
    readdirSync E (LOG_DIR E) = inr files
    /\ In file files
    /\ Js.startsWith "grok-" file = true
    /\ Text.endsWith ".log" file = true
    /\ full = path_join E (LOG_DIR E) file
    /\ pruneOldLogs E = before ++ EStat full :: EUnlink full :: after
    /\ statSync E before full = inr mtimeMs
    /\ (mtimeMs < inject_Z (Date_now E - 604800000))%Q.
Proof. apply pruneOldLogs_unlinks. Qed.

Lemma pruneOldLogs_only_old_logs_witness :
  In (EUnlink "/home/u/.grok/logs/grok-2024-01-01.log") (pruneOldLogs old_and_new)
  /\ exists files file before after mtimeMs,
       readdirSync old_and_new (LOG_DIR old_and_new) = inr files
       /\ In file files
       /\ Js.startsWith "grok-" file = true
       /\ Text.endsWith ".log" file = true
       /\ "/home/u/.grok/logs/grok-2024-01-01.log"
          = path_join old_and_new (LOG_DIR old_and_new) file
       /\ pruneOldLogs old_and_new
          = before ++ EStat "/home/u/.grok/logs/grok-2024-01-01.log"
                   :: EUnlink "/home/u/.grok/logs/grok-2024-01-01.log" :: after
       /\ statSync old_and_new before "/home/u/.grok/logs/grok-2024-01-01.log"
          = inr mtimeMs
       /\ (mtimeMs < inject_Z (Date_now old_and_new - 604800000))%Q.
Proof.
  assert (H : In (EUnlink "/home/u/.grok/logs/grok-2024-01-01.log")
                 (pruneOldLogs old_and_new))
    by (vm_compute; auto).
  split; [exact H|].
  exact (pruneOldLogs_only_old_logs old_and_new _ H).
Defined.

End LogFilesFacts.
